(** * Evolution simulator: creatures, food and the ecosystem tick

    A shallow embedding of [src/EvolutionSimulator.py] (the simulation
    core: classes [Creature], [Food] and [Ecosystem]; the pygame drawing
    code is left out) and the properties of it that the specification
    states.

    Conventions of the embedding.
    - Python numbers ([int] and [float] alike) that take part in true
      division are exact rationals [Q]; quantities the code keeps integral
      ([hunger], [reproduction_cooldown], [generation], [energyContent])
      are [Z].  Rounding of binary floating point is not modelled.
    - Objects of class [Creature] are mutable and shared by reference, so
      they live in a store ([heap], a list indexed by object identity) and
      the ecosystem's [creatures] list holds identities.  [Food] objects
      are never mutated and are kept by value.
    - The module [random] is a tape of raw draws in [0,1) read through a
      cursor; [randint], [uniform], [random] and [choice] are derived from
      one raw draw each, in the order in which the code calls them.
    - [list.remove(x)] raises [ValueError] when [x] is absent.  The model
      has two failures of its own: [NoObject], an identity that names no
      object of the store, and [OutOfFuel], a loop that ran longer than
      the bound the model gave it.  None of the three occurs in a run, as
      the last part of the file shows.
    - [pow_half] stands for [x ** 0.5]: the exact root where it is rational
      ([pow_half_exact]), a lower approximation elsewhere. *)

From Stdlib Require Import ZArith Znumtheory QArith Qround Qminmax Qabs Lia Lqa.
From stdpp Require Import base list.

Local Open Scope Q_scope.

(** ** Numbers *)

Definition Qltb (x y : Q) : bool := negb (Qle_bool y x).

(** Python's two-argument [min(a, b)]: [b] when [b < a], else [a]. *)
Definition py_min (a b : Q) : Q := if Qltb b a then b else a.

(** Python's two-argument [max(a, b)]: [b] when [b > a], else [a]. *)
Definition py_max (a b : Q) : Q := if Qltb a b then b else a.

(** [int(x)]: truncation towards zero. *)
Definition py_int (x : Q) : Z := if Qle_bool 0 x then Qfloor x else Qceiling x.

(** [a // b]: the floor of the quotient, still a number. *)
Definition py_floordiv (a b : Q) : Q := inject_Z (Qfloor (a / b)).

(** [x ** 0.5].  The rational square root: exact whenever [x] is the
    square of a rational, and rounded down to a multiple of
    [1 / (Qden x * 2^53)] otherwise. *)
Definition sqrt_scale : positive := 2 ^ 53.

Definition pow_half (x : Q) : Q :=
  Z.sqrt (Qnum x * Zpos (Qden x) * (Zpos sqrt_scale * Zpos sqrt_scale))
  # (Qden x * sqrt_scale).

(** ** Constants *)

Definition SCREEN_WIDTH : Q := 800.
Definition SCREEN_HEIGHT : Q := 600.
Definition REPRODUCTION_DISTANCE_THRESHOLD : Q := 10.
Definition ENERGY_THRESHOLD_FOR_DEATH : Q := -300.
Definition REPRODUCTION_COOLDOWN : Z := 275.
Definition max_food_count : nat := 50.

(** ** Data model *)

Inductive Gender := male | female.

Definition Gender_eqb (g h : Gender) : bool :=
  match g, h with
  | male, male | female, female => true
  | _, _ => false
  end.

Definition Position : Type := Q * Q.

Record Creature := mkCreature {
  energy : Q;
  position : Position;
  gender : Gender;
  generation : Z;
  hunger : Z;
  speed : Q;
  reproduction_cooldown : Z
}.

Module Food.
Record t := mk { energyContent : Z; position : Position }.

(** [isOverlapping]: both axis-wise differences are below 10. *)
Definition isOverlapping (f : t) (p : Position) : bool :=
  Qltb (Qabs (fst (position f) - fst p)) 10
  && Qltb (Qabs (snd (position f) - snd p)) 10.
End Food.

(** The state of the one [Ecosystem]: the object store, the two live
    collections, and how far the random tape has been read. *)
Record Ecosystem := mkEcosystem {
  heap : list Creature;
  creatures : list nat;
  foods : list Food.t;
  cursor : nat
}.

Definition set_energy (e : Q) (c : Creature) : Creature :=
  mkCreature e (position c) (gender c) (generation c) (hunger c) (speed c)
    (reproduction_cooldown c).
Definition set_position (p : Position) (c : Creature) : Creature :=
  mkCreature (energy c) p (gender c) (generation c) (hunger c) (speed c)
    (reproduction_cooldown c).
Definition set_hunger (h : Z) (c : Creature) : Creature :=
  mkCreature (energy c) (position c) (gender c) (generation c) h (speed c)
    (reproduction_cooldown c).
Definition set_speed (s : Q) (c : Creature) : Creature :=
  mkCreature (energy c) (position c) (gender c) (generation c) (hunger c) s
    (reproduction_cooldown c).
Definition set_reproduction_cooldown (n : Z) (c : Creature) : Creature :=
  mkCreature (energy c) (position c) (gender c) (generation c) (hunger c)
    (speed c) n.

Definition set_heap (h : list Creature) (w : Ecosystem) : Ecosystem :=
  mkEcosystem h (creatures w) (foods w) (cursor w).
Definition set_creatures (l : list nat) (w : Ecosystem) : Ecosystem :=
  mkEcosystem (heap w) l (foods w) (cursor w).
Definition set_foods (l : list Food.t) (w : Ecosystem) : Ecosystem :=
  mkEcosystem (heap w) (creatures w) l (cursor w).
Definition set_cursor (k : nat) (w : Ecosystem) : Ecosystem :=
  mkEcosystem (heap w) (creatures w) (foods w) k.

(** ** Failure *)

Inductive exn :=
| ValueError   (* list.remove(x): x not in list *)
| NoObject     (* an identity outside the store; Python has no such reference *)
| OutOfFuel.   (* a loop of the model ran longer than its bound *)

Inductive result (A : Type) :=
| Ok (a : A)
| Raise (e : exn).
Arguments Ok {A} a.
Arguments Raise {A} e.

Definition bind {A B} (r : result A) (k : A -> result B) : result B :=
  match r with
  | Ok a => k a
  | Raise e => Raise e
  end.

Notation "x <- r ;; k" := (bind r (fun x => k))
  (at level 100, r at next level, right associativity).

Definition deref (w : Ecosystem) (i : nat) : result Creature :=
  match heap w !! i with
  | Some c => Ok c
  | None => Raise NoObject
  end.

(** Assignment through a reference: the object [i] becomes [c]. *)
Definition store (i : nat) (c : Creature) (w : Ecosystem) : Ecosystem :=
  set_heap (<[i := c]> (heap w)) w.

(** A new object; its identity is the next free index of the store. *)
Definition alloc (c : Creature) (w : Ecosystem) : nat * Ecosystem :=
  (length (heap w), set_heap (heap w ++ [c]) w).

(** [l.remove(x)]: drops the first occurrence, [None] when there is none. *)
Fixpoint list_remove (x : nat) (l : list nat) : option (list nat) :=
  match l with
  | [] => None
  | y :: l' =>
      if Nat.eqb x y then Some l'
      else match list_remove x l' with
           | Some r => Some (y :: r)
           | None => None
           end
  end.

(** [min(l, key=...)] on a non-empty list [x :: l]: the first of the
    elements with the least key. *)
Fixpoint py_min_by {A} (key : A -> Q) (best : A) (l : list A) : A :=
  match l with
  | [] => best
  | x :: l' => py_min_by key (if Qltb (key x) (key best) then x else best) l'
  end.

(** ** The program *)

Section Simulation.

(** The raw draws of the random module, one per call. *)
Variable rnd : nat -> Q.

(** [random.random()] *)
Definition random (k : nat) : Q := rnd k.

(** [random.uniform(a, b)], which is [a + (b - a) * random()] *)
Definition uniform (a b : Q) (k : nat) : Q := a + (b - a) * rnd k.

(** [random.randint(a, b)]: an integer of [a .. b], both ends included. *)
Definition randint (a b : Z) (k : nat) : Z :=
  (a + Qfloor (rnd k * inject_Z (b - a + 1)))%Z.

(** [random.choice(['male', 'female'])] *)
Definition choice (k : nat) : Gender :=
  if Qltb (rnd k) (1 # 2) then male else female.

(** *** class Creature *)

(** [Creature.__init__]; a gender left out is drawn at random. *)
Definition Creature_init (energy : Q) (position : Position)
    (gender : option Gender) (generation : Z) (w : Ecosystem)
  : Creature * Ecosystem :=
  match gender with
  | Some g => (mkCreature energy position g generation 0 1 0, w)
  | None =>
      (mkCreature energy position (choice (cursor w)) generation 0 1 0,
       set_cursor (S (cursor w)) w)
  end.

Definition adjust_speed_based_on_hunger (c : Creature) : Creature :=
  set_speed (py_min 5 (1 + inject_Z (hunger c) / 100)) c.

Definition die (i : nat) (w : Ecosystem) : result Ecosystem :=
  match list_remove i (creatures w) with
  | Some l => Ok (set_creatures l w)
  | None => Raise ValueError
  end.

Definition update (i : nat) (w : Ecosystem) : result Ecosystem :=
  c <- deref w i ;;
  let c := set_hunger (hunger c + 1) c in
  let c := adjust_speed_based_on_hunger c in
  let c :=
    if (0 <? reproduction_cooldown c)%Z
    then set_reproduction_cooldown (reproduction_cooldown c - 1) c
    else c in
  let c := set_energy (energy c - (1 # 2)) c in
  let w := store i c w in
  if Qle_bool (energy c) ENERGY_THRESHOLD_FOR_DEATH then die i w else Ok w.

Definition distance_to (c : Creature) (p : Position) : Q :=
  pow_half ((fst (position c) - fst p) ^ 2 + (snd (position c) - snd p) ^ 2).

(** [moveRandomly], reading the draws [k] and [k + 1]. *)
Definition moveRandomly (c : Creature) (k : nat) : Creature :=
  set_position
    (py_max 0 (py_min SCREEN_WIDTH
                 (fst (position c) + inject_Z (randint (-10) 10 k))),
     py_max 0 (py_min SCREEN_HEIGHT
                 (snd (position c) + inject_Z (randint (-10) 10 (S k)))))
    c.

Definition moveTowards (c : Creature) (target_position : Position)
  : Creature :=
  let dx := fst target_position - fst (position c) in
  let dy := snd target_position - snd (position c) in
  let distance := py_max 1 (distance_to c target_position) in
  let step_x := dx / distance * speed c in
  let step_y := dy / distance * speed c in
  set_position
    (py_max 0 (py_min SCREEN_WIDTH (fst (position c) + step_x)),
     py_max 0 (py_min SCREEN_HEIGHT (snd (position c) + step_y)))
    c.

Definition eat_food (c : Creature) (food : Food.t) : Creature :=
  let c := set_energy (energy c + inject_Z (Food.energyContent food)) c in
  set_hunger (Z.max 0 (hunger c - 50)) c.

(** One round of the loop of [reproduce]: a newborn of [self] (object [i])
    and [other_creature] (object [j]), appended to the live collection.
    The draws are read in the order of the calls: the energy factor, the
    speed mutation factor, the mutation coin, and the gender inside
    [Creature.__init__]. *)
Definition mutation_chance : Q := 1 # 2.

Definition offspring (i j : nat) (w : Ecosystem) : result Ecosystem :=
  a <- deref w i ;;
  b <- deref w j ;;
  let new_position :=
    (py_floordiv (fst (position a) + fst (position b)) 2,
     py_floordiv (snd (position a) + snd (position b)) 2) in
  let new_energy :=
    Z.max 10 (py_int ((energy a + energy b) / 4
                      * uniform (9 # 10) (11 # 10) (cursor w))) in
  let base_speed := (speed a + speed b) / 2 in
  let speed_mutation_factor :=
    uniform (8 # 10) (12 # 10) (cursor w + 1) in
  let new_speed :=
    if Qltb (random (cursor w + 2)) mutation_chance
    then base_speed * speed_mutation_factor
    else base_speed in
  let w := set_cursor (cursor w + 3) w in
  let (new_creature, w) :=
    Creature_init (inject_Z new_energy) new_position None
      (generation a + 1) w in
  let new_creature := set_speed new_speed new_creature in
  let (id, w) := alloc new_creature w in
  Ok (set_creatures (creatures w ++ [id]) w).

(** [for _ in range(n)] *)
Fixpoint offspring_loop (n : nat) (i j : nat) (w : Ecosystem)
  : result Ecosystem :=
  match n with
  | O => Ok w
  | S n' => w <- offspring i j w ;; offspring_loop n' i j w
  end.

Definition reproduce (i j : nat) (w : Ecosystem) : result Ecosystem :=
  a <- deref w i ;;
  b <- deref w j ;;
  if Gender_eqb (gender a) (gender b)
     || (0 <? reproduction_cooldown a)%Z
     || (0 <? reproduction_cooldown b)%Z
  then Ok w
  else
    let w := store i (set_reproduction_cooldown REPRODUCTION_COOLDOWN a) w in
    b <- deref w j ;;
    let w := store j (set_reproduction_cooldown REPRODUCTION_COOLDOWN b) w in
    let offspring_count := randint 1 3 (cursor w) in
    let w := set_cursor (S (cursor w)) w in
    offspring_loop (Z.to_nat offspring_count) i j w.

(** The objects of a list of identities, each paired with its identity. *)
Fixpoint deref_all (w : Ecosystem) (l : list nat)
  : result (list (nat * Creature)) :=
  match l with
  | [] => Ok []
  | j :: l' =>
      c <- deref w j ;;
      r <- deref_all w l' ;;
      Ok ((j, c) :: r)
  end.

Definition eligible_partner (self : Creature) (jc : nat * Creature) : bool :=
  negb (Gender_eqb (gender (snd jc)) (gender self))
  && (reproduction_cooldown (snd jc) <=? 0)%Z.

(** The tail of [seekFood]: go for the nearest food (the list
    [f0 :: fs] is not empty), and eat it when it is reached. *)
Definition forage (i : nat) (c : Creature) (f0 : Food.t) (fs : list Food.t)
    (w : Ecosystem) : Ecosystem :=
  let key := fun kf : nat * Food.t => distance_to c (Food.position (snd kf)) in
  let (k, food_target) :=
    py_min_by key (O, f0) (zip (seq 1 (length fs)) fs) in
  let c := moveTowards c (Food.position food_target) in
  let w := store i c w in
  if Food.isOverlapping food_target (position c) then
    let w := store i (eat_food c food_target) w in
    set_foods (delete k (foods w)) w
  else w.

Definition seekFood (i : nat) (w : Ecosystem) : result Ecosystem :=
  c <- deref w i ;;
  match foods w with
  | [] =>
      Ok (set_cursor (cursor w + 2) (store i (moveRandomly c (cursor w)) w))
  | f0 :: fs =>
      if (50 <=? hunger c)%Z && (reproduction_cooldown c <=? 0)%Z then
        all <- deref_all w (creatures w) ;;
        match List.filter (eligible_partner c) all with
        | [] => Ok (forage i c f0 fs w)
        | p0 :: ps =>
            let partner :=
              py_min_by (fun jc => distance_to c (position (snd jc))) p0 ps in
            if Qle_bool (distance_to c (position (snd partner)))
                 REPRODUCTION_DISTANCE_THRESHOLD
            then reproduce i (fst partner) w
            else Ok (forage i c f0 fs w)
        end
      else Ok (forage i c f0 fs w)
  end.

(** *** class Ecosystem *)

(** One round of the loop of [spawn_food]: the position is drawn first,
    then the energy content. *)
Definition spawn_one (w : Ecosystem) : Ecosystem :=
  let x := randint 0 (800 - 10) (cursor w) in
  let y := randint 0 (600 - 10) (cursor w + 1) in
  let e := randint 3 7 (cursor w + 2) in
  set_cursor (cursor w + 3)
    (set_foods (foods w ++ [Food.mk e (inject_Z x, inject_Z y)]) w).

(** [while len(self.foods) < max_food_count] *)
Fixpoint spawn_food_loop (fuel : nat) (w : Ecosystem) : Ecosystem :=
  match fuel with
  | O => w
  | S fuel' =>
      if (length (foods w) <? max_food_count)%nat
      then spawn_food_loop fuel' (spawn_one w)
      else w
  end.

Definition spawn_food (w : Ecosystem) : Ecosystem :=
  spawn_food_loop max_food_count w.

(** [for creature in self.creatures]: the list iterator keeps an index
    into the live list, which the body may lengthen (births) or shorten
    (deaths) while the loop runs. *)
Fixpoint manage_loop (fuel : nat) (idx : nat) (w : Ecosystem)
  : result Ecosystem :=
  match fuel with
  | O => Raise OutOfFuel
  | S fuel' =>
      match creatures w !! idx with
      | None => Ok w
      | Some i =>
          w <- update i w ;;
          w <- seekFood i w ;;
          manage_loop fuel' (S idx) w
      end
  end.

(** Every creature alive at the start is visited at most once and brings
    at most three newborns, none of which can give birth in its first
    tick. *)
Definition manage_fuel (w : Ecosystem) : nat :=
  (4 * length (creatures w) + 1)%nat.

Definition manage (w : Ecosystem) : result Ecosystem :=
  w <- manage_loop (manage_fuel w) 0 w ;;
  Ok (spawn_food w).

(** [Ecosystem.__init__]: ten founders with energy 100 at random places. *)
Definition founder (w : Ecosystem) : Ecosystem :=
  let x := randint 0 800 (cursor w) in
  let y := randint 0 600 (cursor w + 1) in
  let w := set_cursor (cursor w + 2) w in
  let (c, w) := Creature_init 100 (inject_Z x, inject_Z y) None 0 w in
  let (id, w) := alloc c w in
  set_creatures (creatures w ++ [id]) w.

Definition Ecosystem_init : Ecosystem :=
  Nat.iter 10 founder (mkEcosystem [] [] [] 0).

End Simulation.

(** * The vocabulary of the properties *)

(** ** Tapes and the world *)

(** A tape of the random module: every raw draw lies in [0, 1). *)
Definition tape_ok (rnd : nat -> Q) : Prop := forall k, 0 <= rnd k < 1.

(** The world: [0, SCREEN_WIDTH] x [0, SCREEN_HEIGHT]. *)
Definition in_world (p : Position) : Prop :=
  0 <= fst p <= SCREEN_WIDTH /\ 0 <= snd p <= SCREEN_HEIGHT.

(** The [clamp(v, lo, hi)] of the specification. *)
Definition clamp (v lo hi : Q) : Q := Qmax lo (Qmin hi v).

(** ** What the methods build *)

(** What [update] leaves of a creature: hungrier by one, the speed
    recomputed, the cooldown one lower unless it is spent, half a unit of
    energy gone. *)
Definition ticked (c : Creature) : Creature :=
  mkCreature (energy c - (1 # 2)) (position c) (gender c) (generation c)
    (hunger c + 1)
    (py_min 5 (1 + inject_Z (hunger c + 1) / 100))
    (if (0 <? reproduction_cooldown c)%Z
     then reproduction_cooldown c - 1
     else reproduction_cooldown c).

(** The item that one round of the loop of [spawn_food] appends, reading
    the tape from [k]. *)
Definition spawned (rnd : nat -> Q) (k : nat) : Food.t :=
  Food.mk (randint rnd 3 7 (k + 2))
    (inject_Z (randint rnd 0 (800 - 10) k),
     inject_Z (randint rnd 0 (600 - 10) (k + 1))).

(** What [spawn_food] may append: integer energy content from 3 to 7, at an
    integer position that leaves room for the 10 x 10 footprint. *)
Definition fresh_food (f : Food.t) : Prop :=
  (3 <= Food.energyContent f <= 7)%Z
  /\ exists x y : Z,
       Food.position f = (inject_Z x, inject_Z y)
       /\ (0 <= x <= 800 - 10)%Z /\ (0 <= y <= 600 - 10)%Z.

(** The creature that one round of the loop of [reproduce] builds from the
    parents [a] (self) and [b], reading the tape from [k]. *)
Definition newborn (rnd : nat -> Q) (a b : Creature) (k : nat) : Creature :=
  mkCreature
    (inject_Z (Z.max 10 (py_int ((energy a + energy b) / 4
                                 * uniform rnd (9 # 10) (11 # 10) k))))
    (py_floordiv (fst (position a) + fst (position b)) 2,
     py_floordiv (snd (position a) + snd (position b)) 2)
    (choice rnd (k + 3))
    (generation a + 1)
    0
    (if Qltb (random rnd (k + 2)) mutation_chance
     then (speed a + speed b) / 2 * uniform rnd (8 # 10) (12 # 10) (k + 1)
     else (speed a + speed b) / 2)
    0.

(** The creatures that [n] rounds of that loop build, in order. *)
Fixpoint litter (rnd : nat -> Q) (a b : Creature) (k n : nat) : list Creature :=
  match n with
  | O => []
  | S n' => newborn rnd a b k :: litter rnd a b (S (k + 3)) n'
  end.

(** The midpoint as the code takes it: [//] rounds each coordinate down to
    an integer.  [floor_of x m]: [m] is the greatest integer not above [x]. *)
Definition floor_of (x m : Q) : Prop :=
  exists z : Z, m = inject_Z z /\ inject_Z z <= x /\ x < inject_Z z + 1.

(** ** The states of a run *)

(** What holds of every creature of a run: the cooldown and the hunger are
    not negative, and the creature is inside the world. *)
Definition creature_ok (c : Creature) : Prop :=
  (0 <= reproduction_cooldown c)%Z /\ (0 <= hunger c)%Z
  /\ in_world (position c).

(** What holds of every state of a run: the creatures are as above, the
    live collection holds identities of the store, none of them twice, and
    the food does not exceed the cap. *)
Definition wf (w : Ecosystem) : Prop :=
  Forall creature_ok (heap w)
  /\ Forall (fun i => (i < length (heap w))%nat) (creatures w)
  /\ NoDup (creatures w)
  /\ (length (foods w) <= max_food_count)%nat.

(** The states of a run: the initial ecosystem, and what [manage] makes of
    a state of the run. *)
Inductive reachable (rnd : nat -> Q) : Ecosystem -> Prop :=
| reachable_init : reachable rnd (Ecosystem_init rnd)
| reachable_tick w w' :
    reachable rnd w -> manage rnd w = Ok w' -> reachable rnd w'.

(** A creature hungry enough to pass the hunger test of the partner scan
    once [update] has run on it. *)
Definition hungry (w : Ecosystem) (j : nat) : bool :=
  match heap w !! j with
  | Some c => (49 <=? hunger c)%Z
  | None => false
  end.

(** How much of the loop of [manage] is left at most: one round for every
    creature still to be visited, and three more for each of them that may
    give birth in its round. *)
Definition load (w : Ecosystem) (l : list nat) : nat :=
  (length l + 3 * length (List.filter (hungry w) l))%nat.

(** ** Mating, visits and runs *)

(** Who [seekFood] would mate with: a creature of the live collection, of
    the other gender, with no cooldown running. *)
Definition candidate (w : Ecosystem) (c : Creature) (j : nat) (cj : Creature)
  : Prop :=
  j ∈ creatures w /\ heap w !! j = Some cj
  /\ gender cj <> gender c /\ (reproduction_cooldown cj <= 0)%Z.

(** [n] calls of [update] on the same creature, one after the other. *)
Fixpoint updates (n : nat) (i : nat) (w : Ecosystem) : result Ecosystem :=
  match n with
  | O => Ok w
  | S n' => w <- update i w ;; updates n' i w
  end.

(** What holds of every creature of a run besides [creature_ok]: the
    cooldown is at most 275, and a speed outside [1, 5] goes with hunger
    0 (a newborn that has not been through [update] yet). *)
Definition creature_fit (c : Creature) : Prop :=
  (reproduction_cooldown c <= REPRODUCTION_COOLDOWN)%Z
  /\ (hunger c = 0%Z \/ 1 <= speed c <= 5).

(** A creature whose energy is above the death threshold. *)
Definition live (w : Ecosystem) (i : nat) : Prop :=
  exists c, heap w !! i = Some c /\ ENERGY_THRESHOLD_FOR_DEATH < energy c.

(** What holds of every state of a run besides [wf]: the creatures are
    fit, those of the live collection are alive, and the food is as
    [spawn_food] makes it. *)
Definition thriving (w : Ecosystem) : Prop :=
  Forall creature_fit (heap w)
  /\ Forall (live w) (creatures w)
  /\ Forall fresh_food (foods w).

(** [c'] is [c] but for the cooldown. *)
Definition same_but_cooldown (c c' : Creature) : Prop :=
  set_reproduction_cooldown (reproduction_cooldown c) c' = c.

(** What [seekFood] makes of the creature it is called on: it keeps its
    gender, generation and speed, and either its energy and hunger too, or
    it has eaten an item of [fs]. *)
Definition dined (fs : list Food.t) (c c' : Creature) : Prop :=
  gender c' = gender c /\ generation c' = generation c /\ speed c' = speed c
  /\ ((energy c' = energy c /\ hunger c' = hunger c)
      \/ exists ft, ft ∈ fs
           /\ energy c' = energy c + inject_Z (Food.energyContent ft)
           /\ hunger c' = Z.max 0 (hunger c - 50)).

(** What one visit of the loop of [manage] makes of a creature: one
    [update], and then at most one meal out of [fs]. *)
Definition visited (fs : list Food.t) (c c' : Creature) : Prop :=
  gender c' = gender c /\ generation c' = generation c
  /\ speed c' = py_min 5 (1 + inject_Z (hunger c + 1) / 100)
  /\ ((energy c' = energy c - (1 # 2) /\ hunger c' = (hunger c + 1)%Z)
      \/ exists ft, ft ∈ fs
           /\ energy c' = energy c - (1 # 2) + inject_Z (Food.energyContent ft)
           /\ hunger c' = Z.max 0 (hunger c + 1 - 50)).

(** [n] frames of the main loop, without the drawing. *)
Fixpoint frames (rnd : nat -> Q) (n : nat) (w : Ecosystem)
  : result Ecosystem :=
  match n with
  | O => Ok w
  | S n' => w <- manage rnd w ;; frames rnd n' w
  end.

(** A creature as [Ecosystem.__init__] makes it. *)
Definition founding (c : Creature) : Prop :=
  energy c = 100 /\ generation c = 0%Z /\ hunger c = 0%Z /\ speed c = 1
  /\ reproduction_cooldown c = 0%Z
  /\ exists x y : Z,
       position c = (inject_Z x, inject_Z y)
       /\ (0 <= x <= 800)%Z /\ (0 <= y <= 600)%Z.

(** ** Who has been through [update] *)

(** The creatures on which the loop of [manage] calls [update], in the
    order of the calls: the log of the loop [manage_loop]. *)
Fixpoint visits (rnd : nat -> Q) (fuel : nat) (idx : nat) (w : Ecosystem)
  : list nat :=
  match fuel with
  | O => []
  | S fuel' =>
      match creatures w !! idx with
      | None => []
      | Some i =>
          i :: match (w <- update i w ;; seekFood rnd i w) with
               | Ok w => visits rnd fuel' (S idx) w
               | Raise _ => []
               end
      end
  end.

(** [x] is not in the log. *)
Definition unvisited (log : list nat) (x : nat) : bool :=
  negb (existsb (Nat.eqb x) log).

(** The objects that a step from [w] to [w'] has created. *)
Definition newcomers (w w' : Ecosystem) : list nat :=
  seq (length (heap w)) (length (heap w') - length (heap w)).

(** The states of a run, each with the creatures that [reproduce] has made
    and on which no [update] has run since: none at the start (the
    founders come from the constructor alone); after a call of [manage],
    those of before and the newcomers of the call, without those that the
    call has visited. *)
Inductive tracked (rnd : nat -> Q) : Ecosystem -> list nat -> Prop :=
| tracked_init : tracked rnd (Ecosystem_init rnd) []
| tracked_tick w young w' :
    tracked rnd w young -> manage rnd w = Ok w' ->
    tracked rnd w'
      (List.filter (unvisited (visits rnd (manage_fuel w) 0 w))
         (young ++ newcomers w w')).

(** ** Examples *)

(** A tape whose draws are all one half. *)
Definition tape_half : nat -> Q := fun _ => 1 # 2.

(** One founder in the middle of the world, no food. *)
Definition lone_creature : Ecosystem :=
  mkEcosystem [mkCreature 100 (400, 300) male 0 0 1 0] [0%nat] [] 0.

(** Two creatures of opposite gender, hunger 60, cooldown 0, five units
    apart. *)
Definition adam : Creature := mkCreature 100 (100, 100) male 0 60 1 0.
Definition eve : Creature := mkCreature 100 (105, 100) female 0 60 1 0.

Definition pair_without_food : Ecosystem :=
  mkEcosystem [adam; eve] [0%nat; 1%nat] [] 0.

Definition pair_with_food : Ecosystem :=
  mkEcosystem [adam; eve] [0%nat; 1%nat] [Food.mk 5 (300, 100)] 0.

(** A creature with hunger 0 and energy 100, and one food item 200 units
    due east of it. *)
Definition forager : Creature := mkCreature 100 (100, 100) male 0 0 1 0.

Definition food_due_east : Ecosystem :=
  mkEcosystem [forager] [0%nat] [Food.mk 5 (300, 100)] 0.

(** A creature half a unit of energy above the death threshold, standing on
    a food item; and the same creature already out of the collection. *)
Definition starving : Creature := mkCreature (-599 # 2) (100, 100) male 0 0 1 0.

Definition last_meal : Ecosystem :=
  mkEcosystem [starving] [0%nat] [Food.mk 5 (100, 100)] 0.

Definition graveyard : Ecosystem := mkEcosystem [starving] [] [] 0.

(** A creature about to starve at the head of the live collection, and a
    healthy one behind it. *)
Definition deathbed : Ecosystem :=
  mkEcosystem [starving; eve] [0%nat; 1%nat] [] 0.

(** * Properties *)

(** ** Comparisons, [min] and [max] *)

Lemma Qltb_spec (x y : Q) : Qltb x y = true <-> x < y.
Proof.
  unfold Qltb. destruct (Qle_bool y x) eqn:E; simpl.
  - apply Qle_bool_iff in E. split; [discriminate | intros H; lra].
  - split; [intros _ | reflexivity].
    destruct (Qlt_le_dec x y) as [H | H]; [exact H |].
    apply Qle_bool_iff in H. congruence.
Qed.

Lemma Qltb_false (x y : Q) : Qltb x y = false <-> y <= x.
Proof.
  unfold Qltb. destruct (Qle_bool y x) eqn:E; simpl.
  - apply Qle_bool_iff in E. tauto.
  - split; [discriminate |].
    intros H. apply Qle_bool_iff in H. congruence.
Qed.

(** Case analysis on every comparison [Qltb] in sight, each replaced by the
    order fact it decides. *)
Ltac Qltb_cases :=
  repeat match goal with
  | |- context [Qltb ?x ?y] =>
      let E := fresh "E" in
      destruct (Qltb x y) eqn:E;
      [apply Qltb_spec in E | apply Qltb_false in E]
  end.

Lemma py_min_glb (a b : Q) :
  py_min a b <= a /\ py_min a b <= b /\ (py_min a b = a \/ py_min a b = b).
Proof. unfold py_min. Qltb_cases; repeat split; auto; lra. Qed.

Lemma py_max_lub (a b : Q) :
  a <= py_max a b /\ b <= py_max a b /\ (py_max a b = a \/ py_max a b = b).
Proof. unfold py_max. Qltb_cases; repeat split; auto; lra. Qed.

(** [max(0, min(hi, v))] lands in [0 .. hi], and is no further from a point
    of that range than [v] was. *)
Lemma clamp_range (hi v : Q) :
  0 <= hi -> 0 <= py_max 0 (py_min hi v) <= hi.
Proof.
  intros H.
  destruct (py_min_glb hi v) as (H1 & H2 & _).
  destruct (py_max_lub 0 (py_min hi v)) as (H3 & H4 & [E | E]);
    rewrite E in *; lra.
Qed.

Lemma clamp_near (hi v x d : Q) :
  0 <= x <= hi -> - d <= v - x <= d ->
  - d <= py_max 0 (py_min hi v) - x <= d.
Proof.
  intros Hx Hv.
  destruct (py_max_lub 0 (py_min hi v)) as (H3 & H4 & [E | E]);
    rewrite E in *; clear E;
    destruct (py_min_glb hi v) as (H1 & H2 & [E | E]);
    rewrite E in *; lra.
Qed.

(** ** The random tape *)

Lemma Qfloor_lower (x : Q) (z : Z) : inject_Z z <= x -> (z <= Qfloor x)%Z.
Proof. intros H. rewrite <- (Qfloor_Z z). now apply Qfloor_resp_le. Qed.

Lemma Qfloor_upper (x : Q) (z : Z) : x < inject_Z z -> (Qfloor x < z)%Z.
Proof.
  intros H. rewrite Zlt_Qlt.
  apply Qle_lt_trans with x; [apply Qfloor_le | exact H].
Qed.

Lemma randint_range (rnd : nat -> Q) (a b : Z) (k : nat) :
  tape_ok rnd -> (a <= b)%Z -> (a <= randint rnd a b k <= b)%Z.
Proof.
  intros Hr Hab. unfold randint. destruct (Hr k) as [Hk0 Hk1].
  set (n := (b - a + 1)%Z).
  assert (Hn : 0 < inject_Z n).
  { change 0 with (inject_Z 0). rewrite <- Zlt_Qlt. unfold n. lia. }
  assert (H0 : (0 <= Qfloor (rnd k * inject_Z n))%Z).
  { apply Qfloor_lower. apply Qmult_le_0_compat; lra. }
  assert (H1 : (Qfloor (rnd k * inject_Z n) < n)%Z).
  { apply Qfloor_upper.
    apply Qlt_le_trans with (1 * inject_Z n);
      [now apply Qmult_lt_compat_r | lra]. }
  unfold n in *. lia.
Qed.


(** ** Movement *)

Lemma in_world_clamped (u v : Q) :
  in_world (py_max 0 (py_min SCREEN_WIDTH u), py_max 0 (py_min SCREEN_HEIGHT v)).
Proof.
  split; cbn [fst snd]; apply clamp_range; unfold SCREEN_WIDTH, SCREEN_HEIGHT; lra.
Qed.

Lemma moveRandomly_step (rnd : nat -> Q) (c : Creature) (k : nat) :
  tape_ok rnd -> in_world (position c) ->
  Qabs (fst (position (moveRandomly rnd c k)) - fst (position c)) <= 10
  /\ Qabs (snd (position (moveRandomly rnd c k)) - snd (position c)) <= 10.
Proof.
  intros Hr [Hx Hy]. unfold moveRandomly, set_position. cbn [position fst snd].
  assert (Hd : forall n, -10 <= inject_Z (randint rnd (-10) 10 n) <= 10).
  { intros n. pose proof (randint_range rnd (-10) 10 n Hr ltac:(lia)) as [H1 H2].
    rewrite Zle_Qle in H1, H2. split; [exact H1 | exact H2]. }
  split; apply Qabs_Qle_condition; apply clamp_near; auto;
    [specialize (Hd k) | specialize (Hd (S k))]; lra.
Qed.

(** C6: after [moveRandomly] and after [moveTowards], whatever the target,
    the speed and the draws, the position lies in [0, 800] x [0, 600]; and
    [moveRandomly] takes a creature that is in the world at most 10 units
    along each axis. *)
Theorem moves_stay_in_world
    (rnd : nat -> Q) (c : Creature) (k : nat) (target : Position) :
  in_world (position (moveRandomly rnd c k))
  /\ in_world (position (moveTowards c target))
  /\ (tape_ok rnd -> in_world (position c) ->
      Qabs (fst (position (moveRandomly rnd c k)) - fst (position c)) <= 10
      /\ Qabs (snd (position (moveRandomly rnd c k)) - snd (position c)) <= 10).
Proof.
  split; [apply in_world_clamped |].
  split; [apply in_world_clamped |].
  apply moveRandomly_step.
Qed.

(** ** Death and the live collection *)

Lemma list_remove_elem (x : nat) (l : list nat) :
  x ∈ l -> exists r, list_remove x l = Some r.
Proof.
  induction l as [| y l IH]; intros H.
  - inversion H.
  - simpl. destruct (Nat.eqb x y) eqn:E; [eauto |].
    apply Nat.eqb_neq in E. apply elem_of_cons in H as [H | H]; [congruence |].
    destruct (IH H) as [r ->]. eauto.
Qed.

Lemma list_remove_absent (x : nat) (l r : list nat) :
  list_remove x l = Some r -> NoDup l -> x ∉ r.
Proof.
  revert r. induction l as [| y l IH]; intros r H Hnd; [discriminate |].
  simpl in H. apply NoDup_cons in Hnd as [Hy Hnd].
  destruct (Nat.eqb x y) eqn:E.
  - apply Nat.eqb_eq in E. subst y. now inversion H; subst.
  - apply Nat.eqb_neq in E.
    destruct (list_remove x l) as [r' |]; [| discriminate].
    inversion H; subst. intros [? | ?]%elem_of_cons; [congruence |].
    now apply (IH r').
Qed.

(** ** Speed *)

Lemma adjust_speed_clamp (c : Creature) :
  (0 <= hunger c)%Z ->
  speed (adjust_speed_based_on_hunger c)
  == clamp (1 + inject_Z (hunger c) / 100) 1 5
  /\ 1 <= speed (adjust_speed_based_on_hunger c) <= 5.
Proof.
  intros Hh. unfold adjust_speed_based_on_hunger, clamp, set_speed.
  cbn [speed].
  set (v := 1 + inject_Z (hunger c) / 100).
  assert (Hv : 1 <= v).
  { unfold v. rewrite Zle_Qle in Hh. change (inject_Z 0) with 0 in Hh.
    assert (0 <= inject_Z (hunger c) / 100) by (apply Qle_shift_div_l; lra).
    lra. }
  destruct (py_min_glb 5 v) as (H1 & H2 & [E | E]); rewrite E in *.
  - assert (Qmin 5 v == 5) as -> by (apply Q.min_l; lra).
    rewrite Q.max_r; lra.
  - split; [| lra].
    destruct (Q.min_spec 5 v) as [[? ->] | [? ->]];
      (rewrite Q.max_r; lra).
Qed.

Lemma update_run (i : nat) (w : Ecosystem) (c : Creature) :
  heap w !! i = Some c ->
  update i w =
    if Qle_bool (energy c - (1 # 2)) ENERGY_THRESHOLD_FOR_DEATH
    then die i (store i (ticked c) w)
    else Ok (store i (ticked c) w).
Proof.
  intros H. unfold update, deref. rewrite H. cbn [bind].
  unfold ticked, adjust_speed_based_on_hunger.
  destruct (0 <? reproduction_cooldown c)%Z eqn:E; cbn; rewrite E; reflexivity.
Qed.

Lemma store_lookup (i : nat) (c d : Creature) (w : Ecosystem) :
  heap w !! i = Some c -> heap (store i d w) !! i = Some d.
Proof.
  intros H. unfold store. cbn [heap set_heap].
  apply list_lookup_insert_eq. now apply lookup_lt_Some in H.
Qed.

Lemma store_lookup_ne (i j : nat) (d : Creature) (w : Ecosystem) :
  i <> j -> heap (store i d w) !! j = heap w !! j.
Proof. intros H. unfold store. cbn [heap set_heap]. now apply list_lookup_insert_ne. Qed.

Lemma die_heap (i : nat) (w w' : Ecosystem) :
  die i w = Ok w' ->
  heap w' = heap w /\ foods w' = foods w /\ cursor w' = cursor w
  /\ list_remove i (creatures w) = Some (creatures w').
Proof.
  unfold die. destruct (list_remove i (creatures w)) as [l |]; [| discriminate].
  intros [= <-]. auto.
Qed.

Lemma die_total (i : nat) (w : Ecosystem) :
  i ∈ creatures w -> exists w', die i w = Ok w'.
Proof.
  intros H. unfold die. destruct (list_remove_elem i _ H) as [r ->]. eauto.
Qed.

(** ** Food supply *)

Lemma spawned_fresh (rnd : nat -> Q) (k : nat) :
  tape_ok rnd -> fresh_food (spawned rnd k).
Proof.
  intros Hr. split; cbn [spawned Food.energyContent Food.position].
  - apply randint_range; [exact Hr | lia].
  - do 2 eexists. split; [reflexivity |].
    split; apply randint_range; auto; lia.
Qed.

Lemma spawn_food_loop_spec (rnd : nat -> Q) (P : Food.t -> Prop)
    (fuel : nat) (w : Ecosystem) :
  (forall k, P (spawned rnd k)) ->
  (max_food_count - length (foods w) <= fuel)%nat ->
  exists new,
    Forall P new
    /\ length new = (max_food_count - length (foods w))%nat
    /\ spawn_food_loop rnd fuel w =
       mkEcosystem (heap w) (creatures w) (foods w ++ new)
         (cursor w + 3 * length new).
Proof.
  intros HP. revert w. induction fuel as [| fuel IH]; intros w Hf.
  - exists []. cbn [spawn_food_loop length]. repeat split; [constructor | lia |].
    rewrite app_nil_r, Nat.add_0_r. now destruct w.
  - cbn [spawn_food_loop].
    destruct (length (foods w) <? max_food_count)%nat eqn:E.
    + apply Nat.ltb_lt in E.
      change (spawn_one rnd w)
        with (mkEcosystem (heap w) (creatures w)
                (foods w ++ [spawned rnd (cursor w)]) (cursor w + 3)).
      edestruct IH as (new & Hnew & Hlen & ->).
      { cbn [foods]. rewrite length_app. cbn [length]. lia. }
      cbn [heap creatures foods cursor] in *. rewrite length_app in Hlen.
      cbn [length] in Hlen.
      exists (spawned rnd (cursor w) :: new). repeat split.
      * constructor; [apply HP | exact Hnew].
      * cbn [length]. lia.
      * rewrite <- app_assoc. cbn [app length]. f_equal. lia.
    + apply Nat.ltb_ge in E. exists [].
      repeat split; [constructor | cbn [length]; lia |].
      rewrite app_nil_r. cbn [length]. rewrite Nat.add_0_r. now destruct w.
Qed.

(** X5: the loop of [spawn_food] ends because its test fails, not because
    the model stopped it: afterwards the collection has 50 items, or as
    many as it had if those were more, whatever the draws. *)
Theorem spawn_food_length (rnd : nat -> Q) (w : Ecosystem) :
  length (foods (spawn_food rnd w))
  = Nat.max max_food_count (length (foods w)).
Proof.
  unfold spawn_food.
  assert (G : forall fuel w,
    (max_food_count - length (foods w) <= fuel)%nat ->
    length (foods (spawn_food_loop rnd fuel w))
    = Nat.max max_food_count (length (foods w))).
  { clear w. induction fuel as [| fuel IH]; intros w Hf; cbn [spawn_food_loop].
    - lia.
    - destruct (length (foods w) <? max_food_count)%nat eqn:E.
      + apply Nat.ltb_lt in E. rewrite IH.
        * cbn [spawn_one foods set_cursor set_foods]. rewrite length_app.
          cbn [length]. lia.
        * cbn [spawn_one foods set_cursor set_foods]. rewrite length_app.
          cbn [length]. lia.
      + apply Nat.ltb_ge in E. lia. }
  apply G. lia.
Qed.

(** C5: called on a collection of at most 50 items, [spawn_food] leaves
    exactly 50; the items it had are kept in place, and each one appended
    has an integer energy content from 3 to 7 and an integer position in
    [0, 790] x [0, 590].  Creatures are not touched. *)
Theorem spawn_food_tops_up (rnd : nat -> Q) (w : Ecosystem) :
  tape_ok rnd ->
  (length (foods w) <= 50)%nat ->
  exists new,
    foods (spawn_food rnd w) = foods w ++ new
    /\ length (foods (spawn_food rnd w)) = 50%nat
    /\ length new = (50 - length (foods w))%nat
    /\ Forall fresh_food new
    /\ heap (spawn_food rnd w) = heap w
    /\ creatures (spawn_food rnd w) = creatures w.
Proof.
  intros Hr Hlen. unfold spawn_food.
  destruct (spawn_food_loop_spec rnd fresh_food max_food_count w)
    as (new & Hn & Hl & ->).
  { intros k. now apply spawned_fresh. }
  { lia. }
  exists new. cbn [heap creatures foods]. rewrite length_app.
  unfold max_food_count in *. repeat split; auto; lia.
Qed.

Lemma spawn_food_tops_up_witness :
  exists new,
    foods (spawn_food tape_half lone_creature) = foods lone_creature ++ new
    /\ length (foods (spawn_food tape_half lone_creature)) = 50%nat
    /\ length new = (50 - length (foods lone_creature))%nat
    /\ Forall fresh_food new
    /\ heap (spawn_food tape_half lone_creature) = heap lone_creature
    /\ creatures (spawn_food tape_half lone_creature) = creatures lone_creature.
Proof.
  apply (spawn_food_tops_up tape_half lone_creature).
  - intros k. unfold tape_half. lra.
  - simpl. lia.
Defined.

(** ** Reproduction *)

Lemma litter_length (rnd : nat -> Q) (a b : Creature) (k n : nat) :
  length (litter rnd a b k n) = n.
Proof. revert k. induction n; intros k; cbn; auto. Qed.

Lemma litter_newborn (rnd : nat -> Q) (a b : Creature) (k n : nat) :
  Forall (fun c => exists k', c = newborn rnd a b k') (litter rnd a b k n).
Proof. revert k. induction n; intros k; cbn; constructor; eauto. Qed.

Lemma offspring_run (rnd : nat -> Q) (i j : nat) (w : Ecosystem) (a b : Creature) :
  heap w !! i = Some a -> heap w !! j = Some b ->
  offspring rnd i j w =
    Ok (mkEcosystem (heap w ++ [newborn rnd a b (cursor w)])
          (creatures w ++ [length (heap w)]) (foods w) (S (cursor w + 3))).
Proof.
  intros Ha Hb. unfold offspring, deref. rewrite Ha, Hb. reflexivity.
Qed.

Lemma offspring_loop_run (rnd : nat -> Q) (n i j : nat) (w : Ecosystem)
    (a b : Creature) :
  heap w !! i = Some a -> heap w !! j = Some b ->
  offspring_loop rnd n i j w =
    Ok (mkEcosystem (heap w ++ litter rnd a b (cursor w) n)
          (creatures w ++ seq (length (heap w)) n) (foods w)
          (cursor w + 4 * n)).
Proof.
  revert w. induction n as [| n IH]; intros w Ha Hb.
  - cbn. rewrite !app_nil_r, Nat.add_0_r. now destruct w.
  - cbn [offspring_loop]. rewrite (offspring_run rnd i j w a b Ha Hb).
    cbn [bind]. rewrite IH; cbn [heap creatures foods cursor].
    + rewrite <- !app_assoc, length_app. cbn [app length litter seq].
      do 2 f_equal; [do 3 f_equal; lia | lia].
    + now apply lookup_app_l_Some.
    + now apply lookup_app_l_Some.
Qed.

Lemma Gender_eqb_eq (g h : Gender) : Gender_eqb g h = true <-> g = h.
Proof. destruct g, h; cbn; split; congruence. Qed.

(** A call of [reproduce] that passes the guard. *)
Lemma reproduce_accepted (rnd : nat -> Q) (i j : nat) (w : Ecosystem)
    (a b : Creature) :
  heap w !! i = Some a -> heap w !! j = Some b ->
  gender a <> gender b ->
  (reproduction_cooldown a <= 0)%Z -> (reproduction_cooldown b <= 0)%Z ->
  let a' := set_reproduction_cooldown REPRODUCTION_COOLDOWN a in
  let b' := set_reproduction_cooldown REPRODUCTION_COOLDOWN b in
  exists w' kids,
    reproduce rnd i j w = Ok w'
    /\ i <> j
    /\ length kids = Z.to_nat (randint rnd 1 3 (cursor w))
    /\ heap w' = <[j := b']> (<[i := a']> (heap w)) ++ kids
    /\ creatures w' = creatures w ++ seq (length (heap w)) (length kids)
    /\ foods w' = foods w
    /\ Forall (fun c => exists k, c = newborn rnd a' b' k) kids.
Proof.
  intros Ha Hb Hg Hca Hcb a' b'.
  assert (Hij : i <> j) by (intros ->; congruence).
  assert (Hi : (i < length (heap w))%nat) by (eapply lookup_lt_Some; eauto).
  assert (Hj : (j < length (heap w))%nat) by (eapply lookup_lt_Some; eauto).
  unfold reproduce, deref. rewrite Ha, Hb. cbn [bind].
  destruct (Gender_eqb (gender a) (gender b)) eqn:E.
  { apply Gender_eqb_eq in E. contradiction. }
  replace (0 <? reproduction_cooldown a)%Z with false
    by (symmetry; apply Z.ltb_ge; lia).
  replace (0 <? reproduction_cooldown b)%Z with false
    by (symmetry; apply Z.ltb_ge; lia).
  cbn [orb]. rewrite store_lookup_ne, Hb by exact Hij. cbn [bind].
  set (n := Z.to_nat (randint rnd 1 3 (cursor w))).
  erewrite (offspring_loop_run rnd n i j _ a' b').
  - do 2 eexists. split; [reflexivity |].
    cbn [heap creatures foods cursor store set_heap set_cursor].
    split; [exact Hij |]. split; [apply litter_length |].
    split; [reflexivity |].
    split; [now rewrite 2!length_insert, litter_length |].
    split; [reflexivity | apply litter_newborn].
  - cbn [heap creatures foods cursor store set_heap set_cursor].
    rewrite list_lookup_insert_ne by auto.
    apply list_lookup_insert_eq. exact Hi.
  - cbn [heap creatures foods cursor store set_heap set_cursor].
    apply list_lookup_insert_eq. rewrite length_insert. exact Hj.
Qed.

(** The same call seen from outside: both parents carry the cooldown, and
    the live collection has grown by the identities [news] of objects that
    did not exist before, each of them a [newborn] of the two parents. *)
Lemma reproduce_offspring (rnd : nat -> Q) (i j : nat) (w : Ecosystem)
    (a b : Creature) (P : Creature -> Prop) :
  heap w !! i = Some a -> heap w !! j = Some b ->
  gender a <> gender b ->
  (reproduction_cooldown a <= 0)%Z -> (reproduction_cooldown b <= 0)%Z ->
  let a' := set_reproduction_cooldown REPRODUCTION_COOLDOWN a in
  let b' := set_reproduction_cooldown REPRODUCTION_COOLDOWN b in
  (forall k, P (newborn rnd a' b' k)) ->
  exists w' news,
    reproduce rnd i j w = Ok w'
    /\ heap w' !! i = Some a' /\ heap w' !! j = Some b'
    /\ creatures w' = creatures w ++ news
    /\ length news = Z.to_nat (randint rnd 1 3 (cursor w))
    /\ NoDup news
    /\ Forall (fun id => (length (heap w) <= id)%nat
                         /\ exists c, heap w' !! id = Some c /\ P c) news
    /\ foods w' = foods w.
Proof.
  intros Ha Hb Hg Hca Hcb a' b' HP.
  destruct (reproduce_accepted rnd i j w a b Ha Hb Hg Hca Hcb)
    as (w' & kids & Hrun & Hij & Hlen & Hheap & Hcr & Hfoods & Hkids).
  fold a' b' in Hheap, Hkids.
  assert (Hi : (i < length (heap w))%nat) by (eapply lookup_lt_Some; eauto).
  assert (Hj : (j < length (heap w))%nat) by (eapply lookup_lt_Some; eauto).
  exists w', (seq (length (heap w)) (length kids)).
  split; [exact Hrun |]. rewrite Hheap.
  split.
  { rewrite lookup_app_l by (rewrite 2!length_insert; exact Hi).
    rewrite list_lookup_insert_ne by auto.
    apply list_lookup_insert_eq. exact Hi. }
  split.
  { rewrite lookup_app_l by (rewrite 2!length_insert; exact Hj).
    apply list_lookup_insert_eq. rewrite length_insert. exact Hj. }
  split; [exact Hcr |]. split; [now rewrite length_seq |].
  split; [apply NoDup_seq |]. split; [| exact Hfoods].
  apply Forall_forall. intros id Hid. apply elem_of_seq in Hid.
  split; [lia |].
  destruct (lookup_lt_is_Some_2 kids (id - length (heap w))) as [c Hc]; [lia |].
  exists c. split.
  - rewrite lookup_app_r by (rewrite 2!length_insert; lia).
    rewrite 2!length_insert. exact Hc.
  - rewrite Forall_lookup in Hkids. destruct (Hkids _ _ Hc) as [k ->]. apply HP.
Qed.

(** C2: a call of [reproduce] between creatures of different gender whose
    cooldowns are 0 leaves both with cooldown 275 and appends one, two or
    three objects that did not exist before; each has generation one above
    that of the initiating parent and energy 10 or more. *)
Theorem reproduce_success (rnd : nat -> Q) (i j : nat) (w : Ecosystem)
    (a b : Creature) :
  tape_ok rnd ->
  heap w !! i = Some a -> heap w !! j = Some b ->
  gender a <> gender b ->
  reproduction_cooldown a = 0%Z -> reproduction_cooldown b = 0%Z ->
  exists w' news ca cb,
    reproduce rnd i j w = Ok w'
    /\ heap w' !! i = Some ca /\ reproduction_cooldown ca = 275%Z
    /\ heap w' !! j = Some cb /\ reproduction_cooldown cb = 275%Z
    /\ creatures w' = creatures w ++ news
    /\ (1 <= length news <= 3)%nat
    /\ NoDup news
    /\ Forall (fun id => (length (heap w) <= id)%nat
                 /\ exists c, heap w' !! id = Some c
                      /\ generation c = (generation a + 1)%Z
                      /\ 10 <= energy c) news.
Proof.
  intros Hr Ha Hb Hg Hca Hcb.
  destruct (reproduce_offspring rnd i j w a b
              (fun c => generation c = (generation a + 1)%Z /\ 10 <= energy c)
              Ha Hb Hg ltac:(lia) ltac:(lia))
    as (w' & news & Hrun & Hi & Hj & Hcr & Hlen & Hnd & Hnews & _).
  { intros k. cbn [newborn generation energy set_reproduction_cooldown]. split; [reflexivity |].
    change 10 with (inject_Z 10). rewrite <- Zle_Qle. lia. }
  exists w', news. do 2 eexists.
  split; [exact Hrun |]. split; [exact Hi |]. split; [reflexivity |].
  split; [exact Hj |]. split; [reflexivity |]. split; [exact Hcr |].
  split; [| split; [exact Hnd | exact Hnews]].
  rewrite Hlen. pose proof (randint_range rnd 1 3 (cursor w) Hr ltac:(lia)). lia.
Qed.

(** C3: between creatures of the same gender, or when either cooldown
    (which is never negative) is not 0, [reproduce] returns the state it was
    given: no cooldown set, nothing appended, no draw taken. *)
Theorem reproduce_refused (rnd : nat -> Q) (i j : nat) (w : Ecosystem)
    (a b : Creature) :
  heap w !! i = Some a -> heap w !! j = Some b ->
  (0 <= reproduction_cooldown a)%Z -> (0 <= reproduction_cooldown b)%Z ->
  gender a = gender b
  \/ reproduction_cooldown a <> 0%Z \/ reproduction_cooldown b <> 0%Z ->
  reproduce rnd i j w = Ok w.
Proof.
  intros Ha Hb Hna Hnb H. unfold reproduce, deref. rewrite Ha, Hb. cbn [bind].
  destruct H as [H | [H | H]].
  - apply Gender_eqb_eq in H. now rewrite H.
  - replace (0 <? reproduction_cooldown a)%Z with true
      by (symmetry; apply Z.ltb_lt; lia).
    now rewrite orb_true_r.
  - replace (0 <? reproduction_cooldown b)%Z with true
      by (symmetry; apply Z.ltb_lt; lia).
    now rewrite orb_true_r.
Qed.


Lemma py_floordiv_floor (a b : Q) : floor_of (a / b) (py_floordiv a b).
Proof.
  exists (Qfloor (a / b)). split; [reflexivity |].
  split; [apply Qfloor_le |].
  pose proof (Qlt_floor (a / b)) as H. rewrite inject_Z_plus in H. exact H.
Qed.

(** C8, as the code has it: each offspring is placed at the midpoint of the
    parents rounded down, coordinate by coordinate, to an integer: the
    greatest integers not above [(xA + xB) / 2] and [(yA + yB) / 2]. *)
Theorem offspring_position (rnd : nat -> Q) (i j : nat) (w : Ecosystem)
    (a b : Creature) :
  heap w !! i = Some a -> heap w !! j = Some b ->
  gender a <> gender b ->
  (reproduction_cooldown a <= 0)%Z -> (reproduction_cooldown b <= 0)%Z ->
  exists w' news,
    reproduce rnd i j w = Ok w'
    /\ creatures w' = creatures w ++ news
    /\ Forall (fun id => exists c, heap w' !! id = Some c
                 /\ floor_of ((fst (position a) + fst (position b)) / 2)
                      (fst (position c))
                 /\ floor_of ((snd (position a) + snd (position b)) / 2)
                      (snd (position c))) news.
Proof.
  intros Ha Hb Hg Hca Hcb.
  destruct (reproduce_offspring rnd i j w a b
              (fun c =>
                 floor_of ((fst (position a) + fst (position b)) / 2)
                   (fst (position c))
                 /\ floor_of ((snd (position a) + snd (position b)) / 2)
                      (snd (position c)))
              Ha Hb Hg Hca Hcb)
    as (w' & news & Hrun & _ & _ & Hcr & _ & _ & Hnews & _).
  { intros k. split; apply py_floordiv_floor. }
  exists w', news. split; [exact Hrun |]. split; [exact Hcr |].
  eapply Forall_impl; [exact Hnews |].
  intros id (_ & c & Hc & HP). eauto.
Qed.

(** *** The two example creatures *)

Lemma tape_half_ok : tape_ok tape_half.
Proof. intros k. unfold tape_half. lra. Qed.

Lemma reproduce_success_witness :
  exists w' news ca cb,
    reproduce tape_half 0 1 pair_with_food = Ok w'
    /\ heap w' !! 0%nat = Some ca /\ reproduction_cooldown ca = 275%Z
    /\ heap w' !! 1%nat = Some cb /\ reproduction_cooldown cb = 275%Z
    /\ creatures w' = creatures pair_with_food ++ news
    /\ (1 <= length news <= 3)%nat
    /\ NoDup news
    /\ Forall (fun id => (length (heap pair_with_food) <= id)%nat
                 /\ exists c, heap w' !! id = Some c
                      /\ generation c = (generation adam + 1)%Z
                      /\ 10 <= energy c) news.
Proof.
  apply (reproduce_success tape_half 0 1 pair_with_food adam eve).
  - exact tape_half_ok.
  - reflexivity.
  - reflexivity.
  - discriminate.
  - reflexivity.
  - reflexivity.
Defined.

Lemma reproduce_refused_witness :
  reproduce tape_half 0 1
    (mkEcosystem [adam; set_reproduction_cooldown 7 eve] [0%nat; 1%nat] [] 0)
  = Ok (mkEcosystem [adam; set_reproduction_cooldown 7 eve] [0%nat; 1%nat] [] 0).
Proof.
  apply (reproduce_refused tape_half 0 1 _ adam (set_reproduction_cooldown 7 eve)).
  - reflexivity.
  - reflexivity.
  - simpl. lia.
  - simpl. lia.
  - right. right. simpl. lia.
Defined.


Lemma offspring_position_witness :
  exists w' news,
    reproduce tape_half 0 1 pair_with_food = Ok w'
    /\ creatures w' = creatures pair_with_food ++ news
    /\ Forall (fun id => exists c, heap w' !! id = Some c
                 /\ floor_of ((fst (position adam) + fst (position eve)) / 2)
                      (fst (position c))
                 /\ floor_of ((snd (position adam) + snd (position eve)) / 2)
                      (snd (position c))) news.
Proof.
  apply (offspring_position tape_half 0 1 pair_with_food adam eve).
  - reflexivity.
  - reflexivity.
  - discriminate.
  - simpl. lia.
  - simpl. lia.
Defined.

(** C8 as stated fails: the parents at x = 100 and x = 105 have their
    midpoint at x = 102.5, and the offspring is placed at x = 102. *)
Lemma offspring_off_midpoint :
  exists w' c,
    reproduce tape_half 0 1 pair_with_food = Ok w'
    /\ creatures w' !! 2%nat = Some 2%nat
    /\ heap w' !! 2%nat = Some c
    /\ fst (position c) = 102
    /\ (fst (position adam) + fst (position eve)) / 2 == 205 # 2
    /\ Qeq_bool (fst (position c))
         ((fst (position adam) + fst (position eve)) / 2) = false.
Proof.
  do 2 eexists.
  split; [vm_compute; reflexivity |].
  split; [reflexivity |]. split; [reflexivity |].
  split; [reflexivity |]. split; reflexivity.
Qed.

(** ** Distances

    [pow_half] is the square root wherever the root is rational, whatever
    fraction represents the radicand. *)

Section IntegerRoots.
Local Open Scope Z_scope.

Lemma square_divide (b t : Z) : (0 < b)%Z -> (b * b | t * t)%Z -> (b | t)%Z.
Proof.
  intros Hb [m Hm].
  set (g := Z.gcd t b).
  assert (Hg : (0 < g)%Z).
  { pose proof (Z.gcd_nonneg t b). 
    destruct (Z.eq_dec g 0) as [E | E]; [| unfold g in *; lia].
    apply Z.gcd_eq_0_r in E. lia. }
  destruct (Z.gcd_divide_l t b) as [t' Ht], (Z.gcd_divide_r t b) as [b' Hb'].
  fold g in Ht, Hb'.
  assert (H1 : Z.gcd t' b' = 1%Z).
  { pose proof (Z.gcd_div_gcd t b g ltac:(lia) eq_refl) as H.
    rewrite Ht, Hb' in H at 1. rewrite !Z.div_mul in H by lia. exact H. }
  assert (Hb'pos : (0 < b')%Z) by nia.
  assert (H2 : (t' * t' = m * (b' * b'))%Z).
  { apply (Z.mul_cancel_r _ _ (g * g)); [nia |].
    rewrite Ht, Hb' in Hm. lia. }
  assert (H3 : (b' | t')%Z).
  { apply (Z.gauss b' t' t'); [exists (m * b')%Z; lia |].
    now rewrite Z.gcd_comm. }
  assert (H4 : (b' | 1)%Z).
  { rewrite <- H1. apply Z.gcd_greatest; [exact H3 | reflexivity]. }
  apply Z.divide_1_r_nonneg in H4; [| lia]. subst b'.
  exists t'. lia.
Qed.

Lemma sqrt_of_rational_square (m t b : Z) :
  (0 <= t)%Z -> (0 < b)%Z -> (m * (b * b) = t * t)%Z -> (Z.sqrt m * b = t)%Z.
Proof.
  intros Ht Hb H.
  destruct (square_divide b t Hb) as [u Hu]; [exists m; lia |].
  assert (Hu0 : (0 <= u)%Z) by nia.
  assert (Hm : m = (u * u)%Z).
  { apply (Z.mul_cancel_r _ _ (b * b)); [nia |]. rewrite H, Hu. ring. }
  rewrite Hm, Z.sqrt_square by exact Hu0. lia.
Qed.

End IntegerRoots.

Lemma pow_half_exact (q r : Q) : 0 <= r -> q == r * r -> pow_half q == r.
Proof.
  destruct q as [n d], r as [a b]. unfold Qle, Qeq, pow_half. cbn.
  intros Ha H.
  rewrite Pos2Z.inj_mul in *.
  set (S := Zpos sqrt_scale) in *.
  assert (HS : (0 < S)%Z) by reflexivity.
  replace (a * (Z.pos d * S))%Z with (a * Z.pos d * S)%Z by ring.
  apply sqrt_of_rational_square; [nia | lia |].
  replace (n * Z.pos d * (S * S) * (Z.pos b * Z.pos b))%Z
    with (n * (Z.pos b * Z.pos b) * Z.pos d * S * S)%Z by ring.
  rewrite H. ring.
Qed.

(** ** One tick *)

Lemma clamp_inside (hi v : Q) : 0 <= v <= hi -> py_max 0 (py_min hi v) == v.
Proof.
  intros H. pose proof (clamp_near hi v v 0 H ltac:(lra)). lra.
Qed.

Lemma Qsquare (q : Q) : q ^ 2 == q * q.
Proof. reflexivity. Qed.

Lemma py_max_right (a b : Q) : a < b -> py_max a b = b.
Proof. intros H. unfold py_max. apply Qltb_spec in H. now rewrite H. Qed.

(** [moveTowards] when the target lies [d > 1] due east and the step stays
    inside the world. *)
Lemma moveTowards_east (c : Creature) (t : Position) (d : Q) :
  1 < d -> fst t == fst (position c) + d -> snd t == snd (position c) ->
  0 <= speed c -> 0 <= fst (position c) -> fst (position c) + speed c <= SCREEN_WIDTH ->
  0 <= snd (position c) <= SCREEN_HEIGHT ->
  fst (position (moveTowards c t)) == fst (position c) + speed c
  /\ snd (position (moveTowards c t)) == snd (position c).
Proof.
  intros Hd Hx Hy Hs Hx0 Hx1 Hy0.
  assert (Hdist : distance_to c t == d).
  { unfold distance_to. apply pow_half_exact; [lra |].
    rewrite !Qsquare, Hx, Hy. ring. }
  unfold moveTowards, set_position. cbn [position fst snd].
  rewrite (py_max_right 1 (distance_to c t)) by lra.
  assert (E1 : (fst t - fst (position c)) / distance_to c t * speed c
               == speed c).
  { rewrite Hdist, Hx. field. lra. }
  assert (E2 : (snd t - snd (position c)) / distance_to c t * speed c == 0).
  { rewrite Hdist, Hy. field. lra. }
  split; (rewrite clamp_inside; [| unfold SCREEN_WIDTH, SCREEN_HEIGHT in *]);
    rewrite ?E1, ?E2; lra.
Qed.

Lemma manage_loop_step (rnd : nat -> Q) (fuel idx : nat) (w : Ecosystem) (i : nat) :
  creatures w !! idx = Some i ->
  manage_loop rnd (S fuel) idx w =
    (w1 <- update i w ;; w2 <- seekFood rnd i w1 ;; manage_loop rnd fuel (S idx) w2).
Proof. intros H. cbn [manage_loop]. now rewrite H. Qed.

Lemma manage_loop_done (rnd : nat -> Q) (fuel idx : nat) (w : Ecosystem) :
  creatures w !! idx = None -> manage_loop rnd (S fuel) idx w = Ok w.
Proof. intros H. cbn [manage_loop]. now rewrite H. Qed.

Lemma seekFood_forage (rnd : nat -> Q) (i : nat) (w : Ecosystem) (c : Creature)
    (f0 : Food.t) (fs : list Food.t) :
  heap w !! i = Some c -> foods w = f0 :: fs -> (hunger c < 50)%Z ->
  seekFood rnd i w = Ok (forage i c f0 fs w).
Proof.
  intros Hc Hf Hh. unfold seekFood, deref. rewrite Hc, Hf. cbn [bind].
  replace (50 <=? hunger c)%Z with false by (symmetry; apply Z.leb_gt; lia).
  reflexivity.
Qed.

Lemma seekFood_no_food (rnd : nat -> Q) (i : nat) (w : Ecosystem) (c : Creature) :
  heap w !! i = Some c -> foods w = [] ->
  seekFood rnd i w =
    Ok (set_cursor (cursor w + 2) (store i (moveRandomly rnd c (cursor w)) w)).
Proof.
  intros Hc Hf. unfold seekFood, deref. now rewrite Hc, Hf.
Qed.

Lemma update_survives (i : nat) (w : Ecosystem) (c : Creature) :
  heap w !! i = Some c -> ENERGY_THRESHOLD_FOR_DEATH < energy c - (1 # 2) ->
  update i w = Ok (store i (ticked c) w).
Proof.
  intros Hc He. rewrite (update_run i w c Hc).
  destruct (Qle_bool _ _) eqn:E; [| reflexivity].
  apply Qle_bool_iff in E. lra.
Qed.

Lemma not_overlapping_east (f : Food.t) (p : Position) :
  10 <= fst (Food.position f) - fst p -> Food.isOverlapping f p = false.
Proof.
  intros H. unfold Food.isOverlapping.
  replace (Qltb (Qabs (fst (Food.position f) - fst p)) 10) with false; [reflexivity |].
  symmetry. apply Qltb_false.
  apply Qle_trans with (fst (Food.position f) - fst p); [exact H | apply Qle_Qabs].
Qed.

(** C9, as the code has it: a lone creature with hunger 0 and energy 100
    and one food item 200 units due east of it, both inside the world.
    After one tick the creature has hunger 1, energy 99.5 and the speed
    1.01 that [update] derived from the new hunger; it has moved east by
    that speed, 1.01 units; the food item is still there. *)
Theorem lone_forager_tick (rnd : nat -> Q) (c : Creature) (f : Food.t) (k : nat) :
  hunger c = 0%Z -> energy c == 100 ->
  0 <= fst (position c) -> 0 <= snd (position c) <= SCREEN_HEIGHT ->
  fst (Food.position f) == fst (position c) + 200 ->
  snd (Food.position f) == snd (position c) ->
  fst (Food.position f) <= SCREEN_WIDTH ->
  exists w' c',
    manage rnd (mkEcosystem [c] [0%nat] [f] k) = Ok w'
    /\ heap w' = [c'] /\ creatures w' = [0%nat]
    /\ hunger c' = 1%Z /\ energy c' == 199 # 2
    /\ speed c' == 101 # 100
    /\ fst (position c') == fst (position c) + (101 # 100)
    /\ snd (position c') == snd (position c)
    /\ foods w' !! 0%nat = Some f /\ length (foods w') = 50%nat.
Proof.
  intros Hh He Hx0 Hy0 Hfx Hfy Hfw.
  set (w0 := mkEcosystem [c] [0%nat] [f] k).
  set (c1 := ticked c).
  set (c2 := moveTowards c1 (Food.position f)).
  assert (Hs1 : speed c1 = 101 # 100).
  { unfold c1, ticked. cbn [speed]. rewrite Hh. reflexivity. }
  assert (Hmove : fst (position c2) == fst (position c1) + speed c1
                  /\ snd (position c2) == snd (position c1)).
  { apply (moveTowards_east c1 (Food.position f) 200); cbn [c1 ticked position];
      rewrite ?Hs1; unfold SCREEN_WIDTH in *; auto; lra. }
  cbn [c1 ticked position] in Hmove. rewrite Hs1 in Hmove.
  destruct Hmove as [Hmx Hmy].
  assert (Hloop : manage_loop rnd (manage_fuel w0) 0 w0
                  = Ok (mkEcosystem [c2] [0%nat] [f] k)).
  { change (manage_fuel w0) with 5%nat.
    rewrite (manage_loop_step rnd 4 0 w0 0%nat eq_refl).
    rewrite (update_survives 0 w0 c eq_refl)
      by (unfold ENERGY_THRESHOLD_FOR_DEATH; lra).
    cbn [bind].
    rewrite (seekFood_forage rnd 0 (store 0 (ticked c) w0) c1 f [] eq_refl eq_refl)
      by (unfold c1, ticked; cbn [hunger]; lia).
    cbn [bind].
    replace (forage 0 c1 f [] (store 0 (ticked c) w0))
      with (mkEcosystem [c2] [0%nat] [f] k).
    { now apply manage_loop_done. }
    unfold forage. cbn [length seq zip zip_with py_min_by].
    fold c2. rewrite (not_overlapping_east f (position c2)) by lra.
    reflexivity. }
  destruct (spawn_food_loop_spec rnd (fun _ => True) max_food_count
              (mkEcosystem [c2] [0%nat] [f] k))
    as (new & _ & Hlen & Hspawn); [auto | lia |].
  exists (spawn_food rnd (mkEcosystem [c2] [0%nat] [f] k)), c2.
  unfold manage. rewrite Hloop. cbn [bind]. split; [reflexivity |].
  unfold spawn_food. rewrite Hspawn. cbn [heap creatures foods] in *.
  split; [reflexivity |]. split; [reflexivity |].
  split; [unfold c2, c1; cbn; lia |].
  split; [unfold c2, c1; cbn [moveTowards set_position ticked energy]; lra |].
  split; [unfold c2; cbn [moveTowards set_position speed]; now rewrite Hs1 |].
  split; [exact Hmx |]. split; [exact Hmy |].
  split; [reflexivity |].
  cbn [app length]. rewrite Hlen. reflexivity.
Qed.

Lemma lone_forager_tick_witness :
  exists w' c',
    manage tape_half food_due_east = Ok w'
    /\ heap w' = [c'] /\ creatures w' = [0%nat]
    /\ hunger c' = 1%Z /\ energy c' == 199 # 2
    /\ speed c' == 101 # 100
    /\ fst (position c') == fst (position forager) + (101 # 100)
    /\ snd (position c') == snd (position forager)
    /\ foods w' !! 0%nat = Some (Food.mk 5 (300, 100))
    /\ length (foods w') = 50%nat.
Proof.
  apply (lone_forager_tick tape_half forager (Food.mk 5 (300, 100)) 0).
  - reflexivity.
  - reflexivity.
  - cbn. lra.
  - cbn. unfold SCREEN_HEIGHT. lra.
  - reflexivity.
  - reflexivity.
  - cbn. unfold SCREEN_WIDTH. lra.
Defined.

(** C9 as stated fails: the step east is not 1 unit.  The creature starts
    at x = 100 and ends at x = 101.01. *)
Lemma east_step_is_not_one :
  exists w' c',
    manage tape_half food_due_east = Ok w'
    /\ heap w' !! 0%nat = Some c'
    /\ hunger c' = 1%Z
    /\ Qred (energy c') = 199 # 2
    /\ Qred (fst (position c')) = 10101 # 100
    /\ Qeq_bool (fst (position c')) (fst (position forager) + 1) = false.
Proof.
  do 2 eexists.
  split; [vm_compute; reflexivity |].
  split; [reflexivity |].
  split; [reflexivity |].
  split; [reflexivity |].
  split; [vm_compute; reflexivity | vm_compute; reflexivity].
Qed.

(** C4, as the code has it: [seekFood] looks for a partner only after it
    has found the food collection non-empty.  Two creatures of opposite
    gender with hunger 60 and cooldown 0 that survive the tick, wherever
    they stand, and no food: one tick of [manage] has neither reproduce.
    Both cooldowns are still 0, both are hungrier by one, each has moved at
    random by at most 10 units per axis inside the world, the collection
    still holds the two of them and nothing else, and [spawn_food] has
    brought the food to 50. *)
Theorem no_food_no_mating (rnd : nat -> Q) (a b : Creature) (k : nat) :
  tape_ok rnd ->
  gender a <> gender b ->
  hunger a = 60%Z -> hunger b = 60%Z ->
  reproduction_cooldown a = 0%Z -> reproduction_cooldown b = 0%Z ->
  ENERGY_THRESHOLD_FOR_DEATH < energy a - (1 # 2) ->
  ENERGY_THRESHOLD_FOR_DEATH < energy b - (1 # 2) ->
  in_world (position a) -> in_world (position b) ->
  exists w' a' b',
    manage rnd (mkEcosystem [a; b] [0%nat; 1%nat] [] k) = Ok w'
    /\ heap w' = [a'; b'] /\ creatures w' = [0%nat; 1%nat]
    /\ reproduction_cooldown a' = 0%Z /\ reproduction_cooldown b' = 0%Z
    /\ hunger a' = 61%Z /\ hunger b' = 61%Z
    /\ in_world (position a') /\ in_world (position b')
    /\ Qabs (fst (position a') - fst (position a)) <= 10
    /\ Qabs (snd (position a') - snd (position a)) <= 10
    /\ Qabs (fst (position b') - fst (position b)) <= 10
    /\ Qabs (snd (position b') - snd (position b)) <= 10
    /\ length (foods w') = 50%nat.
Proof.
  intros Hr _ Hha Hhb Hca Hcb Hea Heb Hpa Hpb.
  set (w0 := mkEcosystem [a; b] [0%nat; 1%nat] [] k).
  set (a' := moveRandomly rnd (ticked a) k).
  set (b' := moveRandomly rnd (ticked b) (k + 2)).
  set (w2 := mkEcosystem [a'; b'] [0%nat; 1%nat] [] (k + 2 + 2)).
  assert (Hloop : manage_loop rnd (manage_fuel w0) 0 w0 = Ok w2).
  { change (manage_fuel w0) with 9%nat.
    rewrite (manage_loop_step rnd 8 0 w0 0%nat eq_refl).
    rewrite (update_survives 0 w0 a eq_refl Hea). cbn [bind].
    rewrite (seekFood_no_food rnd 0 (store 0 (ticked a) w0) (ticked a)
               eq_refl eq_refl).
    cbn [bind].
    set (w1 := mkEcosystem [a'; b] [0%nat; 1%nat] [] (k + 2)).
    change (set_cursor _ _) with w1.
    rewrite (manage_loop_step rnd 7 1 w1 1%nat eq_refl).
    rewrite (update_survives 1 w1 b eq_refl Heb). cbn [bind].
    rewrite (seekFood_no_food rnd 1 (store 1 (ticked b) w1) (ticked b)
               eq_refl eq_refl).
    cbn [bind]. change (set_cursor _ _) with w2.
    now apply manage_loop_done. }
  destruct (spawn_food_loop_spec rnd (fun _ => True) max_food_count w2)
    as (new & _ & Hlen & Hspawn); [auto | lia |].
  exists (spawn_food rnd w2), a', b'.
  unfold manage. rewrite Hloop. cbn [bind]. split; [reflexivity |].
  unfold spawn_food. rewrite Hspawn. cbn [heap creatures foods] in *.
  split; [reflexivity |]. split; [reflexivity |].
  split; [unfold a'; cbn; now rewrite Hca |].
  split; [unfold b'; cbn; now rewrite Hcb |].
  split; [unfold a'; cbn; lia |].
  split; [unfold b'; cbn; lia |].
  split; [apply in_world_clamped |].
  split; [apply in_world_clamped |].
  destruct (moveRandomly_step rnd (ticked a) k Hr Hpa) as [Hax Hay].
  destruct (moveRandomly_step rnd (ticked b) (k + 2) Hr Hpb) as [Hbx Hby].
  split; [exact Hax |]. split; [exact Hay |].
  split; [exact Hbx |]. split; [exact Hby |].
  rewrite length_app, Hlen. reflexivity.
Qed.

Lemma no_food_no_mating_witness :
  exists w' a' b',
    manage tape_half pair_without_food = Ok w'
    /\ heap w' = [a'; b'] /\ creatures w' = [0%nat; 1%nat]
    /\ reproduction_cooldown a' = 0%Z /\ reproduction_cooldown b' = 0%Z
    /\ hunger a' = 61%Z /\ hunger b' = 61%Z
    /\ in_world (position a') /\ in_world (position b')
    /\ Qabs (fst (position a') - fst (position adam)) <= 10
    /\ Qabs (snd (position a') - snd (position adam)) <= 10
    /\ Qabs (fst (position b') - fst (position eve)) <= 10
    /\ Qabs (snd (position b') - snd (position eve)) <= 10
    /\ length (foods w') = 50%nat.
Proof.
  apply (no_food_no_mating tape_half adam eve 0).
  - exact tape_half_ok.
  - discriminate.
  - reflexivity.
  - reflexivity.
  - reflexivity.
  - reflexivity.
  - reflexivity.
  - reflexivity.
  - unfold in_world, SCREEN_WIDTH, SCREEN_HEIGHT, adam.
    cbn [position fst snd]. lra.
  - unfold in_world, SCREEN_WIDTH, SCREEN_HEIGHT, eve.
    cbn [position fst snd]. lra.
Defined.

(** C4 as stated fails: after one tick of the two creatures 5 units apart,
    with no food, nobody has a cooldown of 275 and no creature was born. *)
Lemma hungry_pair_does_not_mate :
  exists w' a' b',
    manage tape_half pair_without_food = Ok w'
    /\ heap w' = [a'; b']
    /\ creatures w' = [0%nat; 1%nat]
    /\ reproduction_cooldown a' = 0%Z
    /\ reproduction_cooldown b' = 0%Z.
Proof.
  do 3 eexists.
  split; [vm_compute; reflexivity |].
  split; [reflexivity |]. split; [reflexivity |]. split; reflexivity.
Qed.

(** *** Death *)

(** [update] on a creature of the live collection that reaches the death
    threshold removes it from the collection. *)
Lemma update_removes_dead (i : nat) (w : Ecosystem) (c : Creature) :
  heap w !! i = Some c -> i ∈ creatures w -> NoDup (creatures w) ->
  energy c - (1 # 2) <= ENERGY_THRESHOLD_FOR_DEATH ->
  exists w', update i w = Ok w' /\ (i ∉ creatures w')
             /\ list_remove i (creatures w) = Some (creatures w').
Proof.
  intros Hc Hi Hnd He. rewrite (update_run i w c Hc).
  apply Qle_bool_iff in He. rewrite He.
  destruct (die_total i (store i (ticked c) w) Hi) as [w' Hw'].
  exists w'. split; [exact Hw' |].
  destruct (die_heap _ _ _ Hw') as (_ & _ & _ & Hrm).
  cbn [store creatures set_heap] in Hrm.
  split; [| exact Hrm]. eapply list_remove_absent; eauto.
Qed.

(** C1 on a creature with energy -299.5 standing on a food item: [update]
    takes the energy to -300 and removes the creature from the collection,
    and [manage] goes on to call [seekFood] on it, where it eats the item
    (the food is gone, the energy of the removed creature is -295). *)
Lemma dead_creature_still_eats :
  exists w1 w2 w3 c2 c3,
    update 0 last_meal = Ok w1
    /\ creatures w1 = []
    /\ foods w1 = [Food.mk 5 (100, 100)]
    /\ seekFood tape_half 0 w1 = Ok w2
    /\ creatures w2 = []
    /\ foods w2 = []
    /\ heap w2 !! 0%nat = Some c2
    /\ Qred (energy c2) = -295
    /\ manage tape_half last_meal = Ok w3
    /\ creatures w3 = []
    /\ heap w3 !! 0%nat = Some c3
    /\ Qred (energy c3) = -295
    /\ foods w3 !! 0%nat = Some (spawned tape_half 0).
Proof.
  do 5 eexists.
  split; [vm_compute; reflexivity |].
  split; [reflexivity |]. split; [reflexivity |].
  split; [vm_compute; reflexivity |].
  split; [reflexivity |]. split; [reflexivity |].
  split; [reflexivity |]. split; [reflexivity |].
  split; [vm_compute; reflexivity |].
  split; [reflexivity |]. split; [reflexivity |].
  split; reflexivity.
Qed.

(** ** What every reachable state satisfies *)

Lemma list_remove_split (x : nat) (l r : list nat) :
  list_remove x l = Some r ->
  exists pre post, l = pre ++ x :: post /\ r = pre ++ post /\ x ∉ pre.
Proof.
  revert r. induction l as [| y l IH]; intros r H; [discriminate |].
  cbn [list_remove] in H. destruct (Nat.eqb x y) eqn:E.
  - apply Nat.eqb_eq in E. subst y. inversion H; subst.
    exists [], r. repeat split; auto. apply not_elem_of_nil.
  - apply Nat.eqb_neq in E.
    destruct (list_remove x l) as [r' |]; [| discriminate].
    inversion H; subst. destruct (IH r' eq_refl) as (pre & post & -> & -> & Hn).
    exists (y :: pre), post. repeat split; auto.
    intros [? | ?]%elem_of_cons; [congruence | contradiction].
Qed.

Lemma ticked_ok (c : Creature) : creature_ok c -> creature_ok (ticked c).
Proof.
  intros (Hc & Hh & Hp). unfold creature_ok, ticked.
  cbn [reproduction_cooldown hunger position].
  split; [| split; [lia | exact Hp]].
  destruct (0 <? reproduction_cooldown c)%Z eqn:E; [apply Z.ltb_lt in E |]; lia.
Qed.

Lemma moveRandomly_ok (rnd : nat -> Q) (c : Creature) (k : nat) :
  creature_ok c -> creature_ok (moveRandomly rnd c k).
Proof.
  intros (Hc & Hh & _). repeat split; auto; apply in_world_clamped.
Qed.

Lemma moveTowards_ok (c : Creature) (t : Position) :
  creature_ok c -> creature_ok (moveTowards c t).
Proof.
  intros (Hc & Hh & _). repeat split; auto; apply in_world_clamped.
Qed.

Lemma eat_food_ok (c : Creature) (f : Food.t) :
  creature_ok c -> creature_ok (eat_food c f).
Proof.
  intros (Hc & Hh & Hp). unfold creature_ok, eat_food.
  cbn [reproduction_cooldown hunger position set_hunger set_energy].
  split; [exact Hc |]. split; [lia | exact Hp].
Qed.

Lemma floor_in_range (x hi : Q) :
  0 <= x <= hi -> 0 <= inject_Z (Qfloor x) <= hi.
Proof.
  intros [H0 H1]. split.
  - change 0 with (inject_Z 0). rewrite <- Zle_Qle. now apply Qfloor_lower.
  - apply Qle_trans with x; [apply Qfloor_le | exact H1].
Qed.

Lemma newborn_ok (rnd : nat -> Q) (a b : Creature) (k : nat) :
  in_world (position a) -> in_world (position b) ->
  creature_ok (newborn rnd a b k).
Proof.
  intros [Hax Hay] [Hbx Hby]. unfold creature_ok, newborn.
  cbn [reproduction_cooldown hunger position].
  split; [lia |]. split; [lia |].
  unfold in_world, py_floordiv, SCREEN_WIDTH, SCREEN_HEIGHT in *. cbn [fst snd].
  split.
  - apply (floor_in_range _ 800).
    split; [apply Qle_shift_div_l | apply Qle_shift_div_r]; lra.
  - apply (floor_in_range _ 600).
    split; [apply Qle_shift_div_l | apply Qle_shift_div_r]; lra.
Qed.

Lemma store_wf (i : nat) (c : Creature) (w : Ecosystem) :
  wf w -> creature_ok c -> wf (store i c w).
Proof.
  intros (Hh & Hi & Hn & Hf) Hc. unfold wf, store.
  cbn [heap creatures foods set_heap]. rewrite length_insert.
  repeat split; auto. now apply Forall_insert.
Qed.

Lemma die_wf (i : nat) (w w' : Ecosystem) : die i w = Ok w' -> wf w -> wf w'.
Proof.
  intros H (Hh & Hi & Hn & Hf).
  destruct (die_heap _ _ _ H) as (Eh & Ef & _ & Hrm).
  destruct (list_remove_split _ _ _ Hrm) as (pre & post & El & Er & _).
  unfold wf. rewrite Eh, Ef, Er. rewrite El in Hi, Hn.
  apply Forall_app in Hi as [Hi1 Hi2]. apply Forall_cons in Hi2 as [_ Hi2].
  apply NoDup_app in Hn as (Hn1 & Hn2 & Hn3). apply NoDup_cons in Hn3 as [_ Hn3].
  repeat split; auto.
  - apply Forall_app. auto.
  - apply NoDup_app. repeat split; auto.
    intros x Hx Hx'. apply (Hn2 x Hx). now apply elem_of_cons; right.
Qed.

Lemma wf_lookup (w : Ecosystem) (i : nat) (c : Creature) :
  wf w -> heap w !! i = Some c -> creature_ok c.
Proof. intros (Hh & _) Hc. rewrite Forall_lookup in Hh. eauto. Qed.

Lemma update_wf (i : nat) (w w' : Ecosystem) :
  update i w = Ok w' -> wf w -> wf w'.
Proof.
  intros H Hw. destruct (heap w !! i) as [c |] eqn:Hc.
  - rewrite (update_run i w c Hc) in H.
    assert (Hs : wf (store i (ticked c) w)).
    { apply store_wf; [exact Hw |]. apply ticked_ok. eapply wf_lookup; eauto. }
    destruct (Qle_bool _ _).
    + eapply die_wf; eauto.
    + now inversion H; subst.
  - unfold update, deref in H. rewrite Hc in H. discriminate.
Qed.

(** Every way out of [reproduce]. *)
Lemma reproduce_cases (rnd : nat -> Q) (i j : nat) (w w' : Ecosystem) :
  reproduce rnd i j w = Ok w' ->
  w' = w
  \/ exists a b,
       heap w !! i = Some a /\ heap w !! j = Some b /\ gender a <> gender b
       /\ (reproduction_cooldown a <= 0)%Z /\ (reproduction_cooldown b <= 0)%Z.
Proof.
  unfold reproduce, deref.
  destruct (heap w !! i) as [a |] eqn:Ha; [| discriminate].
  destruct (heap w !! j) as [b |] eqn:Hb; [| discriminate].
  cbn [bind].
  destruct (Gender_eqb (gender a) (gender b)) eqn:Eg;
    [intros [= <-]; now left |].
  destruct (0 <? reproduction_cooldown a)%Z eqn:Ea;
    [intros [= <-]; now left |].
  destruct (0 <? reproduction_cooldown b)%Z eqn:Eb;
    [intros [= <-]; now left |].
  intros _. right. exists a, b.
  apply Z.ltb_ge in Ea, Eb. repeat split; auto.
  intros E. apply Gender_eqb_eq in E. congruence.
Qed.

Lemma reproduce_wf (rnd : nat -> Q) (i j : nat) (w w' : Ecosystem) :
  reproduce rnd i j w = Ok w' -> wf w -> wf w'.
Proof.
  intros H Hw. destruct (reproduce_cases _ _ _ _ _ H) as [-> | Hc]; [exact Hw |].
  destruct Hc as (a & b & Ha & Hb & Hg & Hca & Hcb).
  destruct (reproduce_accepted rnd i j w a b Ha Hb Hg Hca Hcb)
    as (w2 & kids & Hrun & Hij & Hlen & Hheap & Hcr & Hfoods & Hkids).
  rewrite Hrun in H. inversion H; subst w2. clear H Hrun.
  destruct (wf_lookup w i a Hw Ha) as (_ & Hha & Hpa).
  destruct (wf_lookup w j b Hw Hb) as (_ & Hhb & Hpb).
  destruct Hw as (Hh & Hi & Hn & Hf).
  unfold wf. rewrite Hheap, Hcr, Hfoods, length_app, 2!length_insert.
  split.
  { apply Forall_app. split.
    - apply Forall_insert; [apply Forall_insert |]; auto;
        (split; [cbn; unfold REPRODUCTION_COOLDOWN; lia | split; assumption]).
    - eapply Forall_impl; [exact Hkids |]. intros c [k ->].
      now apply newborn_ok. }
  split.
  { apply Forall_app. split.
    - eapply Forall_impl; [exact Hi |]. cbn. intros; lia.
    - apply Forall_seq. intros; lia. }
  split; [| exact Hf].
  apply NoDup_app. split; [exact Hn |]. split; [| apply NoDup_seq].
  intros x Hx Hx'. apply elem_of_seq in Hx'.
  rewrite Forall_forall in Hi. specialize (Hi x Hx). cbn in Hi. lia.
Qed.

Lemma length_delete_le {A} (l : list A) (k : nat) :
  (length (delete k l) <= length l)%nat.
Proof.
  revert k. induction l as [| x l IH]; intros [| k]; simpl; try lia.
  specialize (IH k). change (list_delete k l) with (delete k l). lia.
Qed.

(** [forage] rewrites the forager, in place, with where [moveTowards] took
    it, fed or not, and takes at most one item off the food. *)
Lemma forage_run (i : nat) (c : Creature) (f0 : Food.t) (fs : list Food.t)
    (w : Ecosystem) :
  exists c' fs',
    forage i c f0 fs w =
      mkEcosystem (<[i := c']> (heap w)) (creatures w) fs' (cursor w)
    /\ (exists ft, c' = moveTowards c (Food.position ft)
                   \/ c' = eat_food (moveTowards c (Food.position ft)) ft)
    /\ (length fs' <= length (foods w))%nat.
Proof.
  unfold forage.
  destruct (py_min_by _ _ _) as [k ft].
  destruct (Food.isOverlapping _ _).
  - do 2 eexists. split; [| split; [exists ft; right; reflexivity |]].
    + unfold store, set_foods, set_heap.
      cbn [heap creatures foods cursor].
      rewrite list_insert_insert_eq. reflexivity.
    + apply length_delete_le.
  - do 2 eexists. split; [| split; [exists ft; left; reflexivity |]].
    + reflexivity.
    + cbn [foods]. lia.
Qed.

Lemma deref_all_lookup (w : Ecosystem) (l : list nat)
    (all : list (nat * Creature)) :
  deref_all w l = Ok all ->
  Forall (fun jc => heap w !! fst jc = Some (snd jc)) all.
Proof.
  revert all. induction l as [| j l IH]; intros all H; cbn [deref_all] in H.
  - inversion H. constructor.
  - unfold deref in H. destruct (heap w !! j) as [c |] eqn:Hc; [| discriminate].
    cbn [bind] in H. destruct (deref_all w l) as [r |]; [| discriminate].
    cbn [bind] in H. inversion H. constructor; auto.
Qed.

Lemma deref_all_total (w : Ecosystem) (l : list nat) :
  Forall (fun i => (i < length (heap w))%nat) l ->
  exists all, deref_all w l = Ok all.
Proof.
  induction 1 as [| j l Hj _ [all IH]]; cbn [deref_all]; [eauto |].
  destruct (lookup_lt_is_Some_2 _ _ Hj) as [c Hc].
  unfold deref. rewrite Hc, IH. cbn [bind]. eauto.
Qed.

Lemma py_min_by_elem {A} (key : A -> Q) (best : A) (l : list A) :
  py_min_by key best l ∈ best :: l.
Proof.
  revert best. induction l as [| x l IH]; intros best; cbn [py_min_by].
  - apply list_elem_of_here.
  - specialize (IH (if Qltb (key x) (key best) then x else best)).
    apply elem_of_cons in IH as [-> | IH].
    + destruct (Qltb _ _); [right; left | left].
    + right; right. exact IH.
Qed.

(** Every way out of [seekFood]. *)
Lemma seekFood_cases (rnd : nat -> Q) (i : nat) (w w' : Ecosystem) :
  seekFood rnd i w = Ok w' ->
  exists c, heap w !! i = Some c
  /\ ((foods w = []
       /\ w' = set_cursor (cursor w + 2)
                 (store i (moveRandomly rnd c (cursor w)) w))
      \/ (exists f0 fs, foods w = f0 :: fs /\ w' = forage i c f0 fs w)
      \/ (exists j cj, (50 <= hunger c)%Z /\ heap w !! j = Some cj
                       /\ foods w <> [] /\ reproduce rnd i j w = Ok w')).
Proof.
  unfold seekFood, deref.
  destruct (heap w !! i) as [c |] eqn:Hc; [| discriminate]. cbn [bind].
  intros H. exists c. split; [reflexivity |].
  destruct (foods w) as [| f0 fs] eqn:Hf.
  { left. now inversion H. }
  right.
  destruct (50 <=? hunger c)%Z eqn:Eh; cbn [andb] in H;
    [| left; exists f0, fs; now inversion H].
  destruct (reproduction_cooldown c <=? 0)%Z;
    [| left; exists f0, fs; now inversion H].
  destruct (deref_all w (creatures w)) as [all |] eqn:Hall; [| discriminate].
  cbn [bind] in H.
  pose proof (deref_all_lookup _ _ _ Hall) as Hlk.
  destruct (List.filter _ all) as [| p0 ps] eqn:Hfil;
    [left; exists f0, fs; now inversion H |].
  destruct (Qle_bool _ _);
    [| left; exists f0, fs; now inversion H].
  right.
  set (partner := py_min_by _ p0 ps) in *.
  assert (Hp : List.In partner all).
  { assert (Hin : partner ∈ p0 :: ps) by apply py_min_by_elem.
    rewrite <- Hfil in Hin. apply list_elem_of_In in Hin.
    apply List.filter_In in Hin. tauto. }
  rewrite Forall_forall in Hlk. apply list_elem_of_In in Hp.
  exists (fst partner), (snd partner).
  apply Z.leb_le in Eh. repeat split; auto; discriminate.
Qed.

Lemma seekFood_wf (rnd : nat -> Q) (i : nat) (w w' : Ecosystem) :
  seekFood rnd i w = Ok w' -> wf w -> wf w'.
Proof.
  intros H Hw.
  destruct (seekFood_cases _ _ _ _ H) as (c & Hc & [Hcase | [Hcase | Hcase]]).
  - destruct Hcase as (_ & ->).
    apply (store_wf i _ w Hw).
    apply moveRandomly_ok. eapply wf_lookup; eauto.
  - destruct Hcase as (f0 & fs & Hf & ->).
    destruct (forage_run i c f0 fs w) as (c' & fs' & -> & [ft Hc'] & Hlen).
    pose proof (wf_lookup w i c Hw Hc) as Hok.
    assert (Hok' : creature_ok c').
    { destruct Hc' as [-> | ->];
        [| apply eat_food_ok]; now apply moveTowards_ok. }
    destruct Hw as (Hh & Hi & Hn & Hfo). unfold wf.
    cbn [heap creatures foods]. rewrite length_insert.
    repeat split; auto; [now apply Forall_insert | lia].
  - destruct Hcase as (j & cj & _ & _ & _ & Hr). eapply reproduce_wf; eauto.
Qed.

Lemma manage_loop_wf (rnd : nat -> Q) (fuel idx : nat) (w w' : Ecosystem) :
  manage_loop rnd fuel idx w = Ok w' -> wf w -> wf w'.
Proof.
  revert idx w. induction fuel as [| fuel IH]; intros idx w H Hw;
    cbn [manage_loop] in H; [discriminate |].
  destruct (creatures w !! idx) as [i |]; [| now inversion H; subst].
  destruct (update i w) as [w1 |] eqn:H1; [| discriminate]. cbn [bind] in H.
  destruct (seekFood rnd i w1) as [w2 |] eqn:H2; [| discriminate].
  cbn [bind] in H.
  eapply IH; [exact H |]. eapply seekFood_wf; [exact H2 |].
  eapply update_wf; eauto.
Qed.

Lemma spawn_food_wf (rnd : nat -> Q) (w : Ecosystem) :
  wf w -> wf (spawn_food rnd w).
Proof.
  intros (Hh & Hi & Hn & Hf).
  destruct (spawn_food_loop_spec rnd (fun _ => True) max_food_count w)
    as (new & _ & Hlen & E); [auto | lia |].
  unfold spawn_food. rewrite E. unfold wf. cbn [heap creatures foods].
  repeat split; auto. rewrite length_app. lia.
Qed.

Lemma manage_wf (rnd : nat -> Q) (w w' : Ecosystem) :
  manage rnd w = Ok w' -> wf w -> wf w'.
Proof.
  unfold manage. intros H Hw.
  destruct (manage_loop rnd (manage_fuel w) 0 w) as [w1 |] eqn:H1;
    [| discriminate].
  cbn [bind] in H. inversion H; subst.
  apply spawn_food_wf. eapply manage_loop_wf; eauto.
Qed.

Lemma founder_wf (rnd : nat -> Q) (w : Ecosystem) :
  tape_ok rnd -> wf w -> wf (founder rnd w).
Proof.
  intros Hr (Hh & Hi & Hn & Hf). unfold founder, wf.
  cbn [Creature_init alloc heap creatures foods cursor set_cursor set_heap
       set_creatures].
  rewrite length_app. cbn [length].
  split.
  { apply Forall_app. split; [exact Hh |]. constructor; [| constructor].
    split; [cbn; lia |]. split; [cbn; lia |].
    cbn [position]. split; cbn [fst snd].
    - pose proof (randint_range rnd 0 800 (cursor w) Hr ltac:(lia)) as [H0 H1].
      rewrite Zle_Qle in H0, H1. split; [exact H0 | exact H1].
    - pose proof (randint_range rnd 0 600 (cursor w + 1) Hr ltac:(lia))
        as [H0 H1].
      rewrite Zle_Qle in H0, H1. split; [exact H0 | exact H1]. }
  split.
  { apply Forall_app. split.
    - eapply Forall_impl; [exact Hi |]. cbn. intros; lia.
    - constructor; [lia | constructor]. }
  split; [| exact Hf].
  apply NoDup_app. split; [exact Hn |]. split; [| apply NoDup_singleton].
  intros x Hx Hx'. apply list_elem_of_singleton in Hx'. subst x.
  rewrite Forall_forall in Hi. specialize (Hi _ Hx). cbn in Hi. lia.
Qed.

Lemma Ecosystem_init_wf (rnd : nat -> Q) : tape_ok rnd -> wf (Ecosystem_init rnd).
Proof.
  intros Hr. unfold Ecosystem_init.
  assert (H0 : wf (mkEcosystem [] [] [] 0)).
  { unfold wf. cbn. repeat split; try constructor. unfold max_food_count. lia. }
  generalize 10%nat. intros n. induction n as [| n IH]; cbn [Nat.iter]; auto.
  now apply founder_wf.
Qed.

(** X2: in every state of a run, every creature has a cooldown and a hunger
    that are not negative and a position inside the world; the live
    collection holds existing creatures, none twice; and there are at most
    50 food items. *)
Theorem reachable_wf (rnd : nat -> Q) (w : Ecosystem) :
  tape_ok rnd -> reachable rnd w -> wf w.
Proof.
  intros Hr. induction 1 as [| w w' _ IH H].
  - now apply Ecosystem_init_wf.
  - eapply manage_wf; eauto.
Qed.

(** ** [manage] returns *)

Lemma update_total (i : nat) (w : Ecosystem) :
  wf w -> i ∈ creatures w -> exists w', update i w = Ok w'.
Proof.
  intros Hw Hi. destruct Hw as (_ & Hv & _).
  rewrite Forall_forall in Hv.
  destruct (lookup_lt_is_Some_2 _ _ (Hv i Hi)) as [c Hc].
  rewrite (update_run i w c Hc). destruct (Qle_bool _ _); [| eauto].
  now apply die_total.
Qed.

Lemma reproduce_total (rnd : nat -> Q) (i j : nat) (w : Ecosystem)
    (a b : Creature) :
  heap w !! i = Some a -> heap w !! j = Some b ->
  exists w', reproduce rnd i j w = Ok w'.
Proof.
  intros Ha Hb.
  destruct (Gender_eqb (gender a) (gender b)) eqn:Eg;
    [| destruct (0 <? reproduction_cooldown a)%Z eqn:Ea;
       [| destruct (0 <? reproduction_cooldown b)%Z eqn:Eb]].
  4: { apply Z.ltb_ge in Ea, Eb.
       destruct (reproduce_accepted rnd i j w a b Ha Hb) as (w' & _ & H & _);
         eauto.
       intros E. apply Gender_eqb_eq in E. congruence. }
  all: exists w; unfold reproduce, deref; rewrite Ha, Hb; cbn [bind];
    rewrite ?Eg, ?Ea, ?Eb; reflexivity.
Qed.

Lemma seekFood_total (rnd : nat -> Q) (i : nat) (w : Ecosystem) (c : Creature) :
  heap w !! i = Some c ->
  Forall (fun i => (i < length (heap w))%nat) (creatures w) ->
  exists w', seekFood rnd i w = Ok w'.
Proof.
  intros Hc Hv. unfold seekFood, deref. rewrite Hc. cbn [bind].
  destruct (foods w) as [| f0 fs]; [eauto |].
  destruct ((50 <=? hunger c)%Z && (reproduction_cooldown c <=? 0)%Z);
    [| eauto].
  destruct (deref_all_total w _ Hv) as [all Hall]. rewrite Hall. cbn [bind].
  pose proof (deref_all_lookup _ _ _ Hall) as Hlk.
  destruct (List.filter _ all) as [| p0 ps] eqn:Hfil; [eauto |].
  destruct (Qle_bool _ _); [| eauto].
  set (partner := py_min_by _ p0 ps).
  assert (Hp : partner ∈ all).
  { assert (Hin : partner ∈ p0 :: ps) by apply py_min_by_elem.
    rewrite <- Hfil in Hin. apply list_elem_of_In in Hin.
    apply List.filter_In in Hin. apply list_elem_of_In. tauto. }
  rewrite Forall_forall in Hlk.
  eapply reproduce_total; eauto.
Qed.

Lemma load_app (w : Ecosystem) (l k : list nat) :
  load w (l ++ k) = (load w l + load w k)%nat.
Proof. unfold load. rewrite List.filter_app, !length_app. lia. Qed.

Lemma load_drop (w : Ecosystem) (n : nat) (l : list nat) :
  (load w (drop n l) <= load w l)%nat.
Proof. rewrite <- (take_drop n l) at 2. rewrite load_app. lia. Qed.

Lemma load_bound (w : Ecosystem) (l : list nat) :
  (load w l <= 4 * length l)%nat.
Proof.
  unfold load. pose proof (List.filter_length_le (hungry w) l). lia.
Qed.

Lemma load_ext (w w' : Ecosystem) (l : list nat) :
  (forall j, j ∈ l -> hungry w' j = hungry w j) -> load w' l = load w l.
Proof.
  intros H. unfold load. f_equal. f_equal. f_equal.
  apply List.filter_ext_in. intros j Hj. apply H. now apply list_elem_of_In.
Qed.

Lemma load_calm (w : Ecosystem) (l : list nat) :
  (forall j, j ∈ l -> hungry w j = false) -> load w l = length l.
Proof.
  intros H. unfold load.
  replace (List.filter (hungry w) l) with (@nil nat); [cbn; lia |].
  symmetry. induction l as [| j l IH]; [reflexivity |]. cbn [List.filter].
  rewrite H by apply list_elem_of_here.
  apply IH. intros; apply H. now right.
Qed.

Lemma hungry_same (w w' : Ecosystem) (j : nat) :
  hunger <$> heap w' !! j = hunger <$> heap w !! j ->
  hungry w' j = hungry w j.
Proof.
  unfold hungry. destruct (heap w' !! j), (heap w !! j); cbn; congruence.
Qed.

Lemma update_effect (i : nat) (w w1 : Ecosystem) (c : Creature) :
  heap w !! i = Some c -> update i w = Ok w1 ->
  heap w1 = <[i := ticked c]> (heap w)
  /\ (creatures w1 = creatures w
      \/ list_remove i (creatures w) = Some (creatures w1)).
Proof.
  intros Hc H. rewrite (update_run i w c Hc) in H.
  destruct (Qle_bool _ _).
  - destruct (die_heap _ _ _ H) as (-> & _ & _ & Hrm). split; [reflexivity |].
    now right.
  - inversion H; subst. split; [reflexivity | now left].
Qed.

(** What one round of the loop does to the live collection and to the
    hunger of the others: the visited creature may have left, at most three
    newborns have joined, and only if the visited creature came hungry. *)
Lemma seekFood_effect (rnd : nat -> Q) (i : nat) (w w' : Ecosystem)
    (c : Creature) :
  tape_ok rnd ->
  heap w !! i = Some c -> seekFood rnd i w = Ok w' ->
  exists births,
    creatures w' = creatures w ++ births
    /\ (length births <= 3)%nat
    /\ (births <> [] -> (50 <= hunger c)%Z)
    /\ (forall j, j ∈ births -> hungry w' j = false)
    /\ (forall j, j <> i -> (j < length (heap w))%nat ->
                  hungry w' j = hungry w j)
    /\ (forall j, j ∈ births -> (length (heap w) <= j)%nat)
    /\ (length (heap w) <= length (heap w'))%nat.
Proof.
  intros Hr Hc H.
  assert (Hnone : forall c', creatures w' = creatures w ->
            heap w' = <[i := c']> (heap w) ->
            exists births,
              creatures w' = creatures w ++ births
              /\ (length births <= 3)%nat
              /\ (births <> [] -> (50 <= hunger c)%Z)
              /\ (forall j, j ∈ births -> hungry w' j = false)
              /\ (forall j, j <> i -> (j < length (heap w))%nat ->
                            hungry w' j = hungry w j)
              /\ (forall j, j ∈ births -> (length (heap w) <= j)%nat)
              /\ (length (heap w) <= length (heap w'))%nat).
  { intros c' Hcr Hh. exists []. rewrite app_nil_r.
    split; [exact Hcr |]. split; [cbn; lia |]. split; [congruence |].
    split; [intros j Hj; inversion Hj |].
    split; [| split; [intros j Hj; inversion Hj
                     | rewrite Hh, length_insert; lia]].
    intros j Hj _. apply hungry_same. rewrite Hh.
    now rewrite list_lookup_insert_ne by auto. }
  destruct (seekFood_cases _ _ _ _ H) as (c0 & Hc0 & Hcase).
  rewrite Hc in Hc0. inversion Hc0; subst c0. clear Hc0.
  destruct Hcase as [(_ & ->) | [(f0 & fs & _ & ->) | Hcase]].
  - eapply Hnone; reflexivity.
  - destruct (forage_run i c f0 fs w) as (c' & fs' & E & _ & _).
    apply (Hnone c'); rewrite E; reflexivity.
  - destruct Hcase as (j & cj & Hh & Hj & _ & Hrep).
    destruct (reproduce_cases _ _ _ _ _ Hrep) as [-> | Hacc].
    { exists []. rewrite app_nil_r. split; [reflexivity |].
      split; [cbn; lia |]. split; [congruence |].
      split; [intros k Hk; inversion Hk |].
      split; [reflexivity |].
      split; [intros k Hk; inversion Hk | lia]. }
    destruct Hacc as (a & b & Ha & Hb & Hg & Hca & Hcb).
    rewrite Hc in Ha. inversion Ha; subst a. clear Ha.
    destruct (reproduce_accepted rnd i j w c b Hc Hb Hg Hca Hcb)
      as (w2 & kids & Hrun & Hij & Hlen & Hheap & Hcr & _ & Hkids).
    rewrite Hrun in Hrep. inversion Hrep; subst w2. clear Hrep Hrun.
    exists (seq (length (heap w)) (length kids)).
    split; [exact Hcr |]. rewrite length_seq.
    split.
    { rewrite Hlen.
      pose proof (randint_range rnd 1 3 (cursor w) Hr ltac:(lia)). lia. }
    split; [intros _; exact Hh |].
    split.
    + intros k Hk. apply elem_of_seq in Hk. unfold hungry. rewrite Hheap.
      rewrite lookup_app_r by (rewrite 2!length_insert; lia).
      rewrite 2!length_insert.
      destruct (lookup_lt_is_Some_2 kids (k - length (heap w))) as [x Hx];
        [lia |].
      rewrite Hx. rewrite Forall_lookup in Hkids.
      destruct (Hkids _ _ Hx) as [n ->]. reflexivity.
    + split; [| split].
      * intros k Hk Hlt. apply hungry_same. rewrite Hheap.
        rewrite lookup_app_l by (rewrite 2!length_insert; lia).
        destruct (decide (k = j)) as [-> | Hkj].
        -- rewrite list_lookup_insert_eq by (rewrite length_insert; lia).
           rewrite Hb. reflexivity.
        -- rewrite 2!list_lookup_insert_ne by auto. reflexivity.
      * intros k Hk. apply elem_of_seq in Hk. lia.
      * rewrite Hheap, length_app, 2!length_insert. lia.
Qed.

Lemma list_remove_middle (x : nat) (pre post : list nat) :
  x ∉ pre -> list_remove x (pre ++ x :: post) = Some (pre ++ post).
Proof.
  induction pre as [| y pre IH]; intros Hx; cbn [app list_remove].
  - now rewrite Nat.eqb_refl.
  - apply not_elem_of_cons in Hx as [Hxy Hx].
    apply Nat.eqb_neq in Hxy. rewrite Hxy, IH by exact Hx. reflexivity.
Qed.

Lemma round_load (rnd : nat -> Q) (idx i : nat) (w w1 w2 : Ecosystem) :
  tape_ok rnd -> wf w -> creatures w !! idx = Some i ->
  update i w = Ok w1 -> seekFood rnd i w1 = Ok w2 ->
  (load w2 (drop (S idx) (creatures w2)) < load w (drop idx (creatures w)))%nat.
Proof.
  intros Hr Hw Hidx Hup Hsf.
  destruct Hw as (_ & Hv & Hnd & _).
  pose proof (take_drop_middle _ _ _ Hidx) as HL.
  set (pre := take idx (creatures w)) in *.
  set (post := drop (S idx) (creatures w)) in *.
  assert (Hpre : length pre = idx).
  { unfold pre. rewrite length_take. apply lookup_lt_Some in Hidx. lia. }
  rewrite <- HL in Hnd, Hv.
  apply NoDup_app in Hnd as (_ & Hipre & Hnd).
  apply NoDup_cons in Hnd as [Hipost _].
  assert (Hipre' : i ∉ pre).
  { intros Hin. apply (Hipre i Hin). apply list_elem_of_here. }
  apply Forall_app in Hv as [_ Hv]. apply Forall_cons in Hv as [Hi Hvpost].
  destruct (lookup_lt_is_Some_2 _ _ Hi) as [c Hc].
  destruct (update_effect i w w1 c Hc Hup) as [Hh1 Hc1].
  assert (Hc1' : heap w1 !! i = Some (ticked c)).
  { rewrite Hh1. now apply list_lookup_insert_eq. }
  destruct (seekFood_effect rnd i w1 w2 (ticked c) Hr Hc1' Hsf)
    as (births & Hcr & Hb3 & Hbh & Hbc & Hfr & _).
  assert (Hdrop : (load w2 (drop (S idx) (creatures w2))
                   <= load w2 (post ++ births))%nat).
  { rewrite Hcr. destruct Hc1 as [-> | Hrm].
    - rewrite <- HL at 1. rewrite <- app_assoc. cbn [app].
      replace (S idx) with (length (pre ++ [i]))
        by (rewrite length_app; cbn; lia).
      replace (pre ++ i :: post ++ births) with ((pre ++ [i]) ++ post ++ births)
        by (now rewrite <- app_assoc).
      rewrite drop_app_length. lia.
    - rewrite <- HL in Hrm. rewrite list_remove_middle in Hrm by exact Hipre'.
      injection Hrm as E. rewrite <- E.
      replace (S idx) with (length pre + 1)%nat by lia.
      rewrite <- app_assoc, drop_app_add. apply load_drop. }
  assert (Hpost : load w2 post = load w post).
  { apply load_ext. intros j Hj.
    assert (Hji : j <> i) by (intros ->; contradiction).
    rewrite Forall_forall in Hvpost. specialize (Hvpost j Hj). cbn in Hvpost.
    rewrite Hfr by (rewrite ?Hh1, ?length_insert; auto).
    apply hungry_same. rewrite Hh1.
    now rewrite list_lookup_insert_ne by auto. }
  rewrite load_app, Hpost, (load_calm w2 births Hbc) in Hdrop.
  replace (drop idx (creatures w)) with ([i] ++ post).
  2: { rewrite <- HL. replace idx with (length pre + 0)%nat at 1 by lia.
       now rewrite drop_app_add. }
  rewrite load_app.
  assert (Hone : load w [i] = (1 + 3 * (if hungry w i then 1 else 0))%nat).
  { unfold load. cbn [List.filter]. destruct (hungry w i); reflexivity. }
  rewrite Hone.
  destruct births as [| b births].
  - cbn [length] in Hdrop. lia.
  - assert (Hh : hungry w i = true).
    { unfold hungry. rewrite Hc. apply Z.leb_le.
      specialize (Hbh ltac:(discriminate)). cbn in Hbh. lia. }
    rewrite Hh. cbn [length] in *. lia.
Qed.

Lemma manage_loop_total (rnd : nat -> Q) (fuel idx : nat) (w : Ecosystem) :
  tape_ok rnd -> wf w ->
  (load w (drop idx (creatures w)) < fuel)%nat ->
  exists w', manage_loop rnd fuel idx w = Ok w'.
Proof.
  intros Hr. revert idx w. induction fuel as [| fuel IH]; intros idx w Hw Hf;
    [lia |].
  cbn [manage_loop]. destruct (creatures w !! idx) as [i |] eqn:Hidx; [| eauto].
  assert (Hi : i ∈ creatures w) by (eapply list_elem_of_lookup_2; eauto).
  destruct (update_total i w Hw Hi) as [w1 H1]. rewrite H1. cbn [bind].
  pose proof (update_wf _ _ _ H1 Hw) as Hw1.
  assert (Hc1 : exists c1, heap w1 !! i = Some c1).
  { destruct Hw as (_ & Hv & _). rewrite Forall_forall in Hv.
    destruct (lookup_lt_is_Some_2 _ _ (Hv i Hi)) as [c Hc].
    destruct (update_effect i w w1 c Hc H1) as [-> _].
    exists (ticked c). apply list_lookup_insert_eq.
    now apply lookup_lt_Some in Hc. }
  destruct Hc1 as [c1 Hc1].
  destruct (seekFood_total rnd i w1 c1 Hc1) as [w2 H2]; [apply Hw1 |].
  rewrite H2. cbn [bind].
  apply IH; [eapply seekFood_wf; eauto |].
  pose proof (round_load rnd idx i w w1 w2 Hr Hw Hidx H1 H2). lia.
Qed.

(** X1: on every state of a run [manage] returns: no exception is raised,
    and the loop over the creatures, which births lengthen while it runs,
    ends within the bound of the model; the state it returns is again a
    state of a run. *)
Theorem manage_total (rnd : nat -> Q) (w : Ecosystem) :
  tape_ok rnd -> wf w -> exists w', manage rnd w = Ok w' /\ wf w'.
Proof.
  intros Hr Hw.
  destruct (manage_loop_total rnd (manage_fuel w) 0 w Hr Hw) as [w1 H1].
  { unfold manage_fuel. rewrite drop_0.
    pose proof (load_bound w (creatures w)). lia. }
  exists (spawn_food rnd w1). split.
  - unfold manage. rewrite H1. reflexivity.
  - apply spawn_food_wf. eapply manage_loop_wf; eauto.
Qed.

(** A creature that is out of the live collection stays out: a round of
    the loop takes identities away or appends new ones, and never puts an
    old one back. *)
Lemma manage_loop_stays_out (rnd : nat -> Q) (fuel idx x : nat)
    (w w' : Ecosystem) :
  tape_ok rnd -> wf w ->
  (x < length (heap w))%nat -> x ∉ creatures w ->
  manage_loop rnd fuel idx w = Ok w' ->
  (x < length (heap w'))%nat /\ (x ∉ creatures w').
Proof.
  intros Hr. revert idx w. induction fuel as [| fuel IH];
    intros idx w Hw Hx Hout H; cbn [manage_loop] in H; [discriminate |].
  destruct (creatures w !! idx) as [i |] eqn:Hidx;
    [| inversion H; subst; auto].
  destruct (update i w) as [w1 |] eqn:H1; [| discriminate]. cbn [bind] in H.
  destruct (seekFood rnd i w1) as [w2 |] eqn:H2; [| discriminate].
  cbn [bind] in H.
  assert (Hi : i ∈ creatures w) by (eapply list_elem_of_lookup_2; eauto).
  pose proof (update_wf _ _ _ H1 Hw) as Hw1.
  destruct Hw as (_ & Hv & _). rewrite Forall_forall in Hv.
  destruct (lookup_lt_is_Some_2 _ _ (Hv i Hi)) as [c Hc].
  destruct (update_effect i w w1 c Hc H1) as [Hh1 Hc1].
  assert (Hc1' : heap w1 !! i = Some (ticked c)).
  { rewrite Hh1. apply list_lookup_insert_eq. now apply lookup_lt_Some in Hc. }
  destruct (seekFood_effect rnd i w1 w2 (ticked c) Hr Hc1' H2)
    as (births & Hcr & _ & _ & _ & _ & Hfresh & Hlen).
  rewrite Hh1, length_insert in Hfresh, Hlen.
  apply (IH (S idx) w2); [eapply seekFood_wf; eauto | lia | | exact H].
  rewrite Hcr. intros [Hin | Hin]%elem_of_app.
  - destruct Hc1 as [E | Hrm]; [rewrite E in Hin; contradiction |].
    destruct (list_remove_split _ _ _ Hrm) as (pre & post & El & Er & _).
    rewrite Er in Hin. apply Hout. rewrite El.
    apply elem_of_app in Hin as [Hin | Hin]; apply elem_of_app;
      [left | right; right]; exact Hin.
  - specialize (Hfresh x Hin). lia.
Qed.

(** X4: a creature that is out of the live collection at the start of a
    tick is out of it at the end: a dead creature is never visited again. *)
Theorem manage_stays_out (rnd : nat -> Q) (x : nat) (w w' : Ecosystem) :
  tape_ok rnd -> wf w ->
  (x < length (heap w))%nat -> x ∉ creatures w ->
  manage rnd w = Ok w' ->
  (x < length (heap w'))%nat /\ (x ∉ creatures w').
Proof.
  intros Hr Hw Hx Hout H. unfold manage in H.
  destruct (manage_loop rnd (manage_fuel w) 0 w) as [w1 |] eqn:H1;
    [| discriminate].
  cbn [bind] in H. inversion H; subst. clear H.
  destruct (manage_loop_stays_out rnd _ _ x w w1 Hr Hw Hx Hout H1) as [Hx1 Ho1].
  destruct (spawn_food_loop_spec rnd (fun _ => True) max_food_count w1)
    as (new & _ & _ & E); [auto | lia |].
  unfold spawn_food. rewrite E. cbn [heap creatures]. auto.
Qed.

(** X3, the part of C1 that holds: a creature that [update] finds at or
    below the death threshold when the loop visits it is out of the live
    collection when the loop ends. *)
Theorem dead_leaves_within_tick (rnd : nat -> Q) (fuel idx i : nat)
    (w w' : Ecosystem) (c : Creature) :
  tape_ok rnd -> wf w ->
  creatures w !! idx = Some i -> heap w !! i = Some c ->
  energy c - (1 # 2) <= ENERGY_THRESHOLD_FOR_DEATH ->
  manage_loop rnd (S fuel) idx w = Ok w' ->
  i ∉ creatures w'.
Proof.
  intros Hr Hw Hidx Hc He H. rewrite (manage_loop_step rnd fuel idx w i Hidx) in H.
  assert (Hi : i ∈ creatures w) by (eapply list_elem_of_lookup_2; eauto).
  destruct (update_removes_dead i w c Hc Hi ltac:(apply Hw) He)
    as (w1 & H1 & Hout & _).
  rewrite H1 in H. cbn [bind] in H.
  destruct (seekFood rnd i w1) as [w2 |] eqn:H2; [| discriminate].
  cbn [bind] in H.
  pose proof (update_wf _ _ _ H1 Hw) as Hw1.
  destruct (update_effect i w w1 c Hc H1) as [Hh1 _].
  assert (Hlt : (i < length (heap w))%nat) by (eapply lookup_lt_Some; eauto).
  assert (Hc1 : heap w1 !! i = Some (ticked c)).
  { rewrite Hh1. now apply list_lookup_insert_eq. }
  destruct (seekFood_effect rnd i w1 w2 (ticked c) Hr Hc1 H2)
    as (births & Hcr & _ & _ & _ & _ & Hfresh & Hlen).
  rewrite Hh1, length_insert in Hfresh, Hlen.
  apply (manage_loop_stays_out rnd fuel (S idx) i w2 w' Hr);
    [eapply seekFood_wf; eauto | lia | | exact H].
  rewrite Hcr. intros [Hin | Hin]%elem_of_app; [contradiction |].
  specialize (Hfresh i Hin). lia.
Qed.

(** ** The properties at work on the examples *)

Lemma adam_in_world : in_world (position adam).
Proof.
  unfold in_world, SCREEN_WIDTH, SCREEN_HEIGHT, adam. cbn [position fst snd]. lra.
Qed.

Lemma eve_in_world : in_world (position eve).
Proof.
  unfold in_world, SCREEN_WIDTH, SCREEN_HEIGHT, eve. cbn [position fst snd]. lra.
Qed.

Lemma pair_with_food_wf : wf pair_with_food.
Proof.
  unfold wf, pair_with_food. cbn [heap creatures foods length].
  split.
  { repeat constructor; cbn; try lia;
      first [apply adam_in_world | apply eve_in_world]. }
  split; [repeat constructor; cbn; lia |].
  split; [| unfold max_food_count; lia].
  apply NoDup_cons. split; [| apply NoDup_singleton].
  intros H. apply list_elem_of_singleton in H. discriminate.
Qed.

Lemma moves_stay_in_world_witness :
  in_world (position (moveRandomly tape_half adam 0))
  /\ in_world (position (moveTowards adam (300, 100)))
  /\ Qabs (fst (position (moveRandomly tape_half adam 0)) - fst (position adam))
     <= 10
  /\ Qabs (snd (position (moveRandomly tape_half adam 0)) - snd (position adam))
     <= 10.
Proof.
  destruct (moves_stay_in_world tape_half adam 0 (300, 100)) as (H1 & H2 & H3).
  split; [exact H1 |]. split; [exact H2 |].
  apply H3; [exact tape_half_ok | exact adam_in_world].
Defined.

Lemma manage_total_witness :
  exists w', manage tape_half pair_with_food = Ok w' /\ wf w'.
Proof.
  apply (manage_total tape_half pair_with_food).
  - exact tape_half_ok.
  - exact pair_with_food_wf.
Defined.

Lemma reachable_wf_witness : wf (Ecosystem_init tape_half).
Proof.
  apply (reachable_wf tape_half (Ecosystem_init tape_half)).
  - exact tape_half_ok.
  - apply reachable_init.
Defined.

Lemma last_meal_wf : wf last_meal.
Proof.
  unfold wf, last_meal. cbn [heap creatures foods length].
  split.
  { repeat constructor; cbn; try lia;
      unfold SCREEN_WIDTH, SCREEN_HEIGHT; lra. }
  split; [repeat constructor; cbn; lia |].
  split; [apply NoDup_singleton | unfold max_food_count; lia].
Qed.

Lemma dead_leaves_within_tick_witness :
  exists w',
    manage_loop tape_half 5 0 last_meal = Ok w' /\ (0%nat ∉ creatures w').
Proof.
  eexists. split; [vm_compute; reflexivity |].
  apply (dead_leaves_within_tick tape_half 4 0 0 last_meal _ starving).
  - exact tape_half_ok.
  - exact last_meal_wf.
  - reflexivity.
  - reflexivity.
  - unfold ENERGY_THRESHOLD_FOR_DEATH, starving. cbn [energy]. lra.
  - vm_compute. reflexivity.
Defined.

Lemma graveyard_wf : wf graveyard.
Proof.
  unfold wf, graveyard. cbn [heap creatures foods length].
  split.
  { repeat constructor; cbn; try lia;
      unfold SCREEN_WIDTH, SCREEN_HEIGHT; lra. }
  split; [constructor |].
  split; [apply NoDup_nil_2 | unfold max_food_count; lia].
Qed.

Lemma manage_stays_out_witness :
  exists w',
    manage tape_half graveyard = Ok w'
    /\ (0 < length (heap w'))%nat /\ (0%nat ∉ creatures w').
Proof.
  eexists. split; [vm_compute; reflexivity |].
  apply (manage_stays_out tape_half 0 graveyard).
  - exact tape_half_ok.
  - exact graveyard_wf.
  - cbn. lia.
  - cbn. apply not_elem_of_nil.
  - vm_compute. reflexivity.
Defined.

(** ** Choosing the nearest *)

Lemma py_min_by_least {A} (key : A -> Q) (best : A) (l : list A) :
  forall x, x ∈ best :: l -> key (py_min_by key best l) <= key x.
Proof.
  revert best. induction l as [| y l IH]; intros best x Hx; cbn [py_min_by].
  - apply list_elem_of_singleton in Hx. subst x. lra.
  - destruct (Qltb (key y) (key best)) eqn:E.
    + apply Qltb_spec in E.
      apply elem_of_cons in Hx as [-> | Hx].
      * apply Qle_trans with (key y); [| lra].
        apply IH. apply list_elem_of_here.
      * apply IH. exact Hx.
    + apply Qltb_false in E.
      apply elem_of_cons in Hx as [-> | Hx]; [apply IH; apply list_elem_of_here |].
      apply elem_of_cons in Hx as [-> | Hx].
      * apply Qle_trans with (key best); [| exact E].
        apply IH. apply list_elem_of_here.
      * apply IH. now right.
Qed.

Lemma zip_seq_lookup {A} (s : nat) (l : list A) (k : nat) (x : A) :
  (k, x) ∈ zip (seq s (length l)) l -> (s <= k)%nat /\ l !! (k - s)%nat = Some x.
Proof.
  revert s. induction l as [| y l IH]; intros s H; cbn in H.
  - inversion H.
  - apply elem_of_cons in H as [H | H].
    + inversion H; subst. rewrite Nat.sub_diag. split; [lia | reflexivity].
    + destruct (IH (S s) H) as [Hle Hl]. split; [lia |].
      replace (k - s)%nat with (S (k - S s)) by lia. exact Hl.
Qed.

Lemma zip_seq_elem {A} (s : nat) (l : list A) (x : A) :
  x ∈ l -> exists k, (k, x) ∈ zip (seq s (length l)) l.
Proof.
  revert s. induction l as [| y l IH]; intros s H; [inversion H |].
  apply elem_of_cons in H as [-> | H].
  - exists s. cbn. apply list_elem_of_here.
  - destruct (IH (S s) H) as [k Hk]. exists k. cbn. now right.
Qed.

(** The food [forage] goes for: an item of the collection, at its index,
    and none is nearer. *)
Lemma forage_target (c : Creature) (f0 : Food.t) (fs : list Food.t) :
  let key := fun kf : nat * Food.t => distance_to c (Food.position (snd kf)) in
  let kf := py_min_by key (O, f0) (zip (seq 1 (length fs)) fs) in
  (f0 :: fs) !! fst kf = Some (snd kf)
  /\ forall f, f ∈ f0 :: fs ->
       distance_to c (Food.position (snd kf)) <= distance_to c (Food.position f).
Proof.
  intros key kf. split.
  - assert (H : kf ∈ (O, f0) :: zip (seq 1 (length fs)) fs)
      by apply py_min_by_elem.
    apply elem_of_cons in H as [H | H].
    + rewrite H. reflexivity.
    + destruct kf as [k f]. destruct (zip_seq_lookup 1 fs k f H) as [Hle Hl].
      cbn [fst snd]. replace k with (S (k - 1)) by lia. exact Hl.
  - intros f Hf.
    assert (H : exists k, (k, f) ∈ (O, f0) :: zip (seq 1 (length fs)) fs).
    { apply elem_of_cons in Hf as [-> | Hf].
      - exists O. apply list_elem_of_here.
      - destruct (zip_seq_elem 1 fs f Hf) as [k Hk]. exists k. now right. }
    destruct H as [k Hk].
    apply (py_min_by_least key (O, f0) _ (k, f) Hk).
Qed.

(** ** Foraging *)

Lemma forage_spec (i : nat) (c : Creature) (f0 : Food.t) (fs : list Food.t)
    (w : Ecosystem) :
  foods w = f0 :: fs ->
  exists k ft,
    foods w !! k = Some ft
    /\ (forall f, f ∈ foods w ->
          distance_to c (Food.position ft) <= distance_to c (Food.position f))
    /\ forage i c f0 fs w =
       let c1 := moveTowards c (Food.position ft) in
       if Food.isOverlapping ft (position c1)
       then mkEcosystem (<[i := eat_food c1 ft]> (heap w)) (creatures w)
              (delete k (foods w)) (cursor w)
       else mkEcosystem (<[i := c1]> (heap w)) (creatures w) (foods w)
              (cursor w).
Proof.
  intros Ef. destruct (forage_target c f0 fs) as [Hk Hmin].
  cbv zeta in Hk, Hmin. unfold forage.
  destruct (py_min_by _ _ _) as [k ft]. cbn [fst snd] in Hk, Hmin.
  exists k, ft. rewrite Ef. split; [exact Hk |]. split; [exact Hmin |].
  cbv zeta. destruct (Food.isOverlapping _ _).
  - unfold store, set_foods, set_heap. cbn [heap creatures foods cursor].
    now rewrite list_insert_insert_eq, Ef.
  - unfold store, set_heap. now rewrite Ef.
Qed.

(** X6: a creature that is not out to mate (hunger below 50, or a cooldown
    running), with food present, goes for a nearest food item: [seekFood]
    moves it towards that item and touches nothing else; if the move
    brings it within the 10-unit box of the item it eats it (the energy
    content is added, the hunger drops by 50 but not below 0, and that
    item, no other, leaves the food collection); otherwise the food is
    left as it was.  No creature is born and no draw is taken. *)
Theorem seekFood_forages (rnd : nat -> Q) (i : nat) (w : Ecosystem)
    (c : Creature) :
  heap w !! i = Some c -> foods w <> [] ->
  (hunger c < 50)%Z \/ (0 < reproduction_cooldown c)%Z ->
  exists w' k ft,
    seekFood rnd i w = Ok w'
    /\ foods w !! k = Some ft
    /\ (forall f, f ∈ foods w ->
          distance_to c (Food.position ft) <= distance_to c (Food.position f))
    /\ creatures w' = creatures w /\ cursor w' = cursor w
    /\ (forall j, j <> i -> heap w' !! j = heap w !! j)
    /\ let c1 := moveTowards c (Food.position ft) in
       if Food.isOverlapping ft (position c1)
       then heap w' !! i = Some (eat_food c1 ft)
            /\ energy (eat_food c1 ft)
               == energy c + inject_Z (Food.energyContent ft)
            /\ hunger (eat_food c1 ft) = Z.max 0 (hunger c - 50)
            /\ foods w' = delete k (foods w)
            /\ S (length (foods w')) = length (foods w)
       else heap w' !! i = Some c1 /\ foods w' = foods w.
Proof.
  intros Hc Hf Hmood.
  assert (Hi : (i < length (heap w))%nat) by (eapply lookup_lt_Some; eauto).
  destruct (foods w) as [| f0 fs] eqn:Efoods; [contradiction |].
  assert (Hrun : seekFood rnd i w = Ok (forage i c f0 fs w)).
  { unfold seekFood, deref. rewrite Hc, Efoods. cbn [bind].
    replace ((50 <=? hunger c)%Z && (reproduction_cooldown c <=? 0)%Z)
      with false; [reflexivity |].
    symmetry. apply andb_false_iff.
    destruct Hmood; [left; apply Z.leb_gt | right; apply Z.leb_gt]; lia. }
  destruct (forage_spec i c f0 fs w Efoods) as (k & ft & Hk & Hmin & Hfor).
  rewrite Efoods in Hk, Hmin.
  exists (forage i c f0 fs w), k, ft.
  split; [exact Hrun |]. split; [exact Hk |]. split; [exact Hmin |].
  rewrite Hfor. cbv zeta.
  destruct (Food.isOverlapping _ _); cbn [heap creatures foods cursor].
  - split; [reflexivity |]. split; [reflexivity |].
    split; [intros j Hj; now apply list_lookup_insert_ne |].
    split; [now apply list_lookup_insert_eq |].
    split; [reflexivity |]. split; [reflexivity |].
    split; [now rewrite Efoods |].
    rewrite Efoods, length_delete by (rewrite Hk; eauto).
    apply lookup_lt_Some in Hk. cbn [length] in *. lia.
  - split; [reflexivity |]. split; [reflexivity |].
    split; [intros j Hj; now apply list_lookup_insert_ne |].
    split; [now apply list_lookup_insert_eq | now rewrite Efoods].
Qed.

(** ** Mating *)

Lemma deref_all_elem (w : Ecosystem) (l : list nat)
    (all : list (nat * Creature)) :
  deref_all w l = Ok all ->
  forall j c, (j, c) ∈ all <-> j ∈ l /\ heap w !! j = Some c.
Proof.
  revert all. induction l as [| x l IH]; intros all H j c;
    cbn [deref_all] in H.
  - inversion H; subst. split; [intros X | intros [X _]]; inversion X.
  - unfold deref in H. destruct (heap w !! x) as [cx |] eqn:Hx; [| discriminate].
    cbn [bind] in H. destruct (deref_all w l) as [r |]; [| discriminate].
    cbn [bind] in H. inversion H; subst. specialize (IH r eq_refl j c).
    rewrite !elem_of_cons, IH. split.
    + intros [E | [Hj Hc]]; [inversion E; subst; auto | auto].
    + intros [[-> | Hj] Hc]; [left; congruence | right; auto].
Qed.

Lemma eligible_candidate (w : Ecosystem) (c : Creature)
    (all : list (nat * Creature)) (jc : nat * Creature) :
  deref_all w (creatures w) = Ok all ->
  jc ∈ List.filter (eligible_partner c) all
  <-> candidate w c (fst jc) (snd jc).
Proof.
  intros Hall. rewrite list_elem_of_In, List.filter_In, <- list_elem_of_In.
  destruct jc as [j cj]. rewrite (deref_all_elem w _ all Hall j cj).
  unfold candidate, eligible_partner. cbn [fst snd].
  rewrite andb_true_iff, negb_true_iff, Z.leb_le.
  split.
  - intros [[Hj Hc] [Hg Hcd]]. repeat split; auto.
    intros E. apply Gender_eqb_eq in E. congruence.
  - intros (Hj & Hc & Hg & Hcd). repeat split; auto.
    destruct (Gender_eqb (gender cj) (gender c)) eqn:E; [| reflexivity].
    apply Gender_eqb_eq in E. contradiction.
Qed.

(** What [seekFood] does when the creature is out to mate and there is
    food: with the nearest candidate if that one is within reach, else it
    forages. *)
Lemma seekFood_courts (rnd : nat -> Q) (i : nat) (w : Ecosystem)
    (c : Creature) (f0 : Food.t) (fs : list Food.t)
    (all : list (nat * Creature)) :
  heap w !! i = Some c -> foods w = f0 :: fs ->
  (50 <= hunger c)%Z -> (reproduction_cooldown c <= 0)%Z ->
  deref_all w (creatures w) = Ok all ->
  (seekFood rnd i w = Ok (forage i c f0 fs w)
   /\ forall j cj, candidate w c j cj ->
        REPRODUCTION_DISTANCE_THRESHOLD < distance_to c (position cj))
  \/ exists j cj,
       candidate w c j cj
       /\ distance_to c (position cj) <= REPRODUCTION_DISTANCE_THRESHOLD
       /\ (forall j' cj', candidate w c j' cj' ->
             distance_to c (position cj) <= distance_to c (position cj'))
       /\ seekFood rnd i w = reproduce rnd i j w.
Proof.
  intros Hc Hf Hh Hcd Hall.
  unfold seekFood, deref. rewrite Hc, Hf, Hall. cbn [bind].
  replace (50 <=? hunger c)%Z with true by (symmetry; now apply Z.leb_le).
  replace (reproduction_cooldown c <=? 0)%Z with true
    by (symmetry; now apply Z.leb_le).
  cbn [andb].
  pose proof (eligible_candidate w c all) as Hel.
  destruct (List.filter (eligible_partner c) all) as [| p0 ps] eqn:Hfil.
  { left. split; [reflexivity |]. intros j cj Hcand.
    apply (Hel (j, cj) Hall) in Hcand. inversion Hcand. }
  set (key := fun jc : nat * Creature => distance_to c (position (snd jc))).
  set (partner := py_min_by key p0 ps).
  assert (Hp : partner ∈ p0 :: ps) by apply py_min_by_elem.
  assert (Hmin : forall j' cj', candidate w c j' cj' ->
            key partner <= distance_to c (position cj')).
  { intros j' cj' Hcand. apply (Hel (j', cj') Hall) in Hcand.
    apply (py_min_by_least key p0 ps (j', cj') Hcand). }
  destruct (Qle_bool (distance_to c (position (snd partner)))
              REPRODUCTION_DISTANCE_THRESHOLD) eqn:E.
  - right. exists (fst partner), (snd partner).
    apply Qle_bool_iff in E.
    split; [now apply (Hel partner Hall) |]. split; [exact E |].
    split; [exact Hmin | reflexivity].
  - left. split; [reflexivity |]. intros j cj Hcand.
    specialize (Hmin j cj Hcand). unfold key in Hmin.
    destruct (Qlt_le_dec REPRODUCTION_DISTANCE_THRESHOLD
                (distance_to c (position cj))) as [H | H]; [exact H |].
    assert (Hle : distance_to c (position (snd partner))
                  <= REPRODUCTION_DISTANCE_THRESHOLD) by lra.
    apply Qle_bool_iff in Hle. congruence.
Qed.

Lemma forage_creatures (i : nat) (c : Creature) (f0 : Food.t)
    (fs : list Food.t) (w : Ecosystem) :
  creatures (forage i c f0 fs w) = creatures w.
Proof.
  destruct (forage_run i c f0 fs w) as (c' & fs' & -> & _). reflexivity.
Qed.

(** X7: births come from mating only, and mating is choosy.  If [seekFood]
    changes the live collection, then there was food, the creature had
    hunger 50 or more and no cooldown running, and it reproduced with a
    creature of the live collection of the other gender, with no cooldown
    running, at most 10 units away, than which no such creature was
    nearer. *)
Theorem seekFood_births_only_by_mating (rnd : nat -> Q) (i : nat)
    (w w' : Ecosystem) (c : Creature) :
  heap w !! i = Some c -> seekFood rnd i w = Ok w' ->
  creatures w' <> creatures w ->
  foods w <> [] /\ (50 <= hunger c)%Z /\ (reproduction_cooldown c <= 0)%Z
  /\ exists j cj,
       candidate w c j cj
       /\ distance_to c (position cj) <= REPRODUCTION_DISTANCE_THRESHOLD
       /\ (forall j' cj', candidate w c j' cj' ->
             distance_to c (position cj) <= distance_to c (position cj'))
       /\ reproduce rnd i j w = Ok w'.
Proof.
  intros Hc Hrun Hne.
  destruct (foods w) as [| f0 fs] eqn:Ef.
  { rewrite (seekFood_no_food rnd i w c Hc Ef) in Hrun.
    inversion Hrun; subst. exfalso. apply Hne. reflexivity. }
  destruct (Z.leb_spec 50 (hunger c)) as [Hh | Hh].
  2: { rewrite (seekFood_forage rnd i w c f0 fs Hc Ef Hh) in Hrun.
       inversion Hrun; subst. exfalso. apply Hne. apply forage_creatures. }
  destruct (Z.leb_spec (reproduction_cooldown c) 0) as [Hcd | Hcd].
  2: { exfalso. apply Hne.
       unfold seekFood, deref in Hrun. rewrite Hc, Ef in Hrun.
       cbn [bind] in Hrun.
       replace (reproduction_cooldown c <=? 0)%Z with false in Hrun
         by (symmetry; apply Z.leb_gt; lia).
       rewrite andb_false_r in Hrun. inversion Hrun; subst.
       apply forage_creatures. }
  destruct (deref_all w (creatures w)) as [all |] eqn:Hall.
  2: { unfold seekFood, deref in Hrun. rewrite Hc, Ef, Hall in Hrun.
       cbn [bind] in Hrun.
       replace (50 <=? hunger c)%Z with true in Hrun
         by (symmetry; now apply Z.leb_le).
       replace (reproduction_cooldown c <=? 0)%Z with true in Hrun
         by (symmetry; now apply Z.leb_le).
       discriminate. }
  split; [discriminate |]. split; [exact Hh |]. split; [exact Hcd |].
  destruct (seekFood_courts rnd i w c f0 fs all Hc Ef Hh Hcd Hall)
    as [[E _] | (j & cj & Hcand & Hd & Hmin & E)].
  - rewrite E in Hrun. inversion Hrun; subst. exfalso. apply Hne.
    apply forage_creatures.
  - exists j, cj. rewrite <- E. auto.
Qed.

(** X8: a creature with hunger 50 or more and no cooldown running, when
    there is food and a candidate within 10 units, does not forage: it
    reproduces with the nearest candidate.  Both get the cooldown 275, the
    creature stays where it is, one to three newborns join the live
    collection and the food is left alone. *)
Theorem seekFood_mates_within_reach (rnd : nat -> Q) (i : nat)
    (w : Ecosystem) (c : Creature) (j0 : nat) (c0 : Creature) :
  tape_ok rnd ->
  Forall (fun k => (k < length (heap w))%nat) (creatures w) ->
  heap w !! i = Some c -> foods w <> [] ->
  (50 <= hunger c)%Z -> (reproduction_cooldown c <= 0)%Z ->
  candidate w c j0 c0 ->
  distance_to c (position c0) <= REPRODUCTION_DISTANCE_THRESHOLD ->
  exists j cj w' news,
    candidate w c j cj
    /\ (forall j' cj', candidate w c j' cj' ->
          distance_to c (position cj) <= distance_to c (position cj'))
    /\ seekFood rnd i w = Ok w'
    /\ heap w' !! i
       = Some (set_reproduction_cooldown REPRODUCTION_COOLDOWN c)
    /\ heap w' !! j
       = Some (set_reproduction_cooldown REPRODUCTION_COOLDOWN cj)
    /\ creatures w' = creatures w ++ news
    /\ (1 <= length news <= 3)%nat
    /\ foods w' = foods w.
Proof.
  intros Hr Hv Hc Hf Hh Hcd Hcand0 Hd0.
  destruct (foods w) as [| f0 fs] eqn:Ef; [contradiction |].
  destruct (deref_all_total w _ Hv) as [all Hall].
  destruct (seekFood_courts rnd i w c f0 fs all Hc Ef Hh Hcd Hall)
    as [[_ Hfar] | (j & cj & Hcand & Hd & Hmin & E)].
  { specialize (Hfar j0 c0 Hcand0). lra. }
  destruct Hcand as (Hj & Hcj & Hg & Hcdj).
  destruct (reproduce_offspring rnd i j w c cj (fun _ => True) Hc Hcj
              ltac:(congruence) Hcd Hcdj (fun _ => I))
    as (w' & news & Hrun & Hi' & Hj' & Hcr & Hlen & _ & _ & Hfo).
  exists j, cj, w', news.
  split; [repeat split; auto |]. split; [exact Hmin |].
  split; [now rewrite E |]. split; [exact Hi' |]. split; [exact Hj' |].
  split; [exact Hcr |]. split; [| now rewrite Hfo, Ef].
  rewrite Hlen. pose proof (randint_range rnd 1 3 (cursor w) Hr ltac:(lia)).
  lia.
Qed.

(** ** What reproduction costs and what it gives *)

(** X9: reproduction is free for the parents and invisible to everybody
    else.  A call of [reproduce] that passes the guard changes nothing of
    the two parents but the cooldown (energy, hunger, position and speed
    are what they were), leaves every other creature and the food as they
    were, and only adds objects to the store. *)
Theorem reproduce_is_free (rnd : nat -> Q) (i j : nat) (w : Ecosystem)
    (a b : Creature) :
  heap w !! i = Some a -> heap w !! j = Some b ->
  gender a <> gender b ->
  (reproduction_cooldown a <= 0)%Z -> (reproduction_cooldown b <= 0)%Z ->
  exists w' a' b',
    reproduce rnd i j w = Ok w'
    /\ heap w' !! i = Some a' /\ heap w' !! j = Some b'
    /\ set_reproduction_cooldown (reproduction_cooldown a) a' = a
    /\ set_reproduction_cooldown (reproduction_cooldown b) b' = b
    /\ (forall k, k <> i -> k <> j -> (k < length (heap w))%nat ->
          heap w' !! k = heap w !! k)
    /\ (length (heap w) <= length (heap w'))%nat
    /\ foods w' = foods w.
Proof.
  intros Ha Hb Hg Hca Hcb.
  destruct (reproduce_accepted rnd i j w a b Ha Hb Hg Hca Hcb)
    as (w' & kids & Hrun & Hij & Hlen & Hheap & Hcr & Hfoods & Hkids).
  assert (Hi : (i < length (heap w))%nat) by (eapply lookup_lt_Some; eauto).
  assert (Hj : (j < length (heap w))%nat) by (eapply lookup_lt_Some; eauto).
  exists w'. do 2 eexists. split; [exact Hrun |]. rewrite Hheap.
  split.
  { rewrite lookup_app_l by (rewrite 2!length_insert; exact Hi).
    rewrite list_lookup_insert_ne by auto.
    apply list_lookup_insert_eq. exact Hi. }
  split.
  { rewrite lookup_app_l by (rewrite 2!length_insert; exact Hj).
    apply list_lookup_insert_eq. rewrite length_insert. exact Hj. }
  split; [now destruct a |]. split; [now destruct b |].
  split.
  { intros k Hki Hkj Hk.
    rewrite lookup_app_l by (rewrite 2!length_insert; exact Hk).
    now rewrite 2!list_lookup_insert_ne by auto. }
  split; [rewrite length_app, 2!length_insert; lia | exact Hfoods].
Qed.






(** ** Ticks without food *)

Lemma updates_snoc (n i : nat) (w : Ecosystem) :
  updates (S n) i w = (w <- updates n i w ;; update i w).
Proof.
  revert w. induction n as [| n IH]; intros w.
  - cbn [updates bind]. destruct (update i w); reflexivity.
  - change (updates (S (S n)) i w) with (w1 <- update i w ;; updates (S n) i w1).
    cbn [updates]. destruct (update i w) as [w1 |]; [| reflexivity].
    cbn [bind]. apply IH.
Qed.

Lemma aged_rings (n : nat) (c : Creature) :
  (0 <= reproduction_cooldown c)%Z ->
  hunger (Nat.iter n ticked c) = (hunger c + Z.of_nat n)%Z
  /\ energy (Nat.iter n ticked c) == energy c - (1 # 2) * inject_Z (Z.of_nat n)
  /\ reproduction_cooldown (Nat.iter n ticked c)
     = Z.max 0 (reproduction_cooldown c - Z.of_nat n)
  /\ position (Nat.iter n ticked c) = position c
  /\ gender (Nat.iter n ticked c) = gender c
  /\ generation (Nat.iter n ticked c) = generation c.
Proof.
  intros Hcd. induction n as [| n (Hh & He & Hc & Hp & Hg & Hge)].
  - change (Nat.iter 0 ticked c) with c. split; [lia |].
    split; [change (inject_Z (Z.of_nat 0)) with 0; ring |].
    split; [lia | auto].
  - change (Nat.iter (S n) ticked c) with (ticked (Nat.iter n ticked c)).
    unfold ticked at 1 3 5 7 9 11.
    cbn [hunger energy reproduction_cooldown position gender generation].
    rewrite Hh, He, Hc, Hp, Hg, Hge.
    split; [lia |]. split.
    { rewrite Nat2Z.inj_succ. unfold Z.succ. rewrite inject_Z_plus.
      change (inject_Z 1) with 1. ring. }
    split; [| auto].
    destruct (0 <? Z.max 0 (reproduction_cooldown c - Z.of_nat n))%Z eqn:E;
      [apply Z.ltb_lt in E | apply Z.ltb_ge in E]; lia.
Qed.

Lemma inject_nat_succ (n : nat) :
  inject_Z (Z.of_nat (S n)) == inject_Z (Z.of_nat n) + 1.
Proof. rewrite Nat2Z.inj_succ. unfold Z.succ. now rewrite inject_Z_plus. Qed.

Lemma inject_nat_nonneg (n : nat) : 0 <= inject_Z (Z.of_nat n).
Proof. change 0 with (inject_Z 0). rewrite <- Zle_Qle. lia. Qed.

Lemma updates_run (n i : nat) (w : Ecosystem) (c : Creature) :
  heap w !! i = Some c ->
  ENERGY_THRESHOLD_FOR_DEATH < energy c - (1 # 2) * inject_Z (Z.of_nat n) ->
  updates n i w = Ok (set_heap (<[i := Nat.iter n ticked c]> (heap w)) w).
Proof.
  revert w c. induction n as [| n IH]; intros w c Hc He.
  - cbn [updates]. change (Nat.iter 0 ticked c) with c.
    rewrite list_insert_id by exact Hc. now destruct w.
  - pose proof (inject_nat_succ n) as Hn.
    pose proof (inject_nat_nonneg n) as Hn0.
    rewrite Hn in He.
    cbn [updates]. rewrite (update_survives i w c Hc) by lra.
    cbn [bind]. rewrite (IH _ (ticked c)).
    + unfold store, set_heap. cbn [heap creatures foods cursor].
      rewrite list_insert_insert_eq. now rewrite <- Nat.iter_succ_r.
    + eapply store_lookup; eauto.
    + unfold ticked at 1. cbn [energy]. lra.
Qed.

(** X11: [n] ticks of a creature that does not die of them.  Its hunger
    has grown by [n], its energy has dropped by [n / 2], its cooldown has
    counted down by [n] and stopped at 0 (so after reproducing, the
    cooldown test fails for 274 ticks and passes from the 275th on), it has
    not moved, and the live collection and the food are as they were. *)
Theorem updates_survive (n i : nat) (w : Ecosystem) (c : Creature) :
  heap w !! i = Some c -> (0 <= reproduction_cooldown c)%Z ->
  ENERGY_THRESHOLD_FOR_DEATH < energy c - (1 # 2) * inject_Z (Z.of_nat n) ->
  exists w' c',
    updates n i w = Ok w'
    /\ heap w' = <[i := c']> (heap w)
    /\ creatures w' = creatures w /\ foods w' = foods w
    /\ hunger c' = (hunger c + Z.of_nat n)%Z
    /\ energy c' == energy c - (1 # 2) * inject_Z (Z.of_nat n)
    /\ reproduction_cooldown c'
       = Z.max 0 (reproduction_cooldown c - Z.of_nat n)
    /\ ((reproduction_cooldown c' <=? 0)%Z = true
        <-> (reproduction_cooldown c <= Z.of_nat n)%Z)
    /\ position c' = position c.
Proof.
  intros Hc Hcd He.
  destruct (aged_rings n c Hcd) as (Hh & Hen & Hco & Hp & _).
  exists (set_heap (<[i := Nat.iter n ticked c]> (heap w)) w),
    (Nat.iter n ticked c).
  split; [now apply updates_run |].
  split; [reflexivity |]. split; [reflexivity |]. split; [reflexivity |].
  split; [exact Hh |]. split; [exact Hen |]. split; [exact Hco |].
  split; [| exact Hp]. rewrite Hco, Z.leb_le. lia.
Qed.

(** X12: starving.  A creature of the live collection that gets no food
    survives every tick that leaves its energy above -300 and is removed
    by the first tick that does not: with energy [e], after [n] ticks it
    is still there if [e - n/2 > -300], and the next tick removes it if
    [e - (n+1)/2 <= -300].  A founder (energy 100) that never eats is
    removed by its 800th tick. *)
Theorem starvation (n i : nat) (w : Ecosystem) (c : Creature) :
  heap w !! i = Some c -> i ∈ creatures w -> NoDup (creatures w) ->
  ENERGY_THRESHOLD_FOR_DEATH < energy c - (1 # 2) * inject_Z (Z.of_nat n) ->
  energy c - (1 # 2) * inject_Z (Z.of_nat (S n)) <= ENERGY_THRESHOLD_FOR_DEATH ->
  (forall m, (m <= n)%nat ->
     exists wm, updates m i w = Ok wm /\ i ∈ creatures wm)
  /\ exists w', updates (S n) i w = Ok w' /\ (i ∉ creatures w').
Proof.
  intros Hc Hi Hnd Hlive Hdead.
  pose proof (inject_nat_succ n) as Hn.
  split.
  - intros m Hm. eexists. split.
    + apply (updates_run m i w c Hc).
      assert (inject_Z (Z.of_nat m) <= inject_Z (Z.of_nat n))
        by (rewrite <- Zle_Qle; lia).
      lra.
    + exact Hi.
  - rewrite updates_snoc, (updates_run n i w c Hc Hlive). cbn [bind].
    set (w1 := set_heap _ w).
    assert (Hc1 : heap w1 !! i = Some (Nat.iter n ticked c)).
    { unfold w1. cbn [heap set_heap]. apply list_lookup_insert_eq.
      now apply lookup_lt_Some in Hc. }
    destruct (update_removes_dead i w1 _ Hc1 Hi Hnd) as (w' & Hw' & Hout & _).
    + destruct (Z.le_gt_cases 0 (reproduction_cooldown c)) as [Hcd | Hcd].
      * destruct (aged_rings n c Hcd) as (_ & Hen & _). rewrite Hen, Hn in *.
        lra.
      * clear - Hdead Hn. rewrite Hn in Hdead.
        assert (He : energy (Nat.iter n ticked c)
                     == energy c - (1 # 2) * inject_Z (Z.of_nat n)).
        { clear. induction n as [| n IH].
          - change (Nat.iter 0 ticked c) with c.
            change (inject_Z (Z.of_nat 0)) with 0. ring.
          - change (Nat.iter (S n) ticked c)
              with (ticked (Nat.iter n ticked c)).
            unfold ticked at 1. cbn [energy].
            rewrite IH, inject_nat_succ. ring. }
        rewrite He. lra.
    + eauto.
Qed.

(** ** The living *)

Lemma live_insert (w w' : Ecosystem) (i j : nat) (c' : Creature) :
  heap w' = <[i := c']> (heap w) ->
  (forall c, heap w !! i = Some c -> j = i ->
     ENERGY_THRESHOLD_FOR_DEATH < energy c -> ENERGY_THRESHOLD_FOR_DEATH < energy c') ->
  live w j -> live w' j.
Proof.
  intros Hh He (c & Hc & Hlive). unfold live. rewrite Hh.
  destruct (decide (j = i)) as [-> | Hne].
  - exists c'. split; [| eauto].
    apply list_lookup_insert_eq. now apply lookup_lt_Some in Hc.
  - exists c. now rewrite list_lookup_insert_ne by auto.
Qed.

Lemma ticked_fit (c : Creature) :
  (0 <= hunger c)%Z -> creature_fit c -> creature_fit (ticked c).
Proof.
  intros Hh [Hcd _]. split.
  - unfold ticked. cbn [reproduction_cooldown].
    destruct (0 <? reproduction_cooldown c)%Z; lia.
  - right. apply (adjust_speed_clamp (set_hunger (hunger c + 1) c)). cbn. lia.
Qed.

Lemma update_thriving (i : nat) (w w' : Ecosystem) :
  update i w = Ok w' -> wf w -> thriving w -> thriving w'.
Proof.
  intros H Hw (Hfit & Hlive & Hfood).
  destruct (heap w !! i) as [c |] eqn:Hc.
  2: { unfold update, deref in H. rewrite Hc in H. discriminate. }
  destruct (wf_lookup w i c Hw Hc) as (_ & Hh & _).
  assert (Hfc : creature_fit c).
  { rewrite Forall_lookup in Hfit. eauto. }
  rewrite (update_run i w c Hc) in H.
  destruct (Qle_bool (energy c - (1 # 2)) ENERGY_THRESHOLD_FOR_DEATH) eqn:E.
  - destruct (die_heap _ _ _ H) as (Eh & Ef & _ & Hrm).
    cbn [store heap creatures foods set_heap] in Eh, Ef, Hrm.
    destruct (list_remove_split _ _ _ Hrm) as (pre & post & El & Er & Hpre).
    destruct Hw as (_ & _ & Hnd & _). rewrite El in Hnd, Hlive.
    apply NoDup_app in Hnd as (_ & _ & Hnd). apply NoDup_cons in Hnd as [Hpost _].
    apply Forall_app in Hlive as [Hl1 Hl2]. apply Forall_cons in Hl2 as [_ Hl2].
    unfold thriving. rewrite Eh, Ef, Er.
    split; [apply Forall_insert; auto using ticked_fit |].
    split; [| exact Hfood].
    apply Forall_app. split.
    + rewrite Forall_forall in Hl1 |- *. intros j Hj.
      apply (live_insert w w' i j (ticked c) Eh); [| auto].
      intros c0 _ Eji _. subst j. contradiction.
    + rewrite Forall_forall in Hl2 |- *. intros j Hj.
      apply (live_insert w w' i j (ticked c) Eh); [| auto].
      intros c0 _ Eji _. subst j. contradiction.
  - inversion H; subst w'. clear H.
    assert (He : ENERGY_THRESHOLD_FOR_DEATH < energy (ticked c)).
    { unfold ticked. cbn [energy].
      destruct (Qlt_le_dec ENERGY_THRESHOLD_FOR_DEATH (energy c - (1 # 2)))
        as [Hlt | Hle]; [exact Hlt |].
      apply Qle_bool_iff in Hle. congruence. }
    unfold thriving. cbn [store heap creatures foods set_heap].
    split; [apply Forall_insert; auto using ticked_fit |].
    split; [| exact Hfood].
    rewrite Forall_forall in Hlive |- *. intros j Hj.
    apply (live_insert w (store i (ticked c) w) i j (ticked c) eq_refl);
      auto.
Qed.

Lemma moveRandomly_fit (rnd : nat -> Q) (c : Creature) (k : nat) :
  creature_fit c -> creature_fit (moveRandomly rnd c k).
Proof. intros H. exact H. Qed.

Lemma moveTowards_fit (c : Creature) (t : Position) :
  creature_fit c -> creature_fit (moveTowards c t).
Proof. intros H. exact H. Qed.

Lemma eat_food_fit (c : Creature) (f : Food.t) :
  creature_fit c -> creature_fit (eat_food c f).
Proof.
  intros [Hcd Hs]. split; [exact Hcd |].
  unfold eat_food. cbn [hunger speed set_hunger set_energy].
  destruct Hs as [-> | Hs]; [left; reflexivity | right; exact Hs].
Qed.

Lemma seekFood_thriving (rnd : nat -> Q) (i : nat) (w w' : Ecosystem) :
  seekFood rnd i w = Ok w' -> wf w -> thriving w -> thriving w'.
Proof.
  intros H Hw (Hfit & Hlive & Hfood).
  destruct (seekFood_cases _ _ _ _ H) as (c & Hc & [Hcase | [Hcase | Hcase]]).
  - destruct Hcase as (_ & ->).
    assert (Hfc : creature_fit c) by (rewrite Forall_lookup in Hfit; eauto).
    unfold thriving. cbn [store heap creatures foods set_heap set_cursor].
    split; [apply Forall_insert; auto using moveRandomly_fit |].
    split; [| exact Hfood].
    rewrite Forall_forall in Hlive |- *. intros j Hj.
    eapply (live_insert w _ i j (moveRandomly rnd c (cursor w))); eauto.
    intros c0 E _. rewrite Hc in E. inversion E; subst. auto.
  - destruct Hcase as (f0 & fs & Hf & ->).
    assert (Hfc : creature_fit c) by (rewrite Forall_lookup in Hfit; eauto).
    destruct (forage_spec i c f0 fs w Hf) as (k & ft & Hk & _ & ->).
    assert (Hft : fresh_food ft) by (rewrite Forall_lookup in Hfood; eauto).
    cbv zeta. unfold thriving.
    destruct (Food.isOverlapping _ _); cbn [heap creatures foods].
    + split; [apply Forall_insert;
                auto using eat_food_fit, moveTowards_fit |].
      split; [| now apply Forall_delete].
      rewrite Forall_forall in Hlive |- *. intros j Hj.
      eapply (live_insert w _ i j); [reflexivity | | auto].
      intros c0 E _. rewrite Hc in E. inversion E; subst c0.
      unfold eat_food, moveTowards.
      cbn [energy set_hunger set_energy set_position].
      destruct Hft as [[H3 _] _]. rewrite Zle_Qle in H3.
      change (inject_Z 3) with 3 in H3. lra.
    + split; [apply Forall_insert; auto using moveTowards_fit |].
      split; [| exact Hfood].
      rewrite Forall_forall in Hlive |- *. intros j Hj.
      eapply (live_insert w _ i j); [reflexivity | | auto].
      intros c0 E _. rewrite Hc in E. inversion E; subst c0. auto.
  - destruct Hcase as (j & cj & _ & _ & _ & Hrep).
    destruct (reproduce_cases _ _ _ _ _ Hrep) as [-> | Hacc];
      [split; auto |].
    destruct Hacc as (a & b & Ha & Hb & Hg & Hca & Hcb).
    destruct (reproduce_accepted rnd i j w a b Ha Hb Hg Hca Hcb)
      as (w2 & kids & Hrun & Hij & Hlen & Hheap & Hcr & Hfoods & Hkids).
    rewrite Hrun in Hrep. inversion Hrep; subst w2. clear Hrep Hrun.
    assert (Hfa : creature_fit a) by (rewrite Forall_lookup in Hfit; eauto).
    assert (Hfb : creature_fit b) by (rewrite Forall_lookup in Hfit; eauto).
    assert (Hi : (i < length (heap w))%nat) by (eapply lookup_lt_Some; eauto).
    assert (Hj : (j < length (heap w))%nat) by (eapply lookup_lt_Some; eauto).
    unfold thriving. rewrite Hcr, Hfoods.
    split.
    { rewrite Hheap. apply Forall_app. split.
      - apply Forall_insert; [apply Forall_insert |]; auto;
          (split; [cbn; lia |]); [apply Hfa | apply Hfb].
      - eapply Forall_impl; [exact Hkids |]. intros c0 [k ->].
        split; [cbn; unfold REPRODUCTION_COOLDOWN; lia | left; reflexivity]. }
    split; [| exact Hfood].
    apply Forall_app. split.
    + rewrite Forall_forall in Hlive |- *. intros x Hx.
      destruct (Hlive x Hx) as (cx & Hcx & Hex). unfold live. rewrite Hheap.
      assert (Hxl : (x < length (heap w))%nat) by (eapply lookup_lt_Some; eauto).
      rewrite lookup_app_l by (rewrite 2!length_insert; exact Hxl).
      destruct (decide (x = j)) as [-> | Hxj].
      { rewrite list_lookup_insert_eq by (rewrite length_insert; exact Hj).
        eexists. split; [reflexivity |].
        rewrite Hb in Hcx. inversion Hcx; subst. exact Hex. }
      rewrite list_lookup_insert_ne by auto.
      destruct (decide (x = i)) as [-> | Hxi].
      { rewrite list_lookup_insert_eq by exact Hi.
        eexists. split; [reflexivity |].
        rewrite Ha in Hcx. inversion Hcx; subst. exact Hex. }
      rewrite list_lookup_insert_ne by auto. eauto.
    + apply Forall_seq. intros x Hx. unfold live. rewrite Hheap.
      rewrite lookup_app_r by (rewrite 2!length_insert; lia).
      rewrite 2!length_insert.
      destruct (lookup_lt_is_Some_2 kids (x - length (heap w))) as [cx Hcx];
        [lia |].
      exists cx. split; [exact Hcx |].
      rewrite Forall_lookup in Hkids. destruct (Hkids _ _ Hcx) as [k ->].
      unfold newborn, ENERGY_THRESHOLD_FOR_DEATH. cbn [energy].
      apply Qlt_le_trans with (inject_Z 10); [reflexivity |].
      rewrite <- Zle_Qle. lia.
Qed.

Lemma manage_loop_thriving (rnd : nat -> Q) (fuel idx : nat)
    (w w' : Ecosystem) :
  manage_loop rnd fuel idx w = Ok w' -> wf w -> thriving w -> thriving w'.
Proof.
  revert idx w. induction fuel as [| fuel IH]; intros idx w H Hw Ht;
    cbn [manage_loop] in H; [discriminate |].
  destruct (creatures w !! idx) as [i |]; [| now inversion H; subst].
  destruct (update i w) as [w1 |] eqn:H1; [| discriminate]. cbn [bind] in H.
  destruct (seekFood rnd i w1) as [w2 |] eqn:H2; [| discriminate].
  cbn [bind] in H.
  pose proof (update_wf _ _ _ H1 Hw) as Hw1.
  pose proof (update_thriving _ _ _ H1 Hw Ht) as Ht1.
  eapply IH; [exact H | |].
  - eapply seekFood_wf; eauto.
  - eapply seekFood_thriving; eauto.
Qed.

Lemma spawn_food_thriving (rnd : nat -> Q) (w : Ecosystem) :
  tape_ok rnd -> thriving w -> thriving (spawn_food rnd w).
Proof.
  intros Hr (Hfit & Hlive & Hfood).
  destruct (spawn_food_loop_spec rnd fresh_food max_food_count w)
    as (new & Hnew & _ & E); [intros k; now apply spawned_fresh | lia |].
  unfold spawn_food. rewrite E. unfold thriving, live.
  cbn [heap creatures foods].
  split; [exact Hfit |]. split; [exact Hlive |].
  apply Forall_app. auto.
Qed.

Lemma manage_thriving (rnd : nat -> Q) (w w' : Ecosystem) :
  tape_ok rnd -> manage rnd w = Ok w' -> wf w -> thriving w -> thriving w'.
Proof.
  unfold manage. intros Hr H Hw Ht.
  destruct (manage_loop rnd (manage_fuel w) 0 w) as [w1 |] eqn:H1;
    [| discriminate].
  cbn [bind] in H. inversion H; subst.
  apply spawn_food_thriving; [exact Hr |].
  eapply manage_loop_thriving; eauto.
Qed.

Lemma founder_thriving (rnd : nat -> Q) (w : Ecosystem) :
  Forall (fun i => (i < length (heap w))%nat) (creatures w) ->
  thriving w -> thriving (founder rnd w).
Proof.
  intros Hv (Hfit & Hlive & Hfood). unfold founder, thriving.
  cbn [Creature_init alloc heap creatures foods cursor set_cursor set_heap
       set_creatures].
  split.
  { apply Forall_app. split; [exact Hfit |]. constructor; [| constructor].
    split; [cbn; unfold REPRODUCTION_COOLDOWN; lia | left; reflexivity]. }
  split; [| exact Hfood].
  apply Forall_app. split.
  - rewrite Forall_forall in Hlive, Hv |- *. intros j Hj.
    destruct (Hlive j Hj) as (c & Hc & He). unfold live.
    cbn [heap set_creatures set_heap set_cursor]. exists c. split; [| exact He].
    rewrite lookup_app_l by (apply (Hv j Hj)). exact Hc.
  - constructor; [| constructor]. unfold live.
    cbn [heap set_creatures set_heap set_cursor]. eexists. split.
    + rewrite lookup_app_r by lia. rewrite Nat.sub_diag. reflexivity.
    + reflexivity.
Qed.

Lemma Ecosystem_init_both (rnd : nat -> Q) :
  tape_ok rnd -> wf (Ecosystem_init rnd) /\ thriving (Ecosystem_init rnd).
Proof.
  intros Hr. unfold Ecosystem_init.
  assert (H0 : wf (mkEcosystem [] [] [] 0) /\ thriving (mkEcosystem [] [] [] 0)).
  { split; [| repeat split; constructor].
    unfold wf. cbn. repeat split; try constructor. unfold max_food_count. lia. }
  generalize 10%nat. intros n. induction n as [| n [IHw IHt]]; [exact H0 |].
  change (Nat.iter (S n) (founder rnd) (mkEcosystem [] [] [] 0))
    with (founder rnd (Nat.iter n (founder rnd) (mkEcosystem [] [] [] 0))).
  split; [now apply founder_wf |].
  apply founder_thriving; [apply IHw | exact IHt].
Qed.

(** X13: the living are alive.  In every state of a run, every creature of
    the live collection has energy above -300; every creature ever made has
    a cooldown of at most 275 and, unless its hunger is 0, a speed between
    1 and 5; and every food item has an integer energy content from 3 to 7
    and an integer position in [0, 790] x [0, 590]. *)
Theorem reachable_thriving (rnd : nat -> Q) (w : Ecosystem) :
  tape_ok rnd -> reachable rnd w -> thriving w.
Proof.
  intros Hr H.
  assert (Hboth : wf w /\ thriving w).
  { induction H as [| w w' _ [IHw IHt] H].
    - now apply Ecosystem_init_both.
    - split; [eapply manage_wf | eapply manage_thriving]; eauto. }
  apply Hboth.
Qed.

(** ** Who a tick leaves alone *)

Lemma same_but_cooldown_trans (a b c : Creature) :
  same_but_cooldown a b -> same_but_cooldown b c -> same_but_cooldown a c.
Proof.
  unfold same_but_cooldown, set_reproduction_cooldown. destruct a, b, c.
  cbn. intros H1 H2. injection H1 as -> -> -> -> -> ->.
  injection H2 as -> -> -> -> -> ->. reflexivity.
Qed.

Lemma same_but_cooldown_refl (c : Creature) : same_but_cooldown c c.
Proof. unfold same_but_cooldown. now destruct c. Qed.

(** The two ways out of [seekFood]: the creature alone is rewritten, or it
    reproduced with a candidate. *)
Lemma seekFood_outcome (rnd : nat -> Q) (i : nat) (w w' : Ecosystem)
    (c : Creature) :
  heap w !! i = Some c -> seekFood rnd i w = Ok w' ->
  (creatures w' = creatures w /\ exists c', heap w' = <[i := c']> (heap w))
  \/ exists j cj, candidate w c j cj /\ reproduce rnd i j w = Ok w'.
Proof.
  intros Hc Hrun.
  assert (Hfor : forall f0 fs, w' = forage i c f0 fs w ->
            creatures w' = creatures w
            /\ exists c', heap w' = <[i := c']> (heap w)).
  { intros f0 fs ->.
    destruct (forage_run i c f0 fs w) as (c' & fs' & -> & _). eauto. }
  destruct (foods w) as [| f0 fs] eqn:Ef.
  { rewrite (seekFood_no_food rnd i w c Hc Ef) in Hrun.
    inversion Hrun; subst. left. split; [reflexivity | eexists; reflexivity]. }
  destruct (Z.leb_spec 50 (hunger c)) as [Hh | Hh].
  2: { rewrite (seekFood_forage rnd i w c f0 fs Hc Ef Hh) in Hrun.
       inversion Hrun; subst. left. eapply Hfor; eauto. }
  destruct (Z.leb_spec (reproduction_cooldown c) 0) as [Hcd | Hcd].
  2: { left. apply (Hfor f0 fs).
       unfold seekFood, deref in Hrun. rewrite Hc, Ef in Hrun.
       cbn [bind] in Hrun.
       replace (reproduction_cooldown c <=? 0)%Z with false in Hrun
         by (symmetry; apply Z.leb_gt; lia).
       rewrite andb_false_r in Hrun. now inversion Hrun. }
  destruct (deref_all w (creatures w)) as [all |] eqn:Hall.
  2: { unfold seekFood, deref in Hrun. rewrite Hc, Ef, Hall in Hrun.
       cbn [bind] in Hrun.
       replace (50 <=? hunger c)%Z with true in Hrun
         by (symmetry; now apply Z.leb_le).
       replace (reproduction_cooldown c <=? 0)%Z with true in Hrun
         by (symmetry; now apply Z.leb_le).
       discriminate. }
  destruct (seekFood_courts rnd i w c f0 fs all Hc Ef Hh Hcd Hall)
    as [[E _] | (j & cj & Hcand & _ & _ & E)].
  - rewrite E in Hrun. inversion Hrun; subst. left. eapply Hfor; eauto.
  - right. exists j, cj. rewrite <- E. auto.
Qed.

Lemma seekFood_others (rnd : nat -> Q) (i : nat) (w w' : Ecosystem)
    (c : Creature) (x : nat) (cx : Creature) :
  heap w !! i = Some c -> seekFood rnd i w = Ok w' ->
  x <> i -> heap w !! x = Some cx ->
  exists cx', heap w' !! x = Some cx' /\ same_but_cooldown cx cx'
              /\ (x ∉ creatures w -> cx' = cx).
Proof.
  intros Hc Hrun Hxi Hx.
  assert (Hsame : heap w' !! x = heap w !! x ->
            exists cx', heap w' !! x = Some cx' /\ same_but_cooldown cx cx'
                        /\ (x ∉ creatures w -> cx' = cx)).
  { intros E. exists cx. rewrite E.
    split; [exact Hx |]. split; [apply same_but_cooldown_refl | auto]. }
  destruct (seekFood_outcome rnd i w w' c Hc Hrun)
    as [(_ & c' & Hh) | (j & cj & Hcand & Hrep)].
  - apply Hsame. rewrite Hh. now apply list_lookup_insert_ne.
  - destruct (reproduce_cases _ _ _ _ _ Hrep) as [-> | Hacc]; [now apply Hsame |].
    destruct Hacc as (a & b & Ha & Hb & Hg & Hca & Hcb).
    destruct (reproduce_accepted rnd i j w a b Ha Hb Hg Hca Hcb)
      as (w2 & kids & Hrun2 & Hij & _ & Hheap & _).
    rewrite Hrun2 in Hrep. inversion Hrep; subst w2. clear Hrep Hrun2.
    assert (Hxl : (x < length (heap w))%nat) by (eapply lookup_lt_Some; eauto).
    rewrite Hheap.
    rewrite lookup_app_l by (rewrite 2!length_insert; exact Hxl).
    destruct (decide (x = j)) as [-> | Hxj].
    + rewrite list_lookup_insert_eq by (rewrite length_insert; exact Hxl).
      eexists. split; [reflexivity |].
      rewrite Hb in Hx. inversion Hx; subst cx.
      split; [unfold same_but_cooldown; now destruct b |].
      intros Hout. destruct Hcand as [Hj _]. contradiction.
    + rewrite 2!list_lookup_insert_ne by auto.
      exists cx. split; [exact Hx |].
      split; [apply same_but_cooldown_refl | auto].
Qed.

(** The live collection after one round of the loop at [idx]: what is left
    to visit is what was left before, without its head and perhaps without
    the next (when the visited creature died), followed by the newborns. *)
Lemma round_shape (rnd : nat -> Q) (idx i : nat) (w w1 w2 : Ecosystem) :
  tape_ok rnd -> wf w -> creatures w !! idx = Some i ->
  update i w = Ok w1 -> seekFood rnd i w1 = Ok w2 ->
  exists births e,
    drop (S idx) (creatures w2)
    = drop e (drop (S idx) (creatures w) ++ births)
    /\ (e <= 1)%nat
    /\ (e = 1%nat <-> i ∉ creatures w1)
    /\ (forall y, y ∈ births -> (length (heap w) <= y)%nat)
    /\ (forall y, y <> i ->
          (y ∈ creatures w2 <-> y ∈ creatures w \/ y ∈ births))
    /\ (length (heap w) <= length (heap w2))%nat.
Proof.
  intros Hr Hw Hidx Hup Hsf.
  destruct Hw as (_ & Hv & Hnd & _).
  pose proof (take_drop_middle _ _ _ Hidx) as HL.
  set (pre := take idx (creatures w)) in *.
  set (post := drop (S idx) (creatures w)) in *.
  assert (Hpre : length pre = idx).
  { unfold pre. rewrite length_take. apply lookup_lt_Some in Hidx. lia. }
  rewrite <- HL in Hnd, Hv.
  apply NoDup_app in Hnd as (_ & Hipre & Hnd).
  apply NoDup_cons in Hnd as [Hipost _].
  assert (Hipre' : i ∉ pre).
  { intros Hin. apply (Hipre i Hin). apply list_elem_of_here. }
  apply Forall_app in Hv as [_ Hv]. apply Forall_cons in Hv as [Hi _].
  destruct (lookup_lt_is_Some_2 _ _ Hi) as [c Hc].
  destruct (update_effect i w w1 c Hc Hup) as [Hh1 Hc1].
  assert (Hc1' : heap w1 !! i = Some (ticked c)).
  { rewrite Hh1. now apply list_lookup_insert_eq. }
  destruct (seekFood_effect rnd i w1 w2 (ticked c) Hr Hc1' Hsf)
    as (births & Hcr & _ & _ & _ & _ & Hfresh & Hlen).
  rewrite Hh1, length_insert in Hfresh, Hlen.
  destruct Hc1 as [E1 | Hrm].
  - exists births, 0%nat. rewrite Hcr, E1.
    split.
    { rewrite <- HL at 1. rewrite <- app_assoc. cbn [app].
      replace (S idx) with (length (pre ++ [i]))
        by (rewrite length_app; cbn; lia).
      replace (pre ++ i :: post ++ births)
        with ((pre ++ [i]) ++ post ++ births) by (now rewrite <- app_assoc).
      now rewrite drop_app_length. }
    split; [lia |].
    split.
    { split; [discriminate |]. intros Hout. exfalso. apply Hout.
      rewrite <- HL. apply elem_of_app. right. apply list_elem_of_here. }
    split; [exact Hfresh |]. split; [| exact Hlen].
    intros y _. now rewrite elem_of_app.
  - rewrite <- HL in Hrm. rewrite list_remove_middle in Hrm by exact Hipre'.
    injection Hrm as E. exists births, 1%nat. rewrite Hcr, <- E.
    split.
    { replace (S idx) with (length pre + 1)%nat by lia.
      now rewrite <- app_assoc, drop_app_add. }
    split; [lia |].
    split.
    { split; [intros _ | reflexivity].
      intros [Hin | Hin]%elem_of_app; contradiction. }
    split; [exact Hfresh |]. split; [| exact Hlen].
    intros y Hy. rewrite <- HL, !elem_of_app, elem_of_cons.
    split; [intros [[? | ?] | ?]; auto | intros [[? | [? | ?]] | ?]; auto].
    contradiction.
Qed.

(** A creature that the loop is past (or never had in the collection) keeps
    every field but the cooldown, which a later suitor may set; it stays in
    or out of the live collection as it was. *)
Lemma manage_loop_frame (rnd : nat -> Q) (fuel idx x : nat) (cx : Creature)
    (w w' : Ecosystem) :
  tape_ok rnd -> wf w ->
  heap w !! x = Some cx -> x ∉ drop idx (creatures w) ->
  manage_loop rnd fuel idx w = Ok w' ->
  exists cx', heap w' !! x = Some cx' /\ same_but_cooldown cx cx'
              /\ (x ∈ creatures w' <-> x ∈ creatures w)
              /\ (x ∉ creatures w -> cx' = cx).
Proof.
  intros Hr. revert idx w cx. induction fuel as [| fuel IH];
    intros idx w cx Hw Hx Hout H; cbn [manage_loop] in H; [discriminate |].
  destruct (creatures w !! idx) as [i |] eqn:Hidx.
  2: { inversion H; subst. exists cx.
       split; [exact Hx |]. split; [apply same_but_cooldown_refl |].
       split; [reflexivity | auto]. }
  destruct (update i w) as [w1 |] eqn:H1; [| discriminate]. cbn [bind] in H.
  destruct (seekFood rnd i w1) as [w2 |] eqn:H2; [| discriminate].
  cbn [bind] in H.
  pose proof (update_wf _ _ _ H1 Hw) as Hw1.
  pose proof (seekFood_wf _ _ _ _ H2 Hw1) as Hw2.
  destruct (round_shape rnd idx i w w1 w2 Hr Hw Hidx H1 H2)
    as (births & e & Hdrop & _ & _ & Hfresh & Hmem & _).
  assert (Hsplit : drop idx (creatures w) = i :: drop (S idx) (creatures w)).
  { now apply drop_S. }
  rewrite Hsplit in Hout. apply not_elem_of_cons in Hout as [Hxi Hout].
  assert (Hxl : (x < length (heap w))%nat) by (eapply lookup_lt_Some; eauto).
  assert (Hxb : x ∉ births).
  { intros Hin. specialize (Hfresh x Hin). lia. }
  assert (Hi : i ∈ creatures w) by (eapply list_elem_of_lookup_2; eauto).
  destruct Hw as (_ & Hv & _). rewrite Forall_forall in Hv.
  destruct (lookup_lt_is_Some_2 _ _ (Hv i Hi)) as [c Hc].
  destruct (update_effect i w w1 c Hc H1) as [Hh1 Hc1].
  assert (Hc1' : heap w1 !! i = Some (ticked c)).
  { rewrite Hh1. apply list_lookup_insert_eq. now apply lookup_lt_Some in Hc. }
  assert (Hx1 : heap w1 !! x = Some cx).
  { rewrite Hh1. now rewrite list_lookup_insert_ne by auto. }
  assert (Hsub : x ∈ creatures w1 -> x ∈ creatures w).
  { destruct Hc1 as [-> | Hrm]; [auto |].
    destruct (list_remove_split _ _ _ Hrm) as (pre & post & El & Er & _).
    rewrite El, Er, !elem_of_app, elem_of_cons. intros [? | ?]; auto. }
  destruct (seekFood_others rnd i w1 w2 (ticked c) x cx Hc1' H2 Hxi Hx1)
    as (cx2 & Hx2 & Hs2 & Hsame2).
  assert (Hout2 : x ∉ drop (S idx) (creatures w2)).
  { rewrite Hdrop. intros Hin. apply list_elem_of_lookup in Hin as [k Hk].
    rewrite lookup_drop in Hk. apply list_elem_of_lookup_2 in Hk.
    apply elem_of_app in Hk as [Hk | Hk]; contradiction. }
  destruct (IH (S idx) w2 cx2 Hw2 Hx2 Hout2 H) as (cx' & Hx' & Hs' & Hm' & Hsame').
  exists cx'. split; [exact Hx' |].
  split; [eapply same_but_cooldown_trans; eauto |].
  assert (Hm2 : x ∈ creatures w2 <-> x ∈ creatures w).
  { rewrite (Hmem x Hxi). split; [intros [? | ?]; [auto | contradiction] | auto]. }
  split; [now rewrite Hm', Hm2 |].
  intros Hnot. rewrite Hsame', Hsame2; [reflexivity | auto |].
  now rewrite Hm2.
Qed.

(** The creature after one that dies during its visit is not visited. *)
Lemma manage_loop_skips (rnd : nat -> Q) (fuel idx i j : nat) (c cj : Creature)
    (w w' : Ecosystem) :
  tape_ok rnd -> wf w ->
  creatures w !! idx = Some i -> creatures w !! S idx = Some j ->
  heap w !! i = Some c -> heap w !! j = Some cj ->
  energy c - (1 # 2) <= ENERGY_THRESHOLD_FOR_DEATH ->
  manage_loop rnd fuel idx w = Ok w' ->
  exists cj', heap w' !! j = Some cj' /\ same_but_cooldown cj cj'
              /\ j ∈ creatures w' /\ (i ∉ creatures w').
Proof.
  intros Hr Hw Hidx Hnext Hc Hcj He H.
  destruct fuel as [| fuel]; cbn [manage_loop] in H; [discriminate |].
  rewrite Hidx in H.
  destruct (update i w) as [w1 |] eqn:H1; [| discriminate]. cbn [bind] in H.
  destruct (seekFood rnd i w1) as [w2 |] eqn:H2; [| discriminate].
  cbn [bind] in H.
  pose proof (update_wf _ _ _ H1 Hw) as Hw1.
  pose proof (seekFood_wf _ _ _ _ H2 Hw1) as Hw2.
  assert (Hi : i ∈ creatures w) by (eapply list_elem_of_lookup_2; eauto).
  assert (Hj : j ∈ creatures w) by (eapply list_elem_of_lookup_2; eauto).
  pose proof Hw as (_ & Hv & Hnd & _).
  destruct (update_removes_dead i w c Hc Hi Hnd He) as (w1' & H1' & Hgone & _).
  rewrite H1 in H1'. inversion H1'; subst w1'. clear H1'.
  destruct (round_shape rnd idx i w w1 w2 Hr Hw Hidx H1 H2)
    as (births & e & Hdrop & _ & [_ He1] & Hfresh & Hmem & Hlen).
  specialize (He1 Hgone). subst e.
  pose proof (take_drop_middle _ _ _ Hidx) as HL.
  assert (Hrest : drop (S idx) (creatures w)
                  = j :: drop (S (S idx)) (creatures w)).
  { now apply drop_S. }
  rewrite Hrest in HL, Hdrop. cbn [app drop] in Hdrop. rewrite drop_0 in Hdrop.
  rewrite <- HL in Hnd. apply NoDup_app in Hnd as (_ & _ & Hnd).
  apply NoDup_cons in Hnd as [Hij Hnd]. apply NoDup_cons in Hnd as [Hjr _].
  assert (Hji : j <> i).
  { intros ->. apply Hij. apply list_elem_of_here. }
  assert (Hjl : (j < length (heap w))%nat) by (eapply lookup_lt_Some; eauto).
  assert (Hjb : j ∉ births).
  { intros Hin. specialize (Hfresh j Hin). lia. }
  destruct (update_effect i w w1 c Hc H1) as [Hh1 _].
  assert (Hc1' : heap w1 !! i = Some (ticked c)).
  { rewrite Hh1. apply list_lookup_insert_eq. now apply lookup_lt_Some in Hc. }
  assert (Hj1 : heap w1 !! j = Some cj).
  { rewrite Hh1. now rewrite list_lookup_insert_ne by auto. }
  destruct (seekFood_others rnd i w1 w2 (ticked c) j cj Hc1' H2 Hji Hj1)
    as (cj2 & Hj2 & Hs2 & _).
  assert (Hout2 : j ∉ drop (S idx) (creatures w2)).
  { rewrite Hdrop. intros [Hin | Hin]%elem_of_app; contradiction. }
  destruct (manage_loop_frame rnd fuel (S idx) j cj2 w2 w' Hr Hw2 Hj2 Hout2 H)
    as (cj' & Hj' & Hs' & Hm' & _).
  exists cj'. split; [exact Hj' |].
  split; [eapply same_but_cooldown_trans; eauto |].
  split; [rewrite Hm', (Hmem j Hji); auto |].
  assert (Hil : (i < length (heap w2))%nat).
  { apply lookup_lt_Some in Hc. lia. }
  assert (Hiout : i ∉ creatures w2).
  { destruct (seekFood_effect rnd i w1 w2 (ticked c) Hr Hc1' H2)
      as (births' & Hcr & _ & _ & _ & _ & Hfresh' & _).
    rewrite Hcr. intros [Hin | Hin]%elem_of_app; [contradiction |].
    specialize (Hfresh' i Hin). rewrite Hh1, length_insert in Hfresh'.
    apply lookup_lt_Some in Hc. lia. }
  now destruct (manage_loop_stays_out rnd fuel (S idx) i w2 w' Hr Hw2 Hil Hiout H).
Qed.

(** ** One visit for each creature *)

Lemma same_but_cooldown_fields (c c' : Creature) :
  same_but_cooldown c c' ->
  energy c' = energy c /\ position c' = position c /\ gender c' = gender c
  /\ generation c' = generation c /\ hunger c' = hunger c
  /\ speed c' = speed c.
Proof.
  unfold same_but_cooldown, set_reproduction_cooldown. destruct c, c'. cbn.
  intros H. injection H as -> -> -> -> -> ->. auto 10.
Qed.

Lemma visited_ticked (fs : list Food.t) (c c1 c' : Creature) :
  dined fs (ticked c) c1 -> same_but_cooldown c1 c' -> visited fs c c'.
Proof.
  intros (Hg & Hn & Hs & Hd) Hsame.
  destruct (same_but_cooldown_fields _ _ Hsame) as (He' & _ & Hg' & Hn' & Hh' & Hs').
  unfold visited. rewrite He', Hg', Hn', Hh', Hs', Hg, Hn, Hs.
  cbn [ticked gender generation speed energy hunger] in *.
  split; [reflexivity |]. split; [reflexivity |]. split; [reflexivity |].
  destruct Hd as [[-> ->] | (ft & Hin & -> & ->)]; [left; auto |].
  right. exists ft. auto.
Qed.

Lemma visited_later (fs fs' : list Food.t) (c c1 c' : Creature) :
  same_but_cooldown c c1 -> visited fs' c1 c' ->
  (forall f, f ∈ fs' -> f ∈ fs) -> visited fs c c'.
Proof.
  intros Hsame (Hg & Hn & Hs & Hd) Hsub.
  destruct (same_but_cooldown_fields _ _ Hsame) as (He' & _ & Hg' & Hn' & Hh' & _).
  unfold visited. rewrite <- He', <- Hg', <- Hn', <- Hh'.
  split; [exact Hg |]. split; [exact Hn |]. split; [exact Hs |].
  destruct Hd as [Hd | (ft & Hin & Hd)]; [left; exact Hd |].
  right. exists ft. split; [auto | exact Hd].
Qed.

Lemma visited_cooldown (fs : list Food.t) (c c1 c' : Creature) :
  visited fs c c1 -> same_but_cooldown c1 c' -> visited fs c c'.
Proof.
  intros Hv Hsame.
  destruct (same_but_cooldown_fields _ _ Hsame) as (He' & _ & Hg' & Hn' & Hh' & Hs').
  unfold visited. rewrite He', Hg', Hn', Hh', Hs'. exact Hv.
Qed.

Lemma update_foods (i : nat) (w w1 : Ecosystem) :
  update i w = Ok w1 -> foods w1 = foods w.
Proof.
  intros H. destruct (heap w !! i) as [c |] eqn:Hc.
  - rewrite (update_run i w c Hc) in H. destruct (Qle_bool _ _).
    + now destruct (die_heap _ _ _ H) as (_ & -> & _).
    + now inversion H.
  - unfold update, deref in H. rewrite Hc in H. discriminate.
Qed.

Lemma seekFood_self (rnd : nat -> Q) (i : nat) (w w' : Ecosystem)
    (c : Creature) :
  heap w !! i = Some c -> seekFood rnd i w = Ok w' ->
  (forall f, f ∈ foods w' -> f ∈ foods w)
  /\ exists c', heap w' !! i = Some c' /\ dined (foods w) c c'.
Proof.
  intros Hc Hrun.
  assert (Hi : (i < length (heap w))%nat) by (eapply lookup_lt_Some; eauto).
  destruct (seekFood_cases _ _ _ _ Hrun) as (c0 & Hc0 & Hcase).
  rewrite Hc in Hc0. inversion Hc0; subst c0. clear Hc0.
  destruct Hcase as [(Ef & ->) | [(f0 & fs & Ef & ->) | (j & cj & _ & _ & _ & Hrep)]].
  - split; [auto |]. eexists. split.
    + cbn [heap set_cursor store set_heap]. now apply list_lookup_insert_eq.
    + unfold dined. cbn. auto 10.
  - destruct (forage_spec i c f0 fs w Ef) as (k & ft & Hk & _ & ->).
    cbv zeta. destruct (Food.isOverlapping _ _); cbn [heap foods].
    + split.
      { intros f Hin. eapply elem_of_sublist; [exact Hin |].
        apply sublist_delete. }
      eexists. split; [now apply list_lookup_insert_eq |].
      unfold dined. cbn [eat_food moveTowards set_energy set_hunger
        set_position gender generation speed energy hunger].
      split; [reflexivity |]. split; [reflexivity |]. split; [reflexivity |].
      right. exists ft. split; [eapply list_elem_of_lookup_2; eauto | auto].
    + split; [auto |]. eexists.
      split; [now apply list_lookup_insert_eq |].
      unfold dined. cbn. auto 10.
  - destruct (reproduce_cases _ _ _ _ _ Hrep) as [-> | Hacc].
    { split; [auto |]. exists c. split; [exact Hc |]. unfold dined. auto 10. }
    destruct Hacc as (a & b & Ha & Hb & Hg & Hca & Hcb).
    destruct (reproduce_accepted rnd i j w a b Ha Hb Hg Hca Hcb)
      as (w2 & kids & Hrun2 & Hij & _ & Hheap & _ & Hfoods & _).
    rewrite Hrun2 in Hrep. inversion Hrep; subst w2. clear Hrep Hrun2.
    rewrite Hfoods. split; [auto |].
    rewrite Hc in Ha. inversion Ha; subst a.
    eexists. split.
    + rewrite Hheap.
      rewrite lookup_app_l by (rewrite 2!length_insert; exact Hi).
      rewrite list_lookup_insert_ne by auto.
      now apply list_lookup_insert_eq.
    + unfold dined. destruct c. cbn. auto 10.
Qed.

(** Every object of the store is left alone by the loop (but for the
    cooldown), or visited once. *)
Lemma manage_loop_once (rnd : nat -> Q) (fuel idx x : nat) (cx : Creature)
    (w w' : Ecosystem) :
  tape_ok rnd -> wf w -> heap w !! x = Some cx ->
  manage_loop rnd fuel idx w = Ok w' ->
  exists cx', heap w' !! x = Some cx'
              /\ (same_but_cooldown cx cx' \/ visited (foods w) cx cx').
Proof.
  intros Hr. revert idx w cx. induction fuel as [| fuel IH];
    intros idx w cx Hw Hx H; cbn [manage_loop] in H; [discriminate |].
  destruct (creatures w !! idx) as [i |] eqn:Hidx.
  2: { inversion H; subst. exists cx.
       split; [exact Hx | left; apply same_but_cooldown_refl]. }
  destruct (update i w) as [w1 |] eqn:H1; [| discriminate]. cbn [bind] in H.
  destruct (seekFood rnd i w1) as [w2 |] eqn:H2; [| discriminate].
  cbn [bind] in H.
  pose proof (update_wf _ _ _ H1 Hw) as Hw1.
  pose proof (seekFood_wf _ _ _ _ H2 Hw1) as Hw2.
  pose proof (update_foods _ _ _ H1) as Hf1.
  assert (Hi : i ∈ creatures w) by (eapply list_elem_of_lookup_2; eauto).
  pose proof Hw as (_ & Hv & Hnd & _). rewrite Forall_forall in Hv.
  destruct (lookup_lt_is_Some_2 _ _ (Hv i Hi)) as [c Hc].
  destruct (update_effect i w w1 c Hc H1) as [Hh1 _].
  assert (Hc1' : heap w1 !! i = Some (ticked c)).
  { rewrite Hh1. apply list_lookup_insert_eq. now apply lookup_lt_Some in Hc. }
  destruct (seekFood_self rnd i w1 w2 (ticked c) Hc1' H2)
    as (Hsub & c2 & Hc2 & Hdined).
  rewrite Hf1 in Hsub, Hdined.
  destruct (decide (x = i)) as [-> | Hxi].
  - rewrite Hc in Hx. inversion Hx; subst cx. clear Hx.
    destruct (round_shape rnd idx i w w1 w2 Hr Hw Hidx H1 H2)
      as (births & e & Hdrop & _ & _ & Hfresh & _ & _).
    assert (Hout2 : i ∉ drop (S idx) (creatures w2)).
    { rewrite Hdrop. intros Hin. apply list_elem_of_lookup in Hin as [k Hk].
      rewrite lookup_drop in Hk. apply list_elem_of_lookup_2 in Hk.
      apply elem_of_app in Hk as [Hk | Hk].
      - pose proof (take_drop_middle _ _ _ Hidx) as HL.
        rewrite <- HL in Hnd. apply NoDup_app in Hnd as (_ & _ & Hnd).
        apply NoDup_cons in Hnd as [Hnot _]. contradiction.
      - specialize (Hfresh i Hk). apply lookup_lt_Some in Hc. lia. }
    destruct (manage_loop_frame rnd fuel (S idx) i c2 w2 w' Hr Hw2 Hc2 Hout2 H)
      as (c' & Hc' & Hs' & _).
    exists c'. split; [exact Hc' |]. right. eapply visited_ticked; eauto.
  - assert (Hx1 : heap w1 !! x = Some cx).
    { rewrite Hh1. now rewrite list_lookup_insert_ne by auto. }
    destruct (seekFood_others rnd i w1 w2 (ticked c) x cx Hc1' H2 Hxi Hx1)
      as (cx2 & Hx2 & Hs2 & _).
    destruct (IH (S idx) w2 cx2 Hw2 Hx2 H) as (cx' & Hx' & [Hs' | Hv']).
    + exists cx'. split; [exact Hx' |]. left.
      eapply same_but_cooldown_trans; eauto.
    + exists cx'. split; [exact Hx' |]. right.
      eapply visited_later; eauto.
Qed.

(** The live collection at the end of the loop is no longer than what the
    loop is past plus the load of what it has before it. *)
Lemma manage_loop_population (rnd : nat -> Q) (fuel idx : nat)
    (w w' : Ecosystem) :
  tape_ok rnd -> wf w -> manage_loop rnd fuel idx w = Ok w' ->
  (length (creatures w')
   <= length (take idx (creatures w)) + load w (drop idx (creatures w)))%nat.
Proof.
  intros Hr. revert idx w. induction fuel as [| fuel IH];
    intros idx w Hw H; cbn [manage_loop] in H; [discriminate |].
  destruct (creatures w !! idx) as [i |] eqn:Hidx.
  2: { inversion H; subst. apply lookup_ge_None in Hidx.
       rewrite take_ge by exact Hidx. lia. }
  destruct (update i w) as [w1 |] eqn:H1; [| discriminate]. cbn [bind] in H.
  destruct (seekFood rnd i w1) as [w2 |] eqn:H2; [| discriminate].
  cbn [bind] in H.
  pose proof (update_wf _ _ _ H1 Hw) as Hw1.
  pose proof (seekFood_wf _ _ _ _ H2 Hw1) as Hw2.
  pose proof (round_load rnd idx i w w1 w2 Hr Hw Hidx H1 H2) as Hload.
  specialize (IH (S idx) w2 Hw2 H).
  apply lookup_lt_Some in Hidx.
  rewrite length_take in IH |- *. lia.
Qed.

Lemma manage_run (rnd : nat -> Q) (w : Ecosystem) :
  tape_ok rnd -> wf w ->
  exists w1, manage_loop rnd (manage_fuel w) 0 w = Ok w1
             /\ manage rnd w = Ok (spawn_food rnd w1)
             /\ heap (spawn_food rnd w1) = heap w1
             /\ creatures (spawn_food rnd w1) = creatures w1.
Proof.
  intros Hr Hw.
  destruct (manage_loop_total rnd (manage_fuel w) 0 w Hr Hw) as [w1 H1].
  { unfold manage_fuel. rewrite drop_0.
    pose proof (load_bound w (creatures w)). lia. }
  exists w1. split; [exact H1 |].
  split; [unfold manage; now rewrite H1 |].
  destruct (spawn_food_loop_spec rnd (fun _ => True) max_food_count w1)
    as (new & _ & _ & E); [auto | lia |].
  unfold spawn_food. rewrite E. cbn [heap creatures]. auto.
Qed.

(** X14: [manage] never touches a creature that is out of the live
    collection: every field of a dead creature stays as it was. *)
Theorem dead_untouched (rnd : nat -> Q) (x : nat) (cx : Creature)
    (w : Ecosystem) :
  tape_ok rnd -> wf w -> heap w !! x = Some cx -> x ∉ creatures w ->
  exists w', manage rnd w = Ok w' /\ heap w' !! x = Some cx
             /\ (x ∉ creatures w').
Proof.
  intros Hr Hw Hx Hout.
  destruct (manage_run rnd w Hr Hw) as (w1 & H1 & Hm & Hh & Hc).
  exists (spawn_food rnd w1). split; [exact Hm |]. rewrite Hh, Hc.
  destruct (manage_loop_frame rnd (manage_fuel w) 0 x cx w w1 Hr Hw Hx)
    as (cx' & Hx' & _ & Hmem & Hsame);
    [rewrite drop_0; exact Hout | exact H1 |].
  rewrite (Hsame Hout) in Hx'. split; [exact Hx' |]. now rewrite Hmem.
Qed.

(** X15: when the first creature of the live collection dies in its visit,
    the second is not visited in this call of [manage]: the removal moves
    it into the place the loop has just left.  It stays alive and keeps its
    energy, hunger, speed and position (its cooldown may be set by a
    suitor). *)
Theorem death_skips_next (rnd : nat -> Q) (i j : nat) (rest : list nat)
    (c cj : Creature) (w : Ecosystem) :
  tape_ok rnd -> wf w -> creatures w = i :: j :: rest ->
  heap w !! i = Some c -> heap w !! j = Some cj ->
  energy c - (1 # 2) <= ENERGY_THRESHOLD_FOR_DEATH ->
  exists w' cj',
    manage rnd w = Ok w' /\ heap w' !! j = Some cj'
    /\ j ∈ creatures w' /\ (i ∉ creatures w')
    /\ energy cj' = energy cj /\ hunger cj' = hunger cj
    /\ speed cj' = speed cj /\ position cj' = position cj.
Proof.
  intros Hr Hw Hl Hc Hcj He.
  destruct (manage_run rnd w Hr Hw) as (w1 & H1 & Hm & Hh & Hcr).
  destruct (manage_loop_skips rnd (manage_fuel w) 0 i j c cj w w1 Hr Hw)
    as (cj' & Hj' & Hs & Hin & Hout);
    try (rewrite Hl; reflexivity); auto.
  destruct (same_but_cooldown_fields _ _ Hs) as (E1 & E2 & _ & _ & E3 & E4).
  exists (spawn_food rnd w1), cj'. rewrite Hh, Hcr. auto 10.
Qed.

(** X16: in one call of [manage] no creature is visited twice.  Every
    creature of the store, alive or not, comes out with its gender and
    generation, and either with its energy, hunger, speed and position
    (not visited), or with the marks of exactly one visit: half a unit of
    energy less and one unit of hunger more, or that and one meal of the
    food that was there. *)
Theorem one_visit_each (rnd : nat -> Q) (x : nat) (cx : Creature)
    (w : Ecosystem) :
  tape_ok rnd -> wf w -> heap w !! x = Some cx ->
  exists w' cx',
    manage rnd w = Ok w' /\ heap w' !! x = Some cx'
    /\ gender cx' = gender cx /\ generation cx' = generation cx
    /\ ((energy cx' = energy cx /\ hunger cx' = hunger cx
         /\ speed cx' = speed cx /\ position cx' = position cx)
        \/ (energy cx' = energy cx - (1 # 2)
            /\ hunger cx' = (hunger cx + 1)%Z)
        \/ exists ft, ft ∈ foods w
             /\ energy cx'
                = energy cx - (1 # 2) + inject_Z (Food.energyContent ft)
             /\ hunger cx' = Z.max 0 (hunger cx + 1 - 50)).
Proof.
  intros Hr Hw Hx.
  destruct (manage_run rnd w Hr Hw) as (w1 & H1 & Hm & Hh & Hcr).
  destruct (manage_loop_once rnd _ 0 x cx w w1 Hr Hw Hx H1)
    as (cx' & Hx' & Hcase).
  exists (spawn_food rnd w1), cx'. rewrite Hh.
  split; [exact Hm |]. split; [exact Hx' |].
  destruct Hcase as [Hs | (Hg & Hn & _ & Hd)].
  - destruct (same_but_cooldown_fields _ _ Hs) as (E1 & E2 & E3 & E4 & E5 & E6).
    auto 10.
  - split; [exact Hg |]. split; [exact Hn |]. right. exact Hd.
Qed.

(** X17: one call of [manage] adds at most three creatures for each
    creature that enters it with a hunger of 49 or more; so the live
    collection at most quadruples, does not grow when nobody is that
    hungry, and stays empty once it is empty. *)
Theorem population_growth (rnd : nat -> Q) (w : Ecosystem) :
  tape_ok rnd -> wf w ->
  exists w',
    manage rnd w = Ok w'
    /\ (length (creatures w')
        <= length (creatures w)
           + 3 * length (List.filter (hungry w) (creatures w)))%nat
    /\ (length (creatures w') <= 4 * length (creatures w))%nat.
Proof.
  intros Hr Hw.
  destruct (manage_run rnd w Hr Hw) as (w1 & H1 & Hm & _ & Hcr).
  exists (spawn_food rnd w1). split; [exact Hm |]. rewrite Hcr.
  pose proof (manage_loop_population rnd _ 0 w w1 Hr Hw H1) as Hp.
  rewrite take_0, drop_0 in Hp. cbn [length] in Hp. unfold load in Hp.
  split; [lia |].
  pose proof (load_bound w (creatures w)). unfold load in *. lia.
Qed.

(** X18: the main loop never raises: from the initial ecosystem, any number
    of frames leaves a state of a run, with the food at the cap after the
    first frame. *)
Theorem frames_total (rnd : nat -> Q) (n : nat) :
  tape_ok rnd ->
  exists w, frames rnd n (Ecosystem_init rnd) = Ok w /\ reachable rnd w
            /\ wf w
            /\ ((0 < n)%nat -> length (foods w) = max_food_count).
Proof.
  intros Hr.
  assert (Hgen : forall n w0, reachable rnd w0 -> wf w0 ->
            exists w, frames rnd n w0 = Ok w /\ reachable rnd w /\ wf w
                      /\ ((0 < n)%nat \/ length (foods w0) = max_food_count ->
                          length (foods w) = max_food_count)).
  { clear n. induction n as [| n IH]; intros w0 Hreach Hw0.
    - exists w0. cbn [frames]. split; [reflexivity |].
      split; [exact Hreach |]. split; [exact Hw0 |].
      intros [H | H]; [lia | exact H].
    - destruct (manage_run rnd w0 Hr Hw0) as (w1 & H1 & Hm & _).
      assert (Hw1 : wf (spawn_food rnd w1)).
      { apply spawn_food_wf. eapply manage_loop_wf; eauto. }
      destruct (IH (spawn_food rnd w1)) as (w & Hrun & Hreach' & Hw & Hfoods);
        [econstructor; eauto | exact Hw1 |].
      exists w. cbn [frames]. rewrite Hm. cbn [bind].
      split; [exact Hrun |]. split; [exact Hreach' |]. split; [exact Hw |].
      intros _. apply Hfoods. right.
      destruct (spawn_food_loop_spec rnd (fun _ => True) max_food_count w1)
        as (new & _ & Hlen & E); [auto | lia |].
      unfold spawn_food. rewrite E. cbn [foods]. rewrite length_app.
      pose proof (manage_loop_wf _ _ _ _ _ H1 Hw0) as (_ & _ & _ & Hcap).
      lia. }
  destruct (Hgen n (Ecosystem_init rnd)) as (w & H1 & H2 & H3 & H4);
    [constructor | now apply Ecosystem_init_wf |].
  exists w. split; [exact H1 |]. split; [exact H2 |]. split; [exact H3 |].
  intros Hn. apply H4. now left.
Qed.

(** ** The first state *)

Lemma founders_spec (rnd : nat -> Q) (n : nat) :
  tape_ok rnd ->
  let w := Nat.iter n (founder rnd) (mkEcosystem [] [] [] 0) in
  creatures w = seq 0 n /\ length (heap w) = n /\ foods w = []
  /\ cursor w = (3 * n)%nat /\ Forall founding (heap w).
Proof.
  intros Hr. induction n as [| n IH]; cbv zeta.
  { cbn. repeat split; constructor. }
  change (Nat.iter (S n) (founder rnd) (mkEcosystem [] [] [] 0))
    with (founder rnd (Nat.iter n (founder rnd) (mkEcosystem [] [] [] 0))).
  cbv zeta in IH.
  destruct (Nat.iter n (founder rnd) (mkEcosystem [] [] [] 0))
    as [h l fs k]. cbn [heap creatures foods cursor] in IH.
  destruct IH as (-> & Hlen & -> & -> & Hall).
  unfold founder.
  cbn [Creature_init alloc heap creatures foods cursor set_cursor set_heap
       set_creatures].
  split; [rewrite Hlen, seq_S; reflexivity |].
  split; [rewrite length_app; cbn [length]; lia |].
  split; [reflexivity |]. split; [lia |].
  apply Forall_app. split; [exact Hall |]. constructor; [| constructor].
  unfold founding. cbn [energy generation hunger speed reproduction_cooldown
    position].
  do 5 (split; [reflexivity |]).
  eexists _, _. split; [reflexivity |].
  split; apply (randint_range rnd); auto; lia.
Qed.

Lemma list_remove_none (x : nat) (l : list nat) :
  x ∉ l -> list_remove x l = None.
Proof.
  induction l as [| y l IH]; intros Hx; [reflexivity |].
  apply not_elem_of_cons in Hx as [Hxy Hx]. cbn [list_remove].
  apply Nat.eqb_neq in Hxy. rewrite Hxy, (IH Hx). reflexivity.
Qed.

(** X19: [update] on a creature that died in an earlier [update] raises
    the [ValueError] of [list.remove]: the energy is still at the threshold
    or below, so [die] is called again, on a creature that is no longer in
    the live collection. *)
Theorem update_after_death (i : nat) (c : Creature) (w w1 : Ecosystem) :
  heap w !! i = Some c -> i ∈ creatures w ->
  update i w = Ok w1 -> i ∉ creatures w1 ->
  update i w1 = Raise ValueError.
Proof.
  intros Hc Hi H1 Hout.
  assert (Hl : (i < length (heap w))%nat) by (eapply lookup_lt_Some; eauto).
  rewrite (update_run i w c Hc) in H1.
  destruct (Qle_bool (energy c - (1 # 2)) ENERGY_THRESHOLD_FOR_DEATH) eqn:E.
  2: { inversion H1; subst w1. contradiction. }
  apply Qle_bool_iff in E.
  destruct (die_heap _ _ _ H1) as (Hh & _ & _ & _).
  assert (Hc1 : heap w1 !! i = Some (ticked c)).
  { rewrite Hh. cbn [store heap set_heap]. now apply list_lookup_insert_eq. }
  rewrite (update_run i w1 _ Hc1).
  assert (E' : Qle_bool (energy (ticked c) - (1 # 2))
                 ENERGY_THRESHOLD_FOR_DEATH = true).
  { apply Qle_bool_iff. cbn [ticked energy]. lra. }
  rewrite E'. unfold die. cbn [store creatures set_heap].
  now rewrite (list_remove_none i (creatures w1) Hout).
Qed.

(** X20: the ecosystem starts with ten creatures, which are the whole
    store and the live collection in the order of their creation, and no
    food; each of them has energy 100, generation 0, hunger 0, speed 1, no
    cooldown, and integer coordinates inside the world; thirty draws have
    been made. *)
Theorem Ecosystem_init_spec (rnd : nat -> Q) :
  tape_ok rnd ->
  creatures (Ecosystem_init rnd) = seq 0 10
  /\ length (heap (Ecosystem_init rnd)) = 10%nat
  /\ foods (Ecosystem_init rnd) = []
  /\ cursor (Ecosystem_init rnd) = 30%nat
  /\ Forall founding (heap (Ecosystem_init rnd)).
Proof. intros Hr. exact (founders_spec rnd 10 Hr). Qed.

(** ** The further properties at work on the examples *)

Lemma deathbed_wf : wf deathbed.
Proof.
  unfold wf, deathbed. cbn [heap creatures foods length].
  split.
  { repeat constructor; cbn; try lia;
      unfold SCREEN_WIDTH, SCREEN_HEIGHT; lra. }
  split; [repeat constructor; cbn; lia |].
  split; [| unfold max_food_count; lia].
  apply NoDup_cons. split; [| apply NoDup_singleton].
  intros H. apply list_elem_of_singleton in H. discriminate.
Qed.

Lemma eve_candidate : candidate pair_with_food adam 1 eve.
Proof.
  unfold candidate. split; [apply (list_elem_of_lookup_2 _ 1); reflexivity |].
  split; [reflexivity |]. split; [discriminate | cbn; lia].
Qed.

Lemma eve_within_reach :
  distance_to adam (position eve) <= REPRODUCTION_DISTANCE_THRESHOLD.
Proof. apply Qle_bool_iff. vm_compute. reflexivity. Qed.

Lemma seekFood_forages_witness :
  exists w',
    seekFood tape_half 0 food_due_east = Ok w'
    /\ creatures w' = creatures food_due_east
    /\ cursor w' = cursor food_due_east.
Proof.
  destruct (seekFood_forages tape_half 0 food_due_east forager)
    as (w' & k & ft & H1 & _ & _ & H2 & H3 & _).
  - reflexivity.
  - discriminate.
  - left. cbn. lia.
  - exists w'. auto.
Defined.

Lemma seekFood_births_only_by_mating_witness :
  exists w',
    seekFood tape_half 0 pair_with_food = Ok w'
    /\ exists j cj, candidate pair_with_food adam j cj
                    /\ reproduce tape_half 0 j pair_with_food = Ok w'.
Proof.
  eexists. split; [vm_compute; reflexivity |].
  match goal with
  | |- context [reproduce _ _ _ _ = Ok ?w'] =>
      destruct (seekFood_births_only_by_mating tape_half 0 pair_with_food
                  w' adam)
        as (_ & _ & _ & j & cj & H1 & _ & _ & H2)
  end.
  - reflexivity.
  - vm_compute. reflexivity.
  - cbn. discriminate.
  - exists j, cj. auto.
Defined.

Lemma seekFood_mates_within_reach_witness :
  exists w' news,
    seekFood tape_half 0 pair_with_food = Ok w'
    /\ creatures w' = creatures pair_with_food ++ news
    /\ (1 <= length news <= 3)%nat.
Proof.
  destruct (seekFood_mates_within_reach tape_half 0 pair_with_food adam 1 eve)
    as (j & cj & w' & news & _ & _ & H1 & _ & _ & H2 & H3 & _).
  - exact tape_half_ok.
  - repeat constructor; cbn; lia.
  - reflexivity.
  - discriminate.
  - cbn. lia.
  - cbn. lia.
  - exact eve_candidate.
  - exact eve_within_reach.
  - exists w', news. auto.
Defined.

Lemma reproduce_is_free_witness :
  exists w' a' b',
    reproduce tape_half 0 1 pair_with_food = Ok w'
    /\ heap w' !! 0%nat = Some a' /\ heap w' !! 1%nat = Some b'
    /\ energy a' = energy adam /\ energy b' = energy eve
    /\ foods w' = foods pair_with_food.
Proof.
  destruct (reproduce_is_free tape_half 0 1 pair_with_food adam eve)
    as (w' & a' & b' & H1 & H2 & H3 & H4 & H5 & _ & _ & H6).
  - reflexivity.
  - reflexivity.
  - discriminate.
  - cbn. lia.
  - cbn. lia.
  - exists w', a', b'. split; [exact H1 |]. split; [exact H2 |].
    split; [exact H3 |].
    split; [rewrite <- H4; now destruct a' |].
    split; [rewrite <- H5; now destruct b' | exact H6].
Defined.


Lemma updates_survive_witness :
  exists w' c',
    updates 3 0 lone_creature = Ok w'
    /\ heap w' = <[0%nat := c']> (heap lone_creature)
    /\ hunger c' = 3%Z /\ energy c' == 197 # 2.
Proof.
  destruct (updates_survive 3 0 lone_creature
              (mkCreature 100 (400, 300) male 0 0 1 0))
    as (w' & c' & H1 & H2 & _ & _ & H3 & H4 & _).
  - reflexivity.
  - cbn. lia.
  - vm_compute. reflexivity.
  - exists w', c'. split; [exact H1 |]. split; [exact H2 |].
    split; [exact H3 |]. rewrite H4. vm_compute. reflexivity.
Defined.

Lemma starvation_witness :
  (exists w0, updates 0 0 last_meal = Ok w0 /\ 0%nat ∈ creatures w0)
  /\ exists w', updates 1 0 last_meal = Ok w' /\ (0%nat ∉ creatures w').
Proof.
  destruct (starvation 0 0 last_meal starving) as [H1 H2].
  - reflexivity.
  - apply list_elem_of_here.
  - apply NoDup_singleton.
  - vm_compute. reflexivity.
  - vm_compute. discriminate.
  - split; [apply (H1 0%nat); lia | exact H2].
Defined.

Lemma reachable_thriving_witness : thriving (Ecosystem_init tape_half).
Proof.
  apply (reachable_thriving tape_half (Ecosystem_init tape_half)).
  - exact tape_half_ok.
  - apply reachable_init.
Defined.

Lemma dead_untouched_witness :
  exists w', manage tape_half graveyard = Ok w'
             /\ heap w' !! 0%nat = Some starving
             /\ (0%nat ∉ creatures w').
Proof.
  apply (dead_untouched tape_half 0 starving graveyard).
  - exact tape_half_ok.
  - exact graveyard_wf.
  - reflexivity.
  - cbn. apply not_elem_of_nil.
Defined.

Lemma death_skips_next_witness :
  exists w' cj',
    manage tape_half deathbed = Ok w' /\ heap w' !! 1%nat = Some cj'
    /\ 1%nat ∈ creatures w' /\ (0%nat ∉ creatures w')
    /\ energy cj' = energy eve /\ hunger cj' = hunger eve
    /\ speed cj' = speed eve /\ position cj' = position eve.
Proof.
  apply (death_skips_next tape_half 0 1 [] starving eve deathbed).
  - exact tape_half_ok.
  - exact deathbed_wf.
  - reflexivity.
  - reflexivity.
  - reflexivity.
  - vm_compute. discriminate.
Defined.

Lemma one_visit_each_witness :
  exists w' cx',
    manage tape_half pair_with_food = Ok w' /\ heap w' !! 0%nat = Some cx'
    /\ gender cx' = male /\ generation cx' = 0%Z.
Proof.
  destruct (one_visit_each tape_half 0 adam pair_with_food)
    as (w' & cx' & H1 & H2 & H3 & H4 & _).
  - exact tape_half_ok.
  - exact pair_with_food_wf.
  - reflexivity.
  - exists w', cx'. auto.
Defined.

Lemma population_growth_witness :
  exists w', manage tape_half pair_with_food = Ok w'
             /\ (length (creatures w') <= 8)%nat.
Proof.
  destruct (population_growth tape_half pair_with_food) as (w' & H1 & _ & H2).
  - exact tape_half_ok.
  - exact pair_with_food_wf.
  - exists w'. split; [exact H1 |]. cbn in H2. exact H2.
Defined.

Lemma frames_total_witness :
  exists w, frames tape_half 2 (Ecosystem_init tape_half) = Ok w
            /\ length (foods w) = max_food_count.
Proof.
  destruct (frames_total tape_half 2 tape_half_ok) as (w & H1 & _ & _ & H2).
  exists w. split; [exact H1 |]. apply H2. lia.
Defined.

Lemma update_after_death_witness :
  exists w1, update 0 last_meal = Ok w1
             /\ update 0 w1 = Raise ValueError.
Proof.
  eexists. split; [vm_compute; reflexivity |].
  apply (update_after_death 0 starving last_meal).
  - reflexivity.
  - apply list_elem_of_here.
  - vm_compute. reflexivity.
  - cbn. apply not_elem_of_nil.
Defined.

Lemma Ecosystem_init_spec_witness :
  creatures (Ecosystem_init tape_half) = seq 0 10
  /\ length (heap (Ecosystem_init tape_half)) = 10%nat
  /\ foods (Ecosystem_init tape_half) = []
  /\ cursor (Ecosystem_init tape_half) = 30%nat
  /\ Forall founding (heap (Ecosystem_init tape_half)).
Proof. apply (Ecosystem_init_spec tape_half). exact tape_half_ok. Defined.

(** ** Speed over a run *)

Lemma unvisited_spec (log : list nat) (x : nat) :
  unvisited log x = true <-> x ∉ log.
Proof.
  unfold unvisited. rewrite negb_true_iff, <- not_true_iff_false, existsb_exists.
  split.
  - intros H Hin. apply H. exists x. rewrite <- list_elem_of_In.
    split; [exact Hin | apply Nat.eqb_refl].
  - intros H (y & Hin & E). apply Nat.eqb_eq in E. subst y.
    apply H. now apply list_elem_of_In.
Qed.

Lemma tracked_reachable (rnd : nat -> Q) (w : Ecosystem) (young : list nat) :
  tracked rnd w young -> reachable rnd w.
Proof. induction 1; econstructor; eauto. Qed.

Lemma reachable_tracked (rnd : nat -> Q) (w : Ecosystem) :
  reachable rnd w -> exists young, tracked rnd w young.
Proof.
  induction 1 as [| w w' _ [young IH] H].
  - eexists. constructor.
  - eexists. econstructor; eauto.
Qed.

Lemma founders_init (rnd : nat -> Q) :
  tape_ok rnd ->
  length (heap (Ecosystem_init rnd)) = 10%nat
  /\ Forall founding (heap (Ecosystem_init rnd)).
Proof.
  intros Hr. destruct (founders_spec rnd 10 Hr) as (_ & Hl & _ & _ & Hall).
  split; [exact Hl | exact Hall].
Qed.

Lemma tracked_wf (rnd : nat -> Q) (w : Ecosystem) (young : list nat) :
  tape_ok rnd -> tracked rnd w young -> wf w.
Proof.
  intros Hr. induction 1 as [| w young w' _ IH H].
  - now apply Ecosystem_init_wf.
  - eapply manage_wf; eauto.
Qed.

Lemma ticked_speed (c : Creature) :
  (0 <= hunger c)%Z -> 1 <= speed (ticked c) <= 5.
Proof.
  intros Hh.
  apply (adjust_speed_clamp (set_hunger (hunger c + 1) c)). cbn. lia.
Qed.

(** What the loop does to the speeds: a visited creature comes out with a
    speed between 1 and 5, any other with the speed it had. *)
Lemma manage_loop_speed (rnd : nat -> Q) (fuel idx : nat) (w w' : Ecosystem) :
  wf w -> manage_loop rnd fuel idx w = Ok w' ->
  forall x c', heap w' !! x = Some c' ->
    (x ∈ visits rnd fuel idx w -> 1 <= speed c' <= 5)
    /\ (x ∉ visits rnd fuel idx w ->
        forall c, heap w !! x = Some c -> speed c' = speed c).
Proof.
  revert idx w. induction fuel as [| fuel IH];
    intros idx w Hw H x c' Hx'; cbn [manage_loop visits] in *; [discriminate |].
  destruct (creatures w !! idx) as [i |] eqn:Hidx.
  2: { inversion H; subst w'. split; [intros Hin; inversion Hin |].
       intros _ c Hc. congruence. }
  destruct (update i w) as [w1 |] eqn:H1; [| discriminate].
  cbn [bind] in H |- *.
  destruct (seekFood rnd i w1) as [w2 |] eqn:H2; [| discriminate].
  cbn [bind] in H.
  pose proof (update_wf _ _ _ H1 Hw) as Hw1.
  pose proof (seekFood_wf _ _ _ _ H2 Hw1) as Hw2.
  assert (Hi : i ∈ creatures w) by (eapply list_elem_of_lookup_2; eauto).
  pose proof Hw as (_ & Hv & _). rewrite Forall_forall in Hv.
  destruct (lookup_lt_is_Some_2 _ _ (Hv i Hi)) as [c Hc].
  destruct (update_effect i w w1 c Hc H1) as [Hh1 _].
  assert (Hc1 : heap w1 !! i = Some (ticked c)).
  { rewrite Hh1. apply list_lookup_insert_eq. now apply lookup_lt_Some in Hc. }
  destruct (seekFood_self rnd i w1 w2 (ticked c) Hc1 H2)
    as (_ & c2 & Hc2 & _ & _ & Hs2 & _).
  destruct (wf_lookup w i c Hw Hc) as (_ & Hh & _).
  pose proof (ticked_speed c Hh) as Hts.
  destruct (IH (S idx) w2 Hw2 H x c' Hx') as [IHin IHout].
  destruct (decide (x ∈ visits rnd fuel (S idx) w2)) as [Hlater | Hlater].
  { split; [intros _; now apply IHin |].
    intros Hnot. exfalso. apply Hnot. now apply list_elem_of_further. }
  split.
  - intros [-> | Hin]%elem_of_cons; [| contradiction].
    rewrite (IHout Hlater c2 Hc2), Hs2. exact Hts.
  - intros [Hxi _]%not_elem_of_cons cx Hcx.
    assert (Hx1 : heap w1 !! x = Some cx).
    { rewrite Hh1. now rewrite list_lookup_insert_ne by auto. }
    destruct (seekFood_others rnd i w1 w2 (ticked c) x cx Hc1 H2 Hxi Hx1)
      as (cx2 & Hx2 & Hsame & _).
    rewrite (IHout Hlater cx2 Hx2).
    now destruct (same_but_cooldown_fields _ _ Hsame) as (_ & _ & _ & _ & _ & ->).
Qed.

Lemma manage_speed (rnd : nat -> Q) (w w' : Ecosystem) :
  wf w -> manage rnd w = Ok w' ->
  forall x c', heap w' !! x = Some c' ->
    (x ∈ visits rnd (manage_fuel w) 0 w -> 1 <= speed c' <= 5)
    /\ (x ∉ visits rnd (manage_fuel w) 0 w ->
        forall c, heap w !! x = Some c -> speed c' = speed c).
Proof.
  intros Hw H x c' Hx'. unfold manage in H.
  destruct (manage_loop rnd (manage_fuel w) 0 w) as [w1 |] eqn:H1;
    [| discriminate].
  cbn [bind] in H. inversion H; subst w'. clear H.
  destruct (spawn_food_loop_spec rnd (fun _ => True) max_food_count w1)
    as (new & _ & _ & E); [auto | lia |].
  unfold spawn_food in Hx'. rewrite E in Hx'. cbn [heap] in Hx'.
  exact (manage_loop_speed rnd _ 0 w w1 Hw H1 x c' Hx').
Qed.

Lemma tracked_speed (rnd : nat -> Q) (w : Ecosystem) (young : list nat) :
  tape_ok rnd -> tracked rnd w young ->
  forall x c, heap w !! x = Some c -> x ∉ young -> 1 <= speed c <= 5.
Proof.
  intros Hr. induction 1 as [| w young w' Ht IH H]; intros x c Hx Hy.
  - destruct (founders_init rnd Hr) as [_ Hall].
    rewrite Forall_lookup in Hall.
    destruct (Hall x c Hx) as (_ & _ & _ & -> & _). lra.
  - pose proof (tracked_wf rnd w young Hr Ht) as Hw.
    destruct (manage_speed rnd w w' Hw H x c Hx) as [Hin Hout].
    set (log := visits rnd (manage_fuel w) 0 w) in *.
    destruct (decide (x ∈ log)) as [Hv | Hv]; [now apply Hin |].
    assert (Hold : x ∉ young ++ newcomers w w').
    { intros Hin'. apply Hy. apply list_elem_of_In, List.filter_In.
      split; [now apply list_elem_of_In | now apply unvisited_spec]. }
    apply not_elem_of_app in Hold as [Hyoung Hnew].
    assert (Hlt : (x < length (heap w))%nat).
    { destruct (Nat.lt_ge_cases x (length (heap w))) as [Hl | Hl]; [exact Hl |].
      exfalso. apply Hnew. unfold newcomers. apply elem_of_seq.
      apply lookup_lt_Some in Hx. lia. }
    destruct (lookup_lt_is_Some_2 _ _ Hlt) as [c0 Hc0].
    rewrite (Hout Hv c0 Hc0). now apply (IH x c0).
Qed.

(** The store only grows. *)
Lemma manage_loop_heap_grows (rnd : nat -> Q) (fuel idx : nat)
    (w w' : Ecosystem) :
  tape_ok rnd -> wf w -> manage_loop rnd fuel idx w = Ok w' ->
  (length (heap w) <= length (heap w'))%nat.
Proof.
  intros Hr. revert idx w. induction fuel as [| fuel IH];
    intros idx w Hw H; cbn [manage_loop] in H; [discriminate |].
  destruct (creatures w !! idx) as [i |] eqn:Hidx;
    [| inversion H; subst; lia].
  destruct (update i w) as [w1 |] eqn:H1; [| discriminate]. cbn [bind] in H.
  destruct (seekFood rnd i w1) as [w2 |] eqn:H2; [| discriminate].
  cbn [bind] in H.
  pose proof (update_wf _ _ _ H1 Hw) as Hw1.
  pose proof (seekFood_wf _ _ _ _ H2 Hw1) as Hw2.
  assert (Hi : i ∈ creatures w) by (eapply list_elem_of_lookup_2; eauto).
  pose proof Hw as (_ & Hv & _). rewrite Forall_forall in Hv.
  destruct (lookup_lt_is_Some_2 _ _ (Hv i Hi)) as [c Hc].
  destruct (update_effect i w w1 c Hc H1) as [Hh1 _].
  assert (Hc1 : heap w1 !! i = Some (ticked c)).
  { rewrite Hh1. apply list_lookup_insert_eq. now apply lookup_lt_Some in Hc. }
  destruct (seekFood_effect rnd i w1 w2 (ticked c) Hr Hc1 H2)
    as (_ & _ & _ & _ & _ & _ & _ & Hlen).
  rewrite Hh1, length_insert in Hlen.
  specialize (IH (S idx) w2 Hw2 H). lia.
Qed.

(** The creatures that a run keeps track of are not among the ten
    founders. *)
Lemma tracked_young (rnd : nat -> Q) (w : Ecosystem) (young : list nat) :
  tape_ok rnd -> tracked rnd w young ->
  (10 <= length (heap w))%nat /\ Forall (fun x => (10 <= x)%nat) young.
Proof.
  intros Hr. induction 1 as [| w young w' Ht [IHl IHy] H].
  - destruct (founders_init rnd Hr) as [-> _].
    split; [lia | constructor].
  - pose proof (tracked_wf rnd w young Hr Ht) as Hw.
    assert (Hgrow : (length (heap w) <= length (heap w'))%nat).
    { unfold manage in H.
      destruct (manage_loop rnd (manage_fuel w) 0 w) as [w1 |] eqn:H1;
        [| discriminate].
      cbn [bind] in H. inversion H; subst w'. clear H.
      destruct (spawn_food_loop_spec rnd (fun _ => True) max_food_count w1)
        as (new & _ & _ & E); [auto | lia |].
      unfold spawn_food. rewrite E. cbn [heap].
      eapply manage_loop_heap_grows; eauto. }
    split; [lia |].
    apply Forall_forall. intros x Hx.
    apply list_elem_of_In, List.filter_In in Hx as [Hx _].
    apply list_elem_of_In, elem_of_app in Hx as [Hx | Hx].
    + rewrite Forall_forall in IHy. now apply IHy.
    + unfold newcomers in Hx. apply elem_of_seq in Hx. lia.
Qed.

(** C7: a creature starts with speed 1; [update] on a creature of the live
    collection whose hunger is not negative leaves its speed at
    [clamp(1 + hunger/100, 1, 5)] for the hunger it now has, so between 1
    and 5; and in every state of a run, after any number of ticks, every
    creature ever made has a speed between 1 and 5, unless [reproduce] has
    made it (it is none of the ten founders) and no [update] has run on it
    since: nothing but the constructor, [reproduce] and [update] sets a
    speed. *)
Theorem update_speed (rnd : nat -> Q) :
  tape_ok rnd ->
  (forall e p g n w0, speed (fst (Creature_init rnd e p g n w0)) = 1)
  /\ (forall i w c,
        heap w !! i = Some c -> i ∈ creatures w -> (0 <= hunger c)%Z ->
        exists w' c',
          update i w = Ok w' /\ heap w' !! i = Some c'
          /\ hunger c' = (hunger c + 1)%Z
          /\ speed c' == clamp (1 + inject_Z (hunger c') / 100) 1 5
          /\ 1 <= speed c' <= 5)
  /\ (forall w young, tracked rnd w young ->
        forall x c, heap w !! x = Some c ->
          1 <= speed c <= 5 \/ (x ∈ young /\ (10 <= x)%nat)).
Proof.
  intros Hr. split.
  { intros e p [g |] n w0; reflexivity. }
  split.
  - intros i w c Hc Hi Hh.
    assert (Hs : heap (store i (ticked c) w) !! i = Some (ticked c))
      by (eapply store_lookup; eauto).
    assert (Hsp : speed (ticked c)
                  == clamp (1 + inject_Z (hunger (ticked c)) / 100) 1 5
                  /\ 1 <= speed (ticked c) <= 5).
    { apply (adjust_speed_clamp (set_hunger (hunger c + 1) c)). cbn. lia. }
    rewrite (update_run i w c Hc).
    destruct (Qle_bool _ _).
    + destruct (die_total i (store i (ticked c) w)) as [w' Hw']; [exact Hi |].
      exists w', (ticked c). destruct (die_heap _ _ _ Hw') as (-> & _).
      repeat split; auto; apply Hsp.
    + exists (store i (ticked c) w), (ticked c).
      repeat split; auto; apply Hsp.
  - intros w young Ht x c Hx.
    destruct (decide (x ∈ young)) as [Hy | Hy].
    + right. split; [exact Hy |].
      destruct (tracked_young rnd w young Hr Ht) as [_ Hall].
      rewrite Forall_forall in Hall. now apply Hall.
    + left. exact (tracked_speed rnd w young Hr Ht x c Hx Hy).
Qed.

(** A birth speed below 1: with every draw at one quarter the mutation
    factor is 0.9, and the parents are at speed 1. *)
Lemma mutated_speed_below_one :
  exists w' c,
    reproduce (fun _ => 1 # 4) 0 1 pair_with_food = Ok w'
    /\ heap w' !! 2%nat = Some c /\ speed c == 9 # 10.
Proof. do 2 eexists. split; [vm_compute; reflexivity |]. split; reflexivity. Qed.

Lemma update_speed_witness :
  (exists w' c',
     update 0 lone_creature = Ok w' /\ heap w' !! 0%nat = Some c'
     /\ hunger c' = 1%Z
     /\ speed c' == clamp (1 + inject_Z (hunger c') / 100) 1 5
     /\ 1 <= speed c' <= 5)
  /\ exists w1,
       manage tape_half (Ecosystem_init tape_half) = Ok w1
       /\ forall x c, heap w1 !! x = Some c -> 1 <= speed c <= 5.
Proof.
  destruct (update_speed tape_half tape_half_ok) as (_ & Hupdate & Hrun).
  split.
  - apply (Hupdate 0%nat lone_creature (mkCreature 100 (400, 300) male 0 0 1 0)).
    + reflexivity.
    + apply list_elem_of_here.
    + simpl. lia.
  - destruct (manage tape_half (Ecosystem_init tape_half)) as [w1 |] eqn:Hm;
      [| vm_compute in Hm; discriminate].
    exists w1. split; [reflexivity |]. intros x c Hx.
    pose proof (tracked_tick tape_half _ [] w1 (tracked_init tape_half) Hm)
      as Ht.
    match type of Ht with
    | tracked _ _ ?y => assert (Hy : y = [])
    end.
    { vm_compute in Hm. injection Hm as <-. vm_compute. reflexivity. }
    rewrite Hy in Ht.
    destruct (Hrun w1 [] Ht x c Hx) as [H | [H _]]; [exact H | inversion H].
Defined.
